(** * Scribe-AI: the pagination engine of [src/utils/textUtils.ts]

    A shallow embedding of [paginateText] (the block- and table-aware
    version, lines 130-323 of the source file) together with its local
    helpers [pushPage], [getLineHeight] and [wrapText].

    Modelling conventions.
    - A JavaScript string is a [string]: a sequence of code units, here
      restricted to the code units below 256.
    - A JavaScript number that holds a pixel measure is a rational [Q]:
      arithmetic is exact, the rounding of IEEE doubles is not modelled,
      and the parameters are finite numbers (no [NaN], no infinity, no
      negative zero).
      The one division of the function, [USABLE_WIDTH / avgCharWidth],
      can have a zero divisor; as in JavaScript it then yields
      [+Infinity], which is why [charsPerLine] lives in [ExtZ].
    - The mutable locals [pages], [currentPageLines], [currentHeightUsed]
      are threaded explicitly as a [State] record.

    After it come the first version of [paginateText] (lines 10-121 of
    the same file), the second version once more over binary64
    ([F64V2], for what depends on the rounding of a sum or a quotient),
    and the code around the paginator: the file import of
    [src/utils/fileUtils.ts], the Gemini service, and the handlers of
    [App] and [ControlPanel] that compute with text and numbers.  There
    an awaited promise is a [Js.Result], and the browser, the script-tag
    libraries and the remote service are records of functions. *)

From Stdlib Require Import List String Ascii Bool Arith ZArith QArith Qround Lia Lqa.
From Stdlib Require Floats.
Import ListNotations.

Local Open Scope string_scope.
Local Open Scope list_scope.
Local Open Scope Z_scope.

(** ** Strings as the source uses them *)

Module Str.

Definition newline : ascii := "010"%char.
Definition space : ascii := " "%char.

(** The code units below 256 that JavaScript counts as white space or
    as a line terminator ([String.prototype.trim], and [\s] in a
    regular expression): TAB, LF, VT, FF, CR, SPACE, NBSP. *)
Definition isWhite (c : ascii) : bool :=
  let n := N_of_ascii c in
  ((n =? 9) || (n =? 10) || (n =? 11) || (n =? 12) || (n =? 13)
   || (n =? 32) || (n =? 160))%N.

Fixpoint trimStart (s : string) : string :=
  match s with
  | String c s' => if isWhite c then trimStart s' else s
  | EmptyString => EmptyString
  end.

Fixpoint trimEnd (s : string) : string :=
  match s with
  | String c s' =>
      match trimEnd s' with
      | EmptyString => if isWhite c then EmptyString else String c EmptyString
      | t => String c t
      end
  | EmptyString => EmptyString
  end.

(** [s.trim()] *)
Definition trim (s : string) : string := trimStart (trimEnd s).

(** [s.startsWith(c)] for a one-character needle *)
Definition startsWith (c : ascii) (s : string) : bool :=
  match s with
  | String c' _ => Ascii.eqb c' c
  | EmptyString => false
  end.

(** [s.split(sep)] for a one-character separator: never empty, and
    [split sep ""] is [[""]]. *)
Fixpoint split (sep : ascii) (s : string) : list string :=
  match s with
  | EmptyString => [EmptyString]
  | String c s' =>
      if Ascii.eqb c sep then EmptyString :: split sep s'
      else match split sep s' with
           | w :: ws => String c w :: ws
           | [] => [String c EmptyString]
           end
  end.

(** [l.join(sep)] for a one-character separator *)
Fixpoint join (sep : ascii) (l : list string) : string :=
  match l with
  | [] => EmptyString
  | [x] => x
  | x :: rest => (x ++ String sep (join sep rest))%string
  end.

(** [s.length] as a JavaScript number *)
Definition len (s : string) : Z := Z.of_nat (String.length s).

(** the character [c] occurs in [s] *)
Fixpoint mem (c : ascii) (s : string) : bool :=
  match s with
  | String c' s' => Ascii.eqb c' c || mem c s'
  | EmptyString => false
  end.

End Str.

(** ** Numbers *)

(** The value of [charsPerLine]: an integer, or [+Infinity] when the
    divisor [avgCharWidth] is zero. *)
Inductive ExtZ : Type :=
| Fin (z : Z)
| PosInf.

(** [n <= max] for an integer [n] and an extended integer [max] *)
Definition leExt (n : Z) (max : ExtZ) : bool :=
  match max with
  | Fin m => n <=? m
  | PosInf => true
  end.

(** [a > b] on pixel measures *)
Definition Qgtb (a b : Q) : bool := negb (Qle_bool a b).

Definition PAGE_HEIGHT : Q := 1123.
Definition VERTICAL_PADDING : Q := 96.
Definition AVAILABLE_HEIGHT : Q := PAGE_HEIGHT - VERTICAL_PADDING.
Definition PAGE_WIDTH : Q := 794.
Definition HORIZONTAL_PADDING_PX : Q := 92.
Definition USABLE_WIDTH : Q := PAGE_WIDTH - HORIZONTAL_PADDING_PX.

Definition pxPerLineOf (fontSize lineHeight : Q) : Q := fontSize * lineHeight.

Definition avgCharWidthOf (fontSize : Q) : Q := fontSize * (45 # 100).

(** [Math.floor(USABLE_WIDTH / avgCharWidth)], the quotient exact.  The
    source rounds the product and the quotient to binary64 before the
    floor ([F64V2.charsPerLineOf]): at [fontSize = 26] it computes 59
    where the exact quotient is 60, and a product that underflows to
    zero gives [+Infinity] as [fontSize = 0] does. *)
Definition charsPerLineOf (fontSize : Q) : ExtZ :=
  let avgCharWidth := avgCharWidthOf fontSize in
  if Qeq_bool avgCharWidth 0 then PosInf
  else Fin (Qfloor (USABLE_WIDTH / avgCharWidth)).

(** ** Line classification probes *)

(** [trimmed.startsWith('|')] on the trimmed line *)
Definition isTableLine (line : string) : bool :=
  Str.startsWith "|"%char (Str.trim line).

(** [/^---$/.test(t) || /^___$/.test(t) || /^\*\*\*$/.test(t)] on the
    trimmed line: the three markers, exactly three characters each. *)
Definition isHrLine (line : string) : bool :=
  let trimmed := Str.trim line in
  String.eqb trimmed "---" || String.eqb trimmed "___" || String.eqb trimmed "***".

(** The rest of [/^#{1,6}\s/] once [k] hash signs are consumed and at
    most [fuel] more may follow. *)
Fixpoint hashesThenWhite (fuel : nat) (k : nat) (s : string) : bool :=
  match s with
  | String c s' =>
      if Ascii.eqb c "#"%char then
        match fuel with
        | S fuel' => hashesThenWhite fuel' (S k) s'
        | O => false
        end
      else (0 <? k)%nat && Str.isWhite c
  | EmptyString => false
  end.

(** [/^#{1,6}\s/.test(line)], on the untrimmed line *)
Definition isHeaderLine (line : string) : bool := hashesThenWhite 6 0 line.

(** ** Text wrapping *)

(** The [for] loop of [wrapText] over [words[1..]], with the locals
    [wrapped] and [current]; the final [wrapped.push(current)] included. *)
Fixpoint wrapLoop (max : ExtZ) (words : list string)
    (wrapped : list string) (current : string) : list string :=
  match words with
  | [] => wrapped ++ [current]
  | word :: rest =>
      if leExt (Str.len current + 1 + Str.len word) max
      then wrapLoop max rest wrapped (current ++ String Str.space word)%string
      else wrapLoop max rest (wrapped ++ [current]) word
  end.

Definition wrapText (str : string) (max : ExtZ) : list string :=
  if leExt (Str.len str) max then [str]
  else
    let words := Str.split Str.space str in
    let current := hd EmptyString words in
    wrapLoop max (tl words) [] current.

(** ** Block segmentation *)

Inductive BlockType : Type := text | table | hr.

Record Block : Type := mkBlock { type : BlockType; content : list string }.

(** The first loop of [paginateText]: [rawLines] is consumed from the
    front; a table block absorbs the maximal run of table lines (the
    inner [while], here the local [collect] with its [tableLines]). *)
Fixpoint segment (rawLines : list string) : list Block :=
  match rawLines with
  | [] => []
  | line :: rest =>
      if isTableLine line then
        (fix collect (tableLines : list string) (ls : list string) {struct ls}
           : list Block :=
           match ls with
           | l :: ls' =>
               if isTableLine l then collect (tableLines ++ [l]) ls'
               else mkBlock table tableLines :: segment ls
           | [] => [mkBlock table tableLines]
           end) [line] rest
      else if isHrLine line then mkBlock hr [line] :: segment rest
      else mkBlock text [line] :: segment rest
  end.



(** ** Page assembly *)

Local Open Scope Q_scope.

Record State : Type := mkState {
  pages : list string;
  currentPageLines : list string;
  currentHeightUsed : Q
}.

Definition nonEmpty {A : Type} (l : list A) : bool :=
  match l with [] => false | _ :: _ => true end.

(** [arr.length] as a pixel-arithmetic operand *)
Definition lengthQ {A : Type} (l : list A) : Q := inject_Z (Z.of_nat (List.length l)).

Definition pushPage (st : State) : State :=
  {| pages :=
       if nonEmpty (currentPageLines st)
       then pages st ++ [Str.join Str.newline (currentPageLines st)]
       else pages st ++ [EmptyString];
     currentPageLines := [];
     currentHeightUsed := 0 |}.

Section Assembly.

Variable pxPerLine : Q.
Variable charsPerLine : ExtZ.

Definition getLineHeight (isHeader isTable isHr : bool) : Q :=
  if isTable then pxPerLine * 1
  else if isHr then pxPerLine * (1 # 2)
  else if isHeader then pxPerLine * (3 # 2)
  else pxPerLine.

(** [currentPageLines.push(...ls); currentHeightUsed += h] *)
Definition addLines (ls : list string) (h : Q) (st : State) : State :=
  {| pages := pages st;
     currentPageLines := currentPageLines st ++ ls;
     currentHeightUsed := currentHeightUsed st + h |}.

(** The row loop of a table that must be split; [r] is the index of the
    first row of [rows] in the block. *)
Fixpoint splitRows (headers : list string) (r : nat) (rows : list string)
    (st : State) : State :=
  match rows with
  | [] => st
  | row :: rest =>
      let isHeaderRow := (r <? 2)%nat in
      let st1 :=
        if Qgtb (currentHeightUsed st + pxPerLine) AVAILABLE_HEIGHT then
          let st' := pushPage st in
          if negb isHeaderRow && (List.length headers =? 2)%nat
          then addLines headers (lengthQ headers * pxPerLine) st'
          else st'
        else st in
      splitRows headers (S r) rest (addLines [row] pxPerLine st1)
  end.

(** The loop over the visual lines of a wrapped paragraph.  The sum
    [currentHeightUsed + height] is exact here and rounded in the source
    ([F64V2.placeVisual]); the test comes before the addition in both. *)
Fixpoint placeVisual (visualLines : list string) (st : State) : State :=
  match visualLines with
  | [] => st
  | vLine :: rest =>
      let height := pxPerLine in
      let st1 :=
        if Qgtb (currentHeightUsed st + height) AVAILABLE_HEIGHT
        then pushPage st else st in
      placeVisual rest (addLines [vLine] height st1)
  end.

(** The body of [for (const block of blocks)].  [block.content[0]] of a
    one-line block is its line; [segment] builds no other [hr] or
    [text] block. *)
Definition processBlock (st : State) (block : Block) : State :=
  match type block with
  | table =>
      let headers := firstn 2 (content block) in
      let tableHeight := lengthQ (content block) * getLineHeight false true false in
      if Qle_bool (currentHeightUsed st + tableHeight) AVAILABLE_HEIGHT then
        let st1 :=
          if nonEmpty (currentPageLines st)
          then addLines [EmptyString] pxPerLine st else st in
        addLines (content block) tableHeight st1
      else
        let st1 :=
          if nonEmpty (currentPageLines st) && Qgtb (currentHeightUsed st) 0
          then addLines [EmptyString] pxPerLine st else st in
        splitRows headers 0 (content block) st1
  | hr =>
      let h := getLineHeight false false true in
      let st1 :=
        if Qgtb (currentHeightUsed st + h) AVAILABLE_HEIGHT
        then pushPage st else st in
      addLines [hd EmptyString (content block)] h st1
  | text =>
      let line := hd EmptyString (content block) in
      let isHeader := isHeaderLine line in
      if isHeader then
        let height := getLineHeight true false false in
        let st1 :=
          if Qgtb (currentHeightUsed st + height) AVAILABLE_HEIGHT
          then pushPage st else st in
        addLines [line] height st1
      else
        let visualLines := wrapText line charsPerLine in
        placeVisual visualLines st
  end.

Definition initState : State :=
  {| pages := []; currentPageLines := []; currentHeightUsed := 0 |}.

(** The second loop, then the final flush and the fallback *)
Definition assemble (blocks : list Block) : list string :=
  let st := fold_left processBlock blocks initState in
  let pages' :=
    if nonEmpty (currentPageLines st)
    then pages st ++ [Str.join Str.newline (currentPageLines st)]
    else pages st in
  if nonEmpty pages' then pages' else [EmptyString].

End Assembly.

Definition paginateText (text : string) (fontSize lineHeight : Q) : list string :=
  match text with
  | EmptyString => [EmptyString]
  | _ =>
      let pxPerLine := pxPerLineOf fontSize lineHeight in
      let charsPerLine := charsPerLineOf fontSize in
      let rawLines := Str.split Str.newline text in
      let blocks := segment rawLines in
      assemble pxPerLine charsPerLine blocks
  end.

(** ** The same run, with provenance

    To state which output lines are input lines, which are re-emitted
    table headers and which are inserted spacers, and what height a page
    had accumulated when it was sealed, the run is repeated with ghost
    annotations: every line pushed to [currentPageLines] carries its
    [Origin], every sealed page the value of [currentHeightUsed] at that
    moment.  The control flow is that of [processBlock], statement for
    statement; [paginateTrace_erase] below shows that dropping the
    annotations gives back [paginateText]. *)

Inductive Origin : Type :=
| Visual                  (* a visual line of a wrapped paragraph *)
| Heading                 (* a heading line *)
| Rule                    (* a horizontal rule *)
| Row (b r : nat)         (* row [r] of the table that is block [b] *)
| Hdr (b k : nat)         (* header line [k] of table [b], re-emitted *)
| Spacer.                 (* the blank line inserted before a table *)

Abbreviation TLine := (Origin * string)%type.

Record TPage : Type := mkTPage { plines : list TLine; pheight : Q }.

Record TState : Type := mkTState {
  tpages : list TPage;
  tcur : list TLine;
  tused : Q
}.

Definition render (p : TPage) : string :=
  Str.join Str.newline (map snd (plines p)).

Definition tPushPage (st : TState) : TState :=
  {| tpages := tpages st ++ [mkTPage (tcur st) (tused st)];
     tcur := [];
     tused := 0 |}.

(** rows [r], [r+1], ... of table [b] *)
Fixpoint tagRows (b r : nat) (rows : list string) : list TLine :=
  match rows with
  | [] => []
  | row :: rest => (Row b r, row) :: tagRows b (S r) rest
  end.

Fixpoint tagHdrs (b k : nat) (headers : list string) : list TLine :=
  match headers with
  | [] => []
  | h :: rest => (Hdr b k, h) :: tagHdrs b (S k) rest
  end.

Section TraceAssembly.

Variable pxPerLine : Q.
Variable charsPerLine : ExtZ.

Definition tAddLines (ls : list TLine) (h : Q) (st : TState) : TState :=
  {| tpages := tpages st;
     tcur := tcur st ++ ls;
     tused := tused st + h |}.

Fixpoint tSplitRows (b : nat) (headers : list string) (r : nat)
    (rows : list string) (st : TState) : TState :=
  match rows with
  | [] => st
  | row :: rest =>
      let isHeaderRow := (r <? 2)%nat in
      let st1 :=
        if Qgtb (tused st + pxPerLine) AVAILABLE_HEIGHT then
          let st' := tPushPage st in
          if negb isHeaderRow && (List.length headers =? 2)%nat
          then tAddLines (tagHdrs b 0 headers) (lengthQ headers * pxPerLine) st'
          else st'
        else st in
      tSplitRows b headers (S r) rest (tAddLines [(Row b r, row)] pxPerLine st1)
  end.

Fixpoint tPlaceVisual (visualLines : list string) (st : TState) : TState :=
  match visualLines with
  | [] => st
  | vLine :: rest =>
      let height := pxPerLine in
      let st1 :=
        if Qgtb (tused st + height) AVAILABLE_HEIGHT
        then tPushPage st else st in
      tPlaceVisual rest (tAddLines [(Visual, vLine)] height st1)
  end.

(** [b] is the index of [block] in [blocks] *)
Definition tProcessBlock (b : nat) (st : TState) (block : Block) : TState :=
  match type block with
  | table =>
      let headers := firstn 2 (content block) in
      let tableHeight :=
        lengthQ (content block) * getLineHeight pxPerLine false true false in
      if Qle_bool (tused st + tableHeight) AVAILABLE_HEIGHT then
        let st1 :=
          if nonEmpty (tcur st)
          then tAddLines [(Spacer, EmptyString)] pxPerLine st else st in
        tAddLines (tagRows b 0 (content block)) tableHeight st1
      else
        let st1 :=
          if nonEmpty (tcur st) && Qgtb (tused st) 0
          then tAddLines [(Spacer, EmptyString)] pxPerLine st else st in
        tSplitRows b headers 0 (content block) st1
  | hr =>
      let h := getLineHeight pxPerLine false false true in
      let st1 :=
        if Qgtb (tused st + h) AVAILABLE_HEIGHT
        then tPushPage st else st in
      tAddLines [(Rule, hd EmptyString (content block))] h st1
  | text =>
      let line := hd EmptyString (content block) in
      let isHeader := isHeaderLine line in
      if isHeader then
        let height := getLineHeight pxPerLine true false false in
        let st1 :=
          if Qgtb (tused st + height) AVAILABLE_HEIGHT
          then tPushPage st else st in
        tAddLines [(Heading, line)] height st1
      else
        let visualLines := wrapText line charsPerLine in
        tPlaceVisual visualLines st
  end.

(** the loop over [blocks], from block index [b] on *)
Fixpoint tRun (b : nat) (blocks : list Block) (st : TState) : TState :=
  match blocks with
  | [] => st
  | block :: rest => tRun (S b) rest (tProcessBlock b st block)
  end.

Definition tInitState : TState :=
  {| tpages := []; tcur := []; tused := 0 |}.

Definition tFinish (st : TState) : list TPage :=
  let pages' :=
    if nonEmpty (tcur st)
    then tpages st ++ [mkTPage (tcur st) (tused st)]
    else tpages st in
  if nonEmpty pages' then pages' else [mkTPage [] 0].

Definition tAssemble (blocks : list Block) : list TPage :=
  tFinish (tRun 0 blocks tInitState).

End TraceAssembly.

(** The early return hands the empty document back as the one page: its
    single, empty line, with nothing accumulated. *)
Definition paginateTrace (text : string) (fontSize lineHeight : Q) : list TPage :=
  match text with
  | EmptyString => [mkTPage [(Visual, EmptyString)] 0]
  | _ =>
      let pxPerLine := pxPerLineOf fontSize lineHeight in
      let charsPerLine := charsPerLineOf fontSize in
      let rawLines := Str.split Str.newline text in
      let blocks := segment rawLines in
      tAssemble pxPerLine charsPerLine blocks
  end.

(** A document given by its lines *)
Definition doc (ls : list string) : string := Str.join Str.newline ls.

(** ** Vocabulary of the properties *)

(** An output line that is an input line (or a piece of one), as opposed
    to a re-emitted header line or an inserted spacer. *)
Definition isOriginal (o : Origin) : bool :=
  match o with
  | Hdr _ _ | Spacer => false
  | _ => true
  end.

Definition allLines (ps : list TPage) : list TLine := List.concat (map plines ps).

(** The lines of the pages in order, header re-emissions and spacers
    excluded. *)
Definition contentLines (ps : list TPage) : list string :=
  map snd (filter (fun tl => isOriginal (fst tl)) (allLines ps)).

(** A paragraph line proper: no table row, no rule, no heading. *)
Definition isPlainLine (line : string) : bool :=
  negb (isTableLine line) && negb (isHrLine line) && negb (isHeaderLine line).

(** What one input line contributes to the pages: itself, or its visual
    lines when it is a paragraph line. *)
Definition emitted (charsPerLine : ExtZ) (line : string) : list string :=
  if isPlainLine line then wrapText line charsPerLine else [line].

(** A visual line is within [max], or it is a single word. *)
Definition fitsOrSingle (max : ExtZ) (v : string) : Prop :=
  leExt (Str.len v) max = true \/ Str.mem Str.space v = false.

(** The maximal run of table lines at the front of [ls], and what
    follows it: what the inner [while] of the segmentation consumes and
    where it stops. *)
Fixpoint takeTable (ls : list string) : list string :=
  match ls with
  | l :: ls' => if isTableLine l then l :: takeTable ls' else []
  | [] => []
  end.

Fixpoint dropTable (ls : list string) : list string :=
  match ls with
  | l :: ls' => if isTableLine l then dropTable ls' else ls
  | [] => []
  end.

(** What the segmentation guarantees of each block it builds. *)
Definition blockWellFormed (b : Block) : Prop :=
  match type b with
  | table =>
      content b <> [] /\ Forall (fun l => isTableLine l = true) (content b)
  | hr =>
      exists line, content b = [line]
                   /\ isTableLine line = false /\ isHrLine line = true
  | text =>
      exists line, content b = [line]
                   /\ isTableLine line = false /\ isHrLine line = false
  end.

(** No table block is directly followed by another table block. *)
Fixpoint tablesApart (blocks : list Block) : Prop :=
  match blocks with
  | b1 :: rest =>
      match rest with
      | b2 :: _ => type b1 = table -> type b2 <> table
      | [] => True
      end
      /\ tablesApart rest
  | [] => True
  end.

(** The rule pattern as the specification words it: three or more
    repetitions of one of [-], [_], [*], and nothing else. *)
Definition isRuleRun (trimmed : string) : bool :=
  match trimmed with
  | String c rest =>
      (Ascii.eqb c "-" || Ascii.eqb c "_" || Ascii.eqb c "*")%char
      && (2 <=? String.length rest)%nat
      && forallb (Ascii.eqb c) (list_ascii_of_string rest)
  | EmptyString => false
  end.

(** The annotated lines block [b] contributes, and their texts. *)
Definition emitT (charsPerLine : ExtZ) (b : nat) (block : Block) : list TLine :=
  match type block with
  | table => tagRows b 0 (content block)
  | hr => [(Rule, hd EmptyString (content block))]
  | text =>
      let line := hd EmptyString (content block) in
      if isHeaderLine line then [(Heading, line)]
      else map (pair Visual) (wrapText line charsPerLine)
  end.

Fixpoint emitAllT (charsPerLine : ExtZ) (b : nat) (blocks : list Block)
    : list TLine :=
  match blocks with
  | [] => []
  | block :: rest => emitT charsPerLine b block ++ emitAllT charsPerLine (S b) rest
  end.

(** All lines placed so far, sealed pages first. *)
Definition allT (st : TState) : list TLine := allLines (tpages st) ++ tcur st.

Definition origOf (ls : list TLine) : list TLine :=
  filter (fun tl => isOriginal (fst tl)) ls.

(** The first unit a block places, with the height the page assembly
    charges for it: the first row of a table, the rule, the heading, or
    the first visual line of a paragraph. *)
Definition firstUnitHeight (pxPerLine : Q) (block : Block) : Q :=
  match type block with
  | table => pxPerLine
  | hr => getLineHeight pxPerLine false false true
  | text =>
      if isHeaderLine (hd EmptyString (content block))
      then getLineHeight pxPerLine true false false
      else pxPerLine
  end.

Definition firstUnitLine (charsPerLine : ExtZ) (block : Block) : string :=
  match type block with
  | table | hr => hd EmptyString (content block)
  | text =>
      let line := hd EmptyString (content block) in
      if isHeaderLine line then line
      else hd EmptyString (wrapText line charsPerLine)
  end.

(** From [st0] on, the page that begins with line [u] stays headed by
    [u]: it is the first page sealed after [st0], or still the current
    one. *)
Definition headedBy (u : string) (st0 st : State) : Prop :=
  exists more,
    pages st = pages st0 ++ more
    /\ match more with
       | [] => exists ls, currentPageLines st = u :: ls
       | pg :: _ => exists ls, pg = Str.join Str.newline (u :: ls)
       end.

(** The height the page assembly charges for one line, by provenance
    (section 4.2 of the specification; a spacer costs one line). *)
Definition unitHeight (pxPerLine : Q) (o : Origin) : Q :=
  match o with
  | Rule => getLineHeight pxPerLine false false true
  | Heading => getLineHeight pxPerLine true false false
  | _ => pxPerLine
  end.

(** Budget respect for one page: its accumulated height is within the
    budget, or it holds exactly one unit whose own height exceeds the
    budget. *)
Definition budgetOk (pxPerLine : Q) (p : TPage) : bool :=
  Qle_bool (pheight p) AVAILABLE_HEIGHT
  || match plines p with
     | [tl] => Qgtb (unitHeight pxPerLine (fst tl)) AVAILABLE_HEIGHT
     | _ => false
     end.

Definition isSpacer (tl : TLine) : bool :=
  match fst tl with Spacer => true | _ => false end.

Definition hasSpacer (p : TPage) : bool := existsb isSpacer (plines p).

(** The page is the two re-emitted header lines of a table and one of
    its data rows. *)
Definition isHeaderPlusRow (p : TPage) : bool :=
  match plines p with
  | [(Hdr b0 0, _); (Hdr b1 1, _); (Row b2 r, _)] =>
      (b0 =? b2)%nat && (b1 =? b2)%nat && (2 <=? r)%nat
  | _ => false
  end.

Definition pageOk (pxPerLine : Q) (p : TPage) : Prop :=
  hasSpacer p = true \/ budgetOk pxPerLine p = true \/ isHeaderPlusRow p = true.

(** The invariant of the annotated run behind the budget property. *)
Record BudgetInv (pxPerLine : Q) (st : TState) : Prop := mkBudgetInv {
  inv_sealed : Forall (pageOk pxPerLine) (tpages st);
  inv_current : pageOk pxPerLine (mkTPage (tcur st) (tused st));
  inv_fresh : tcur st = [] -> tused st == 0
}.

(** Page [p] holds a row of table [b]; a data row (index 2 or more) of
    table [b]. *)
Definition hasRowOf (b : nat) (p : TPage) : bool :=
  existsb (fun tl => match fst tl with
                     | Row b' _ => (b' =? b)%nat
                     | _ => false
                     end) (plines p).

Definition hasDataRowOf (b : nat) (p : TPage) : bool :=
  existsb (fun tl => match fst tl with
                     | Row b' r => (b' =? b)%nat && (2 <=? r)%nat
                     | _ => false
                     end) (plines p).

(** Table header continuity as the specification words it: a page after
    one that already holds rows of table [b], and that holds data rows of
    [b], begins with the two header lines of [b]. *)
Definition headerContinuity (blocks : list Block) (ps : list TPage) : Prop :=
  forall b blk i j pi pj,
    nth_error blocks b = Some blk -> type blk = table ->
    (i < j)%nat ->
    nth_error ps i = Some pi -> hasRowOf b pi = true ->
    nth_error ps j = Some pj -> hasDataRowOf b pj = true ->
    firstn 2 (map snd (plines pj)) = firstn 2 (content blk).

(** What the code guarantees of the lines [ls] of a page: a data row is
    directly preceded by the previous row of its table, or it is the
    third line, after the two header lines of its table re-emitted
    verbatim at the top. *)
Definition rowAnchored (blocks : list Block) (ls : list TLine) : Prop :=
  forall i b r s,
    nth_error ls i = Some (Row b r, s) -> (2 <= r)%nat ->
    (exists s', (1 <= i)%nat /\ nth_error ls (i - 1) = Some (Row b (r - 1), s'))
    \/ (i = 2%nat
        /\ exists blk h0 h1,
             nth_error blocks b = Some blk
             /\ firstn 2 (content blk) = [h0; h1]
             /\ firstn 2 ls = [(Hdr b 0, h0); (Hdr b 1, h1)]).

(** Row [r] of table [b] may be appended to [ls]: it is a header row, or
    [ls] ends with row [r - 1] of [b]. *)
Definition rowFollows (b r : nat) (ls : list TLine) : Prop :=
  (r < 2)%nat \/ exists ls0 s', ls = ls0 ++ [(Row b (r - 1), s')].

Record AnchorInv (blocks : list Block) (st : TState) : Prop := mkAnchorInv {
  anc_sealed : Forall (fun p => rowAnchored blocks (plines p)) (tpages st);
  anc_current : rowAnchored blocks (tcur st)
}.

(** The document has no table line. *)
Definition noTableLine (text : string) : Prop :=
  Forall (fun line => isTableLine line = false) (Str.split Str.newline text).

(** The order of the values of [charsPerLine] *)
Definition extLe (a b : ExtZ) : Prop :=
  match a, b with
  | _, PosInf => True
  | Fin x, Fin y => (x <= y)%Z
  | PosInf, Fin _ => False
  end.

(** Run 2 (the larger font) is at least as far as run 1: it has sealed
    more pages, or as many with at least as much on the current one. *)
Record Dominates (s1 s2 : State) : Prop := mkDominates {
  dom_used1 : 0 <= currentHeightUsed s1;
  dom_used2 : 0 <= currentHeightUsed s2;
  dom_cur : nonEmpty (currentPageLines s1) = nonEmpty (currentPageLines s2);
  dom_pages :
    (List.length (pages s1) < List.length (pages s2))%nat
    \/ (List.length (pages s1) = List.length (pages s2)
        /\ currentHeightUsed s1 <= currentHeightUsed s2)
}.

(** "Seal if it overflows, then append": the step the code takes for a
    rule, a heading and each visual line. *)
Definition place (h : Q) (line : string) (st : State) : State :=
  {| pages := pages (if Qgtb (currentHeightUsed st + h) AVAILABLE_HEIGHT
                     then pushPage st else st);
     currentPageLines :=
       currentPageLines (if Qgtb (currentHeightUsed st + h) AVAILABLE_HEIGHT
                         then pushPage st else st) ++ [line];
     currentHeightUsed :=
       currentHeightUsed (if Qgtb (currentHeightUsed st + h) AVAILABLE_HEIGHT
                          then pushPage st else st) + h |}.

(** No paragraph of [rawLines] is wrapped into a visual line that would
    itself be read as a table row, a rule or a heading. *)
Definition visualPlain (charsPerLine : ExtZ) (rawLines : list string) : Prop :=
  Forall (fun line =>
            isPlainLine line = true ->
            Forall (fun v => isPlainLine v = true) (wrapText line charsPerLine))
    rawLines.

(** [X] does not start with a table line. *)
Definition headNonTable (X : list string) : Prop :=
  match X with
  | l :: _ => isTableLine l = false
  | [] => True
  end.

(** The state after the loop over the blocks *)
Definition runBlocks (pxPerLine : Q) (charsPerLine : ExtZ)
    (blocks : list Block) (st : State) : State :=
  fold_left (processBlock pxPerLine charsPerLine) blocks st.

(** No line feed inside the line. *)
Definition oneLine (s : string) : Prop := Str.mem Str.newline s = false.

(** The conditions on a page under which paginating it again changes
    nothing: every line is an input line (no spacer, no re-emitted
    header), and no visual line reads as a table row, rule or heading. *)
Definition steadyLine (tl : TLine) : Prop :=
  isOriginal (fst tl) = true
  /\ (fst tl = Visual -> isPlainLine (snd tl) = true).

(** The default settings of the application, and the document of the
    specification's first scenario with the page they give. *)
Definition defaultFontSize : Q := 22.
Definition defaultLineHeight : Q := 16 # 10.

Definition sampleDoc : string :=
  doc ["# Title"; ""; "Some short paragraph."].

Definition samplePage : TPage :=
  Eval vm_compute in
    hd (mkTPage [] 0) (paginateTrace sampleDoc defaultFontSize defaultLineHeight).

(** How far the output has come: the pages sealed, plus the current page
    once it holds a line. *)
Definition progress (st : State) : nat :=
  (List.length (pages st) + (if nonEmpty (currentPageLines st) then 1 else 0))%nat.

(** ** The first version of [paginateText]
    ([src/utils/textUtils.ts], lines 10-121)

    The earlier, height-accumulating function.  Its line estimates
    divide by [charsPerLine], which is zero for large fonts, so its
    heights can be infinite or [NaN]; they live in [JsNum.num]: the
    rationals with the IEEE special values.  Zero is unsigned (a zero
    divisor counts as [+0]), rounding is not modelled. *)

Module JsNum.

Inductive num : Type :=
| Finite (q : Q)
| PInfty
| NInfty
| NaN.

(** an infinity ([pos]: positive) multiplied by a number of sign [c] *)
Definition scaleInf (pos : bool) (c : comparison) : num :=
  match c with
  | Eq => NaN
  | Gt => if pos then PInfty else NInfty
  | Lt => if pos then NInfty else PInfty
  end.

Definition add (x y : num) : num :=
  match x, y with
  | NaN, _ | _, NaN => NaN
  | Finite a, Finite b => Finite (a + b)
  | PInfty, NInfty | NInfty, PInfty => NaN
  | PInfty, _ | _, PInfty => PInfty
  | NInfty, _ | _, NInfty => NInfty
  end.

Definition mul (x y : num) : num :=
  match x, y with
  | NaN, _ | _, NaN => NaN
  | Finite a, Finite b => Finite (a * b)
  | PInfty, Finite b | Finite b, PInfty => scaleInf true (b ?= 0)
  | NInfty, Finite b | Finite b, NInfty => scaleInf false (b ?= 0)
  | PInfty, PInfty | NInfty, NInfty => PInfty
  | PInfty, NInfty | NInfty, PInfty => NInfty
  end.

Definition div (x y : num) : num :=
  match x, y with
  | NaN, _ | _, NaN => NaN
  | Finite a, Finite b =>
      if Qeq_bool b 0 then scaleInf true (a ?= 0) else Finite (a / b)
  | Finite _, PInfty | Finite _, NInfty => Finite 0
  | PInfty, Finite b => match b ?= 0 with Lt => NInfty | _ => PInfty end
  | NInfty, Finite b => match b ?= 0 with Lt => PInfty | _ => NInfty end
  | _, _ => NaN
  end.

(** [Math.floor], [Math.ceil] *)
Definition floor (x : num) : num :=
  match x with
  | Finite q => Finite (inject_Z (Qfloor q))
  | _ => x
  end.

Definition ceil (x : num) : num :=
  match x with
  | Finite q => Finite (inject_Z (Qceiling q))
  | _ => x
  end.

(** [Math.max(x, y)] *)
Definition max (x y : num) : num :=
  match x, y with
  | NaN, _ | _, NaN => NaN
  | PInfty, _ | _, PInfty => PInfty
  | NInfty, z | z, NInfty => z
  | Finite a, Finite b => if Qle_bool a b then Finite b else Finite a
  end.

(** [x > y] *)
Definition gtb (x y : num) : bool :=
  match x, y with
  | NaN, _ | _, NaN => false
  | Finite a, Finite b => negb (Qle_bool a b)
  | PInfty, PInfty => false
  | PInfty, _ => true
  | _, NInfty => match x with NInfty => false | _ => true end
  | _, _ => false
  end.

(** [x === 0] *)
Definition isZero (x : num) : bool :=
  match x with
  | Finite q => Qeq_bool q 0
  | _ => false
  end.

Definition ofLength (s : string) : num := Finite (inject_Z (Str.len s)).

End JsNum.

Module V1.
Import JsNum.

Definition PAGE_HEIGHT : Q := 1123.
Definition VERTICAL_PADDING : Q := 40.
Definition AVAILABLE_HEIGHT : Q := PAGE_HEIGHT - VERTICAL_PADDING.
Definition PAGE_WIDTH : Q := 794.
Definition HORIZONTAL_PADDING_PX : Q := 104.
Definition USABLE_WIDTH : Q := PAGE_WIDTH - HORIZONTAL_PADDING_PX.

(** [fontSize * lineHeight], the product exact: it is zero only when a
    factor is, where a binary64 product of two tiny factors underflows
    to zero. *)
Definition pxPerLineOf (fontSize lineHeight : Q) : num :=
  mul (Finite fontSize) (Finite lineHeight).

(** [Math.floor(USABLE_WIDTH / avgCharWidth)] with
    [avgCharWidth = fontSize * 0.44] *)
Definition charsPerLineOf (fontSize : Q) : num :=
  let avgCharWidth := mul (Finite fontSize) (Finite (44 # 100)) in
  floor (div (Finite USABLE_WIDTH) avgCharWidth).

(** a line terminator, which [.] of a regular expression does not match
    (of the code units below 256: LF and CR) *)
Definition isLineTerminator (c : ascii) : bool :=
  let n := N_of_ascii c in ((n =? 10) || (n =? 13))%N.

Fixpoint lastIsBar (s : string) : bool :=
  match s with
  | String c EmptyString => Ascii.eqb c "|"%char
  | String _ s' => lastIsBar s'
  | EmptyString => false
  end.

(** [/^\|.*\|$/.test(trimmed)]: a bar, any characters but line
    terminators, a bar at the very end *)
Definition isTableRow (trimmed : string) : bool :=
  match trimmed with
  | String c rest =>
      Ascii.eqb c "|"%char && lastIsBar rest
      && forallb (fun x => negb (isLineTerminator x)) (list_ascii_of_string rest)
  | EmptyString => false
  end.

(** [/^---$/.test(trimmed)] *)
Definition isHr (trimmed : string) : bool := String.eqb trimmed "---".

Section Heights.

Variable pxPerLine : num.
Variable charsPerLine : num.

(** the body of the [for] loop of [calculateBlockHeight]: what one line
    adds to [height] *)
Definition lineHeightOf (line : string) : num :=
  if isHeaderLine line then
    let extraHeight := add (Finite 0) (mul pxPerLine (Finite (1 # 2))) in
    let estimatedLines :=
      ceil (div (ofLength line) (mul charsPerLine (Finite (8 # 10)))) in
    add (mul estimatedLines pxPerLine) extraHeight
  else if isTableRow (Str.trim line) then
    let extraHeight := add (Finite 0) (mul pxPerLine (Finite (8 # 10))) in
    let estimatedLines := Finite 1 in
    add (mul estimatedLines pxPerLine) extraHeight
  else if isHr (Str.trim line) then
    let extraHeight := add (Finite 0) (mul pxPerLine (Finite (1 # 2))) in
    let estimatedLines := Finite 0 in
    add (mul estimatedLines pxPerLine) extraHeight
  else
    let extraHeight := Finite 0 in
    let estimatedLines :=
      max (Finite 1) (ceil (div (ofLength line) charsPerLine)) in
    add (mul estimatedLines pxPerLine) extraHeight.

Definition calculateBlockHeight (blockLines : list string) : num :=
  fold_left (fun height line => add height (lineHeightOf line))
    blockLines (Finite 0).

Record State : Type := mkState {
  pages : list string;
  currentPageContent : string;
  currentHeightUsed : num
}.

(** "Does it fit?": what the loop does with one [blockBuffer].  The
    heights are summed exactly here and rounded in the source; the
    branch taken depends on the sum [currentHeightUsed + blockHeight]
    alone, which is also the value accumulated. *)
Definition placeBlock (blockBuffer : list string) (st : State) : State :=
  let blockHeight := calculateBlockHeight blockBuffer in
  if gtb (add (currentHeightUsed st) blockHeight) (Finite AVAILABLE_HEIGHT) then
    if isZero (currentHeightUsed st) then
      {| pages := pages st ++ [Str.join Str.newline blockBuffer];
         currentPageContent := EmptyString;
         currentHeightUsed := Finite 0 |}
    else
      {| pages := pages st ++ [currentPageContent st];
         currentPageContent :=
           (Str.join Str.newline blockBuffer ++ String Str.newline EmptyString)%string;
         currentHeightUsed := blockHeight |}
  else
    {| pages := pages st;
       currentPageContent :=
         (currentPageContent st
          ++ (Str.join Str.newline blockBuffer ++ String Str.newline EmptyString))%string;
       currentHeightUsed := add (currentHeightUsed st) blockHeight |}.

(** [while (i < lines.length)]: the lines from index [i] on; a table
    start collects the run of table rows into [blockBuffer] (the inner
    [while], here [collect]), every other line is a block of its own. *)
Fixpoint loop (lines : list string) (st : State) : State :=
  match lines with
  | [] => st
  | line :: rest =>
      if isTableRow (Str.trim line) then
        (fix collect (blockBuffer : list string) (ls : list string) {struct ls}
           : State :=
           match ls with
           | l :: ls' =>
               if isTableRow (Str.trim l) then collect (blockBuffer ++ [l]) ls'
               else loop ls (placeBlock blockBuffer st)
           | [] => placeBlock blockBuffer st
           end) [line] rest
      else loop rest (placeBlock [line] st)
  end.

Definition initState : State :=
  {| pages := []; currentPageContent := EmptyString;
     currentHeightUsed := Finite 0 |}.

(** [pages] after the final [if (currentPageContent.trim())] *)
Definition flush (st : State) : list string :=
  match Str.trim (currentPageContent st) with
  | EmptyString => pages st
  | _ => pages st ++ [currentPageContent st]
  end.

End Heights.

Definition paginateText (text : string) (fontSize lineHeight : Q) : list string :=
  match text with
  | EmptyString => [EmptyString]
  | _ =>
      let pxPerLine := pxPerLineOf fontSize lineHeight in
      let charsPerLine := charsPerLineOf fontSize in
      let lines := Str.split Str.newline text in
      let pages := flush (loop pxPerLine charsPerLine lines initState) in
      if nonEmpty pages then pages else [EmptyString]
  end.

End V1.

(** *** Vocabulary for the first version *)

(** [s] holds a character that is not white space: [s.trim()] is truthy *)
Definition hasInk (s : string) : bool :=
  existsb (fun c => negb (Str.isWhite c)) (list_ascii_of_string s).

(** [a] occurs in [p] *)
Definition isInfix (a p : string) : Prop :=
  exists pre suf, p = (pre ++ a ++ suf)%string.

(** every line followed by a line feed *)
Fixpoint linesText (ls : list string) : string :=
  match ls with
  | [] => EmptyString
  | l :: rest => (l ++ String Str.newline (linesText rest))%string
  end.

(** [s] ends with a line feed *)
Fixpoint endsWithNewline (s : string) : bool :=
  match s with
  | String c EmptyString => Ascii.eqb c Str.newline
  | String _ s' => endsWithNewline s'
  | EmptyString => false
  end.

(** a page with its final line feed: the pages sealed by the forced
    branch lack it *)
Definition terminated (p : string) : string :=
  if endsWithNewline p then p else (p ++ String Str.newline EmptyString)%string.

Module V1Blocks.

Definition isRow (line : string) : bool := V1.isTableRow (Str.trim line).

Fixpoint takeRows (ls : list string) : list string :=
  match ls with
  | l :: ls' => if isRow l then l :: takeRows ls' else []
  | [] => []
  end.

Fixpoint dropRows (ls : list string) : list string :=
  match ls with
  | l :: ls' => if isRow l then dropRows ls' else ls
  | [] => []
  end.

(** the successive values of [blockBuffer] in [V1.loop] *)
Fixpoint blocks (lines : list string) : list (list string) :=
  match lines with
  | [] => []
  | line :: rest =>
      if isRow line then
        (fix collect (blockBuffer : list string) (ls : list string) {struct ls}
           : list (list string) :=
           match ls with
           | l :: ls' =>
               if isRow l then collect (blockBuffer ++ [l]) ls'
               else blockBuffer :: blocks ls
           | [] => [blockBuffer]
           end) [line] rest
      else [line] :: blocks rest
  end.

(** a height that is positive, infinite or undefined: never zero *)
Definition offZero (x : JsNum.num) : Prop :=
  match x with
  | JsNum.Finite h => 0 < h
  | JsNum.PInfty | JsNum.NaN => True
  | JsNum.NInfty => False
  end.

(** a finite, non-negative integer value of [charsPerLine] *)
Definition finiteCpl (x : JsNum.num) : Prop :=
  exists c : Z, (0 <= c)%Z /\ x = JsNum.Finite (inject_Z c).

End V1Blocks.

Module V1Inv.

(** a height that is not negative: finite and at least zero, infinite,
    or undefined *)
Definition nonNeg (x : JsNum.num) : Prop :=
  match x with
  | JsNum.Finite h => 0 <= h
  | JsNum.PInfty | JsNum.NaN => True
  | JsNum.NInfty => False
  end.

(** at least one, infinite, or undefined *)
Definition atLeastOne (x : JsNum.num) : Prop :=
  match x with
  | JsNum.Finite h => 1 <= h
  | JsNum.PInfty | JsNum.NaN => True
  | JsNum.NInfty => False
  end.

(** what [V1.loop] builds as [blockBuffer]: one line, or a run of table
    rows; no line holds a line feed *)
Definition blockOk (B : list string) : Prop :=
  B <> [] /\ Forall oneLine B
  /\ (List.length B = 1%nat \/ Forall (fun l => V1Blocks.isRow l = true) B).

(** The state of [V1.loop] for positive parameters: the page is empty
    and nothing is accumulated, or the page holds whole lines and the
    accumulated height is off zero. *)
Definition pageInv (st : V1.State) : Prop :=
  (V1.currentPageContent st = EmptyString
   /\ V1.currentHeightUsed st = JsNum.Finite 0)
  \/ (endsWithNewline (V1.currentPageContent st) = true
      /\ V1Blocks.offZero (V1.currentHeightUsed st)).

(** all pages in one string *)
Definition allText (ps : list string) : string :=
  String.concat EmptyString (map terminated ps).

End V1Inv.

Module V1Run.

(** the state of [V1.loop] after its first [k] blocks *)
Definition stateAfter (pxPerLine charsPerLine : JsNum.num) (lines : list string)
    (k : nat) : V1.State :=
  fold_left (fun s b => V1.placeBlock pxPerLine charsPerLine b s)
    (firstn k (V1Blocks.blocks lines)) V1.initState.

(** block [B] stands whole on a sealed page or on the current one *)
Definition placed (B : list string) (st : V1.State) : Prop :=
  (exists pg, In pg (V1.pages st) /\ isInfix (Str.join Str.newline B) pg)
  \/ isInfix (Str.join Str.newline B) (V1.currentPageContent st).

End V1Run.

Module V1Trace.
Import JsNum.

(** The run of the first version with the height of every page kept
    beside its content: the value of [currentHeightUsed] when the page
    is pushed - for a page of the forced branch, where nothing is
    accumulated, the sum [currentHeightUsed + blockHeight] that was just
    tested.  Dropping the heights gives the run itself ([V1Facts.trace_erase]). *)
Record TState : Type := mkTState {
  tpages : list (string * num);
  tcontent : string;
  tused : num
}.

Section Run.

Variable pxPerLine : num.
Variable charsPerLine : num.

Definition tPlaceBlock (blockBuffer : list string) (st : TState) : TState :=
  let blockHeight := V1.calculateBlockHeight pxPerLine charsPerLine blockBuffer in
  if gtb (add (tused st) blockHeight) (Finite V1.AVAILABLE_HEIGHT) then
    if isZero (tused st) then
      {| tpages := tpages st
                   ++ [(Str.join Str.newline blockBuffer,
                        add (tused st) blockHeight)];
         tcontent := EmptyString;
         tused := Finite 0 |}
    else
      {| tpages := tpages st ++ [(tcontent st, tused st)];
         tcontent :=
           (Str.join Str.newline blockBuffer ++ String Str.newline EmptyString)%string;
         tused := blockHeight |}
  else
    {| tpages := tpages st;
       tcontent :=
         (tcontent st
          ++ (Str.join Str.newline blockBuffer ++ String Str.newline EmptyString))%string;
       tused := add (tused st) blockHeight |}.

Definition tInit : TState :=
  {| tpages := []; tcontent := EmptyString; tused := Finite 0 |}.

Definition tFlush (st : TState) : list (string * num) :=
  match Str.trim (tcontent st) with
  | EmptyString => tpages st
  | _ => tpages st ++ [(tcontent st, tused st)]
  end.

End Run.

Definition paginateTrace (text : string) (fontSize lineHeight : Q)
  : list (string * num) :=
  match text with
  | EmptyString => [(EmptyString, Finite 0)]
  | _ =>
      let pxPerLine := V1.pxPerLineOf fontSize lineHeight in
      let charsPerLine := V1.charsPerLineOf fontSize in
      let lines := Str.split Str.newline text in
      let pages :=
        tFlush (fold_left (fun s b => tPlaceBlock pxPerLine charsPerLine b s)
                  (V1Blocks.blocks lines) tInit) in
      if nonEmpty pages then pages else [(EmptyString, Finite 0)]
  end.

(** the state without the heights of the pages *)
Definition erase (st : TState) : V1.State :=
  {| V1.pages := map fst (tpages st);
     V1.currentPageContent := tcontent st;
     V1.currentHeightUsed := tused st |}.

(** the page is one block of [all], with or without its final line feed *)
Definition singleBlock (all : list (list string)) (pg : string) : Prop :=
  exists B,
    In B all
    /\ (pg = Str.join Str.newline B
        \/ pg = (Str.join Str.newline B ++ String Str.newline EmptyString)%string).

(** Budget respect for a page with its height: the height is not greater
    than [AVAILABLE_HEIGHT] - the very test of the loop - or the page is
    a single block. *)
Definition withinBudget (all : list (list string)) (ph : string * num) : Prop :=
  gtb (snd ph) (Finite V1.AVAILABLE_HEIGHT) = false \/ singleBlock all (fst ph).

(** the invariant of the traced loop *)
Definition budgetInv (all : list (list string)) (st : TState) : Prop :=
  Forall (withinBudget all) (tpages st)
  /\ withinBudget all (tcontent st, tused st).

End V1Trace.

(** ** Binary64

    The numbers of JavaScript as they are: IEEE 754 binary64, the
    primitive [float] of Rocq, whose operations round to nearest, ties
    to even.  Used where a property depends on how a product, a quotient
    or a running sum rounds. *)

Module F64.
Import PrimFloat FloatOps SpecFloat.
#[local] Set Warnings "-inexact-float".

(** An integer as a number: exact below 2^53 in absolute value. *)
Definition ofZ (z : Z) : float :=
  if (z <? 0)%Z then PrimFloat.opp (of_uint63 (Uint63.of_Z (- z)))
  else of_uint63 (Uint63.of_Z z).

(** [s.length] and [arr.length] *)
Definition lengthOf (s : string) : float := ofZ (Str.len s).
Definition countOf {A : Type} (l : list A) : float :=
  ofZ (Z.of_nat (List.length l)).

(** [x > y], [x <= y]: false when an operand is [NaN] *)
Definition gtb (x y : float) : bool := PrimFloat.ltb y x.
Definition leb (x y : float) : bool := PrimFloat.leb x y.

(** the sign bit *)
Definition isNegative (x : float) : bool :=
  match Prim2SF x with
  | S754_zero s | S754_infinity s | S754_finite s _ _ => s
  | S754_nan => false
  end.

(** [Math.max(x, y)], [Math.min(x, y)] *)
Definition max (x y : float) : float :=
  if is_nan x || is_nan y then nan
  else if PrimFloat.ltb x y then y
  else if PrimFloat.ltb y x then x
  else if isNegative x then y else x.

Definition min (x y : float) : float :=
  if is_nan x || is_nan y then nan
  else if PrimFloat.ltb x y then x
  else if PrimFloat.ltb y x then y
  else if isNegative x then x else y.

(** [Math.floor(x)]: a value [m * 2^e] with [e >= 0] is an integer
    already; below that the quotient of the mantissa, rounded down, is
    less than 2^53. *)
Definition floor (x : float) : float :=
  match Prim2SF x with
  | S754_finite s m e =>
      if (0 <=? e)%Z then x
      else
        let z := ((if s then Z.neg m else Z.pos m) / 2 ^ (- e))%Z in
        if (z =? 0)%Z then zero else ofZ z
  | _ => x
  end.

(** the exact value of a finite number *)
Definition toQ (x : float) : Q :=
  match Prim2SF x with
  | S754_finite s m e =>
      let v := if s then Z.neg m else Z.pos m in
      if (0 <=? e)%Z then inject_Z (v * 2 ^ e)
      else Qmake v (Z.to_pos (2 ^ (- e)))
  | _ => 0
  end.

End F64.

(** *** The second version of [paginateText] over binary64
    ([src/utils/textUtils.ts], lines 130-323)

    The function of the first part again, line by line, with every
    number a [float]: [charsPerLine] is the rounded quotient, floored,
    and [currentHeightUsed] is the rounded running sum. *)

Module F64V2.
Import PrimFloat F64.
#[local] Set Warnings "-inexact-float".
#[local] Open Scope float_scope.

Definition PAGE_HEIGHT : float := 1123.
Definition VERTICAL_PADDING : float := 96.
Definition AVAILABLE_HEIGHT : float := PAGE_HEIGHT - VERTICAL_PADDING.
Definition PAGE_WIDTH : float := 794.
Definition HORIZONTAL_PADDING_PX : float := 92.
Definition USABLE_WIDTH : float := PAGE_WIDTH - HORIZONTAL_PADDING_PX.

Definition pxPerLineOf (fontSize lineHeight : float) : float :=
  fontSize * lineHeight.

Definition avgCharWidthOf (fontSize : float) : float := fontSize * 0.45.

Definition charsPerLineOf (fontSize : float) : float :=
  floor (USABLE_WIDTH / avgCharWidthOf fontSize).

Fixpoint wrapLoop (max : float) (words : list string)
    (wrapped : list string) (current : string) : list string :=
  match words with
  | [] => wrapped ++ [current]
  | word :: rest =>
      if leb (lengthOf current + 1 + lengthOf word) max
      then wrapLoop max rest wrapped (current ++ String Str.space word)%string
      else wrapLoop max rest (wrapped ++ [current]) word
  end.

Definition wrapText (str : string) (max : float) : list string :=
  if leb (lengthOf str) max then [str]
  else
    let words := Str.split Str.space str in
    let current := hd EmptyString words in
    wrapLoop max (tl words) [] current.

Record State : Type := mkState {
  pages : list string;
  currentPageLines : list string;
  currentHeightUsed : float
}.

Definition pushPage (st : State) : State :=
  {| pages :=
       if nonEmpty (currentPageLines st)
       then pages st ++ [Str.join Str.newline (currentPageLines st)]
       else pages st ++ [EmptyString];
     currentPageLines := [];
     currentHeightUsed := 0 |}.

Section Assembly.

Variable pxPerLine : float.
Variable charsPerLine : float.

Definition getLineHeight (isHeader isTable isHr : bool) : float :=
  if isTable then pxPerLine * 1
  else if isHr then pxPerLine * 0.5
  else if isHeader then pxPerLine * 1.5
  else pxPerLine.

Definition addLines (ls : list string) (h : float) (st : State) : State :=
  {| pages := pages st;
     currentPageLines := currentPageLines st ++ ls;
     currentHeightUsed := currentHeightUsed st + h |}.

Fixpoint splitRows (headers : list string) (r : nat) (rows : list string)
    (st : State) : State :=
  match rows with
  | [] => st
  | row :: rest =>
      let isHeaderRow := (r <? 2)%nat in
      let st1 :=
        if gtb (currentHeightUsed st + pxPerLine) AVAILABLE_HEIGHT then
          let st' := pushPage st in
          if negb isHeaderRow && (List.length headers =? 2)%nat
          then addLines headers (countOf headers * pxPerLine) st'
          else st'
        else st in
      splitRows headers (S r) rest (addLines [row] pxPerLine st1)
  end.

Fixpoint placeVisual (visualLines : list string) (st : State) : State :=
  match visualLines with
  | [] => st
  | vLine :: rest =>
      let height := pxPerLine in
      let st1 :=
        if gtb (currentHeightUsed st + height) AVAILABLE_HEIGHT
        then pushPage st else st in
      placeVisual rest (addLines [vLine] height st1)
  end.

Definition processBlock (st : State) (block : Block) : State :=
  match type block with
  | table =>
      let headers := firstn 2 (content block) in
      let tableHeight := countOf (content block) * getLineHeight false true false in
      if leb (currentHeightUsed st + tableHeight) AVAILABLE_HEIGHT then
        let st1 :=
          if nonEmpty (currentPageLines st)
          then addLines [EmptyString] pxPerLine st else st in
        addLines (content block) tableHeight st1
      else
        let st1 :=
          if nonEmpty (currentPageLines st) && gtb (currentHeightUsed st) 0
          then addLines [EmptyString] pxPerLine st else st in
        splitRows headers 0 (content block) st1
  | hr =>
      let h := getLineHeight false false true in
      let st1 :=
        if gtb (currentHeightUsed st + h) AVAILABLE_HEIGHT
        then pushPage st else st in
      addLines [hd EmptyString (content block)] h st1
  | text =>
      let line := hd EmptyString (content block) in
      let isHeader := isHeaderLine line in
      if isHeader then
        let height := getLineHeight true false false in
        let st1 :=
          if gtb (currentHeightUsed st + height) AVAILABLE_HEIGHT
          then pushPage st else st in
        addLines [line] height st1
      else
        let visualLines := wrapText line charsPerLine in
        placeVisual visualLines st
  end.

Definition initState : State :=
  {| pages := []; currentPageLines := []; currentHeightUsed := 0 |}.

Definition assemble (blocks : list Block) : list string :=
  let st := fold_left processBlock blocks initState in
  let pages' :=
    if nonEmpty (currentPageLines st)
    then pages st ++ [Str.join Str.newline (currentPageLines st)]
    else pages st in
  if nonEmpty pages' then pages' else [EmptyString].

End Assembly.

Definition paginateText (text : string) (fontSize lineHeight : float)
  : list string :=
  match text with
  | EmptyString => [EmptyString]
  | _ =>
      let pxPerLine := pxPerLineOf fontSize lineHeight in
      let charsPerLine := charsPerLineOf fontSize in
      let rawLines := Str.split Str.newline text in
      let blocks := segment rawLines in
      assemble pxPerLine charsPerLine blocks
  end.

(** *** Vocabulary *)

(** [currentHeightUsed] after [n] lines of height [pxPerLine] on a page:
    [0 + pxPerLine + ... + pxPerLine], every sum rounded. *)
Fixpoint heightOfLines (n : nat) (pxPerLine : float) : float :=
  match n with
  | O => 0
  | S m => heightOfLines m pxPerLine + pxPerLine
  end.

(** A line that [wrapText] leaves whole: within [max], or a single word. *)
Definition fitsOrSingle (max : float) (v : string) : Prop :=
  leb (lengthOf v) max = true \/ Str.mem Str.space v = false.

End F64V2.

(** ** The application around the paginator

    [src/utils/fileUtils.ts] (file import), the Gemini service and the
    handlers of [App] and [ControlPanel].  The browser, the libraries
    loaded by script tags and the remote service are the environment:
    each is a field of a record, and every function below takes the
    environment it reads as an argument. *)

Module Js.

(** A thrown value, known by its [message] property if it has one. *)
Definition Error : Type := option string.

(** An awaited promise, or a call that may throw. *)
Inductive Result (A : Type) : Type :=
| Ok (a : A)
| Throw (e : Error).

Arguments Ok {A} a.
Arguments Throw {A} e.

Definition bind {A B : Type} (r : Result A) (k : A -> Result B) : Result B :=
  match r with
  | Ok a => k a
  | Throw e => Throw e
  end.

(** [x || d] for a string that may be undefined: the empty string is
    falsy as well. *)
Definition orElse (x : option string) (d : string) : string :=
  match x with
  | Some (String c s) => String c s
  | _ => d
  end.

(** [s.toLowerCase()] and [s.toUpperCase()] on the letters A-Z and a-z; the
    lower case also on the capital letters of Latin-1 (0xC0-0xDE but
    0xD7).  [toUpperCase] is only ever applied to ["docx"] and ["pdf"]
    (see [parseFile]). *)
Definition lowerChar (c : ascii) : ascii :=
  let n := N_of_ascii c in
  if (((65 <=? n) && (n <=? 90))
      || ((192 <=? n) && (n <=? 222) && negb (n =? 215)))%N
  then ascii_of_N (n + 32) else c.

Definition upperChar (c : ascii) : ascii :=
  let n := N_of_ascii c in
  if ((97 <=? n) && (n <=? 122))%N then ascii_of_N (n - 32) else c.

Fixpoint mapChars (f : ascii -> ascii) (s : string) : string :=
  match s with
  | String c s' => String (f c) (mapChars f s')
  | EmptyString => EmptyString
  end.

Definition toLowerCase : string -> string := mapChars lowerChar.
Definition toUpperCase : string -> string := mapChars upperChar.

(** [parseInt(s)] without a radix: leading white space, a sign, an
    optional [0x] which switches to base sixteen, then the longest run of
    digits.  [None] is NaN.  The value is exact (no rounding of integers
    beyond 2^53), and [-0] is [0]. *)
Definition digitOf (c : ascii) : option Z :=
  let n := Z.of_N (N_of_ascii c) in
  if ((48 <=? n) && (n <=? 57))%Z then Some (n - 48)%Z
  else if ((97 <=? n) && (n <=? 122))%Z then Some (n - 87)%Z
  else if ((65 <=? n) && (n <=? 90))%Z then Some (n - 55)%Z
  else None.

Fixpoint digits (R : Z) (s : string) (acc : option Z) : option Z :=
  match s with
  | String c s' =>
      match digitOf c with
      | Some d =>
          if (d <? R)%Z
          then digits R s'
                 (Some (match acc with Some a => a * R + d | None => d end)%Z)
          else acc
      | None => acc
      end
  | EmptyString => acc
  end.

Definition parseInt (s : string) : option Z :=
  let S0 := Str.trimStart s in
  let '(sign, S1) :=
    match S0 with
    | String "-"%char r => ((-1)%Z, r)
    | String "+"%char r => (1%Z, r)
    | _ => (1%Z, S0)
    end in
  let '(R, S2) :=
    match S1 with
    | String "0"%char (String x r) =>
        if (Ascii.eqb x "x" || Ascii.eqb x "X")%char
        then (16%Z, r) else (10%Z, S1)
    | _ => (10%Z, S1)
    end in
  option_map (Z.mul sign) (digits R S2 None).

(** [n || 1] for a number: NaN and zero are falsy. *)
Definition orOne (n : option Z) : Z :=
  match n with
  | Some 0%Z => 1%Z
  | Some z => z
  | None => 1%Z
  end.

(** [Math.max] and [Math.min] on exact rationals *)
Definition qmax (a b : Q) : Q := if Qle_bool a b then b else a.
Definition qmin (a b : Q) : Q := if Qle_bool a b then a else b.

(** The literal of two line feeds *)
Definition twoNewlines : string :=
  String Str.newline (String Str.newline EmptyString).

(** [s.substring(0, n)] and [s.substring(n)]; both clamp [n] to the
    length. *)
Definition substringTo (n : nat) (s : string) : string :=
  String.substring 0 n s.
Definition substringFrom (n : nat) (s : string) : string :=
  String.substring n (String.length s) s.

End Js.

(** *** [src/utils/fileUtils.ts] *)

Module FileUtils.
Import Js.

(** What the scripts of [index.html] may have put on [window]:
    [mammoth.convertToHtml] (its [value]), the Turndown constructor
    followed by [turndown] (the flag tells whether the GFM plug-in was
    installed by [use]), and the GFM plug-in. *)
Record Window : Type := {
  mammoth : option (string -> Result string);
  TurndownService : option (bool -> string -> Result string);
  turndownPluginGfm : bool
}.

(** A file of the file input: its name, its bytes as [arrayBuffer()]
    gives them, and its text as a [FileReader] reads it. *)
Record File : Type := {
  name : string;
  arrayBuffer : Result string;
  readAsText : Result string
}.

(** PDF.js: [getDocument(...).promise], then for each page
    [getPage(i)] and [getTextContent()], which give the [str] of the
    items of the page. *)
Definition Pdf : Type := string -> Result (list (Result (list string))).

Definition htmlToMarkdown (w : Window) (html : string) : Result string :=
  match TurndownService w with
  | None => Ok html
  | Some turndown => turndown (turndownPluginGfm w) html
  end.

Definition parseDocx (w : Window) (file : File) : Result string :=
  bind (arrayBuffer file) (fun buffer =>
    match mammoth w with
    | None => Throw (Some "Mammoth library not loaded"%string)
    | Some convertToHtml => bind (convertToHtml buffer) (htmlToMarkdown w)
    end).

Fixpoint pdfPages (pages : list (Result (list string))) (fullText : string)
  : Result string :=
  match pages with
  | [] => Ok fullText
  | Throw e :: _ => Throw e
  | Ok items :: rest =>
      pdfPages rest
        (fullText ++ (Str.join Str.space items ++ twoNewlines))%string
  end.

Definition parsePdf (pdf : Pdf) (file : File) : Result string :=
  bind (arrayBuffer file) (fun buffer =>
    bind (pdf buffer) (fun pdfDocument => pdfPages pdfDocument EmptyString)).

(** [file.name.split('.').pop()?.toLowerCase()]: [split] never gives an
    empty list, so [pop()] is never undefined. *)
Definition extensionOf (fileName : string) : string :=
  toLowerCase (List.last (Str.split "."%char fileName) EmptyString).

(** The [catch] of [parseFile]: it sees what the awaited parsers throw. *)
Definition failedToParse {A : Type} (extension : string) (r : Result A)
  : Result A :=
  match r with
  | Ok a => Ok a
  | Throw _ =>
      Throw (Some ("Failed to parse " ++ toUpperCase extension ++ " file.")%string)
  end.

(** The text branch returns the promise of the reader without awaiting
    it, so a reader error passes the [catch] by. *)
Definition parseFile (w : Window) (pdf : Pdf) (file : File) : Result string :=
  let extension := extensionOf (name file) in
  if String.eqb extension "docx" then
    failedToParse extension (parseDocx w file)
  else if String.eqb extension "pdf" then
    failedToParse extension (parsePdf pdf file)
  else
    bind (readAsText file) (fun result => Ok (orElse (Some result) EmptyString)).

End FileUtils.

(** *** The Gemini service *)

Module Gemini.
Import Js.

(** [process.env.API_KEY], and [ai.models.generateContent] of a client
    made with a key: given the model and the contents it answers with the
    [text] of the response, which may be undefined. *)
Record Env : Type := {
  API_KEY : option string;
  generateContent : string -> string -> string -> Result (option string)
}.

Definition getClient (env : Env) : Result string :=
  match API_KEY env with
  | Some (String c k) => Ok (String c k)
  | _ => Throw (Some "API Key not found in environment variables"%string)
  end.

Definition quote : string := String (ascii_of_N 34) EmptyString.

Definition prompt (text : string) : string :=
  Str.join Str.newline
    [ EmptyString;
      "      You are an expert student note-taker. ";
      "      Take the following text and convert it into clean, organized, handwritten-style study notes.";
      "      ";
      "      Rules:";
      "      1. Use **bold** for key terms.";
      "      2. Use clear structure with Headers (#, ##).";
      "      3. Use lists (bullet points or numbered) for steps or groups.";
      "      4. Use Markdown tables if comparing data.";
      "      5. Keep sentences concise.";
      ("      6. Add a " ++ quote ++ "Key Takeaways" ++ quote
         ++ " section at the end.");
      "      ";
      "      Input text:";
      ("      " ++ text);
      "    " ]%string.

Definition summarizeToNotes (env : Env) (text : string) : Result string :=
  match bind (getClient env) (fun apiKey =>
           generateContent env apiKey "gemini-2.5-flash" (prompt text)) with
  | Ok response => Ok (orElse response "Could not generate notes.")
  | Throw error => Throw (Some (orElse error "Failed to generate notes"))
  end.

End Gemini.

(** *** The handlers of [App] and [ControlPanel] *)

Module App.
Import Js.

(** [handleGenerate]: the text and the error message before and after. *)
Definition handleGenerate (env : Gemini.Env) (text : string)
  (error : option string) : string * option string :=
  match Str.trim text with
  | EmptyString => (text, error)
  | _ =>
      match Gemini.summarizeToNotes env text with
      | Ok generatedNotes => (generatedNotes, None)
      | Throw err =>
          (text,
           Some (orElse err
                   "Failed to generate notes. Please check your API key."))
      end
  end.

(** [handlePaste]: the new text, or [None] when the handler leaves the
    paste to the browser (no [text/html] on the clipboard). *)
Definition insertText (md : string) : string :=
  (twoNewlines ++ md ++ twoNewlines)%string.

Definition handlePaste (w : FileUtils.Window) (text html plainText : string)
  (selectionStart selectionEnd : nat) : option string :=
  match html with
  | EmptyString => None
  | _ =>
      match FileUtils.htmlToMarkdown w html with
      | Ok md =>
          Some (substringTo selectionStart text ++ insertText md
                ++ substringFrom selectionEnd text)%string
      | Throw _ =>
          Some (substringTo selectionStart text ++ plainText
                ++ substringFrom selectionEnd text)%string
      end
  end.

(** [updateScale]: the scale after the call, from the [clientWidth] of
    the preview container ([None] when the ref is not set) and the scale
    before; [newScale] is the constant of that name. *)
Import PrimFloat.

Definition PAGE_WIDTH : PrimFloat.float := F64.ofZ 794.
Definition PADDING : PrimFloat.float := F64.ofZ 48.

(** the literal [0.3]: the binary64 number nearest to three tenths,
    5404319552844595 / 2^54 *)
#[local] Set Warnings "-inexact-float".
Definition minScale : PrimFloat.float := 0.3%float.

Definition newScale (containerWidth : PrimFloat.float) : PrimFloat.float :=
  F64.max minScale
    (F64.min PrimFloat.one
       (PrimFloat.div (PrimFloat.sub containerWidth PADDING) PAGE_WIDTH)).

Definition updateScale (clientWidth : option Z) (scale : PrimFloat.float)
  : PrimFloat.float :=
  match clientWidth with
  | None => scale
  | Some w =>
      let containerWidth := F64.ofZ w in
      if PrimFloat.ltb containerWidth (F64.ofZ 100) then scale
      else newScale containerWidth
  end.

(** What [updateScale] does at the width [w]: nothing below 100, the
    least scale up to 286, the full scale from 842 on, and between them
    a scale strictly between the two with which the page and its padding
    overhang the container by no more than 10^-12 pixels. *)
Definition scaleAt (w : Z) : bool :=
  let containerWidth := F64.ofZ w in
  if (w <? 100)%Z then PrimFloat.ltb containerWidth (F64.ofZ 100)
  else
    negb (PrimFloat.ltb containerWidth (F64.ofZ 100))
    && (let s := newScale containerWidth in
        if (w <=? 286)%Z then PrimFloat.eqb s minScale
        else if (w <=? 841)%Z then
          PrimFloat.ltb minScale s && PrimFloat.ltb s PrimFloat.one
          && Qle_bool (F64.toQ s * 794 + 48)
               (inject_Z w + (1 # 1000000000000))
        else PrimFloat.eqb s PrimFloat.one).

(** [scaleAt] at the [n] widths from [w] on *)
Fixpoint scaleAtRange (n : nat) (w : Z) : bool :=
  match n with
  | O => true
  | S m => scaleAt w && scaleAtRange m (w + 1)
  end.

(** The page selector of [ControlPanel]: the value stored for the text
    typed into the number input. *)
Definition selectPage (value : string) (totalPages : Z) : Z :=
  Z.min (Z.max 1 (orOne (parseInt value))) totalPages.

(** [handleFileChange]: the text of the editor after the import, and
    whether the alert was shown. *)
Definition handleFileChange (w : FileUtils.Window) (pdf : FileUtils.Pdf)
  (file : option FileUtils.File) (text : string) : string * bool :=
  match file with
  | None => (text, false)
  | Some f =>
      match FileUtils.parseFile w pdf f with
      | Ok (String c content) => (String c content, false)
      | Ok EmptyString => (text, false)
      | Throw _ => (text, true)
      end
  end.

End App.

(** * Properties *)

(** ** Erasing the provenance *)

Definition eraseState (st : TState) : State :=
  {| pages := map render (tpages st);
     currentPageLines := map snd (tcur st);
     currentHeightUsed := tused st |}.

Lemma nonEmpty_map {A B : Type} (f : A -> B) (l : list A) :
  nonEmpty (map f l) = nonEmpty l.
Proof. destruct l; reflexivity. Qed.

Lemma map_snd_tagRows b r rows : map snd (tagRows b r rows) = rows.
Proof.
  revert r; induction rows as [|row rest IH]; intros r; simpl;
    [reflexivity | now rewrite IH].
Qed.

Lemma map_snd_tagHdrs b k hs : map snd (tagHdrs b k hs) = hs.
Proof.
  revert k; induction hs as [|h rest IH]; intros k; simpl;
    [reflexivity | now rewrite IH].
Qed.

Lemma erase_pushPage st : eraseState (tPushPage st) = pushPage (eraseState st).
Proof.
  unfold eraseState, tPushPage, pushPage; simpl.
  rewrite map_app; simpl. unfold render at 2; simpl.
  destruct (tcur st); reflexivity.
Qed.

Lemma erase_addLines ls h st :
  eraseState (tAddLines ls h st) = addLines (map snd ls) h (eraseState st).
Proof. unfold eraseState, tAddLines, addLines; simpl. now rewrite map_app. Qed.

Section Erasure.

Variable pxPerLine : Q.
Variable charsPerLine : ExtZ.

Lemma erase_splitRows b headers rows : forall r st,
  eraseState (tSplitRows pxPerLine b headers r rows st)
  = splitRows pxPerLine headers r rows (eraseState st).
Proof.
  induction rows as [|row rest IH]; intros r st; simpl; [reflexivity|].
  rewrite IH, erase_addLines. simpl map. f_equal. f_equal.
  change (currentHeightUsed (eraseState st)) with (tused st).
  destruct (Qgtb (tused st + pxPerLine) AVAILABLE_HEIGHT); [|reflexivity].
  destruct (negb (r <? 2)%nat && (List.length headers =? 2)%nat).
  - now rewrite erase_addLines, map_snd_tagHdrs, erase_pushPage.
  - apply erase_pushPage.
Qed.

Lemma erase_placeVisual vls : forall st,
  eraseState (tPlaceVisual pxPerLine vls st)
  = placeVisual pxPerLine vls (eraseState st).
Proof.
  induction vls as [|v rest IH]; intros st; simpl; [reflexivity|].
  rewrite IH, erase_addLines. simpl map. f_equal. f_equal.
  change (currentHeightUsed (eraseState st)) with (tused st).
  destruct (Qgtb (tused st + pxPerLine) AVAILABLE_HEIGHT);
    [apply erase_pushPage | reflexivity].
Qed.

Lemma erase_processBlock b st block :
  eraseState (tProcessBlock pxPerLine charsPerLine b st block)
  = processBlock pxPerLine charsPerLine (eraseState st) block.
Proof.
  unfold tProcessBlock, processBlock.
  change (currentHeightUsed (eraseState st)) with (tused st).
  change (currentPageLines (eraseState st)) with (map snd (tcur st)).
  rewrite nonEmpty_map.
  destruct (type block).
  - destruct (isHeaderLine (hd EmptyString (content block))).
    + rewrite erase_addLines. simpl map. f_equal.
      destruct (Qgtb _ _); [apply erase_pushPage | reflexivity].
    + apply erase_placeVisual.
  - destruct (Qle_bool _ _).
    + rewrite erase_addLines, map_snd_tagRows. f_equal.
      destruct (nonEmpty (tcur st)); [apply erase_addLines | reflexivity].
    + rewrite erase_splitRows. f_equal.
      destruct (nonEmpty (tcur st) && Qgtb (tused st) 0);
        [apply erase_addLines | reflexivity].
  - rewrite erase_addLines. simpl map. f_equal.
    destruct (Qgtb _ _); [apply erase_pushPage | reflexivity].
Qed.

Lemma erase_run blocks : forall b st,
  eraseState (tRun pxPerLine charsPerLine b blocks st)
  = fold_left (processBlock pxPerLine charsPerLine) blocks (eraseState st).
Proof.
  induction blocks as [|block rest IH]; intros b st; simpl; [reflexivity|].
  now rewrite IH, erase_processBlock.
Qed.

Lemma erase_assemble blocks :
  map render (tAssemble pxPerLine charsPerLine blocks)
  = assemble pxPerLine charsPerLine blocks.
Proof.
  unfold tAssemble, assemble, tFinish.
  change initState with (eraseState tInitState).
  rewrite <- (erase_run blocks 0%nat).
  set (st := tRun pxPerLine charsPerLine 0 blocks tInitState).
  unfold eraseState; cbn [currentPageLines pages].
  destruct (tcur st) as [|l0 ls]; cbn [map nonEmpty].
  - destruct (tpages st); reflexivity.
  - destruct (tpages st) as [|p0 ps]; cbn [nonEmpty app map]; [reflexivity|].
    now rewrite map_app.
Qed.

End Erasure.

(** Dropping the annotations of [paginateTrace] gives [paginateText]. *)
Lemma paginateTrace_erase text fontSize lineHeight :
  map render (paginateTrace text fontSize lineHeight)
  = paginateText text fontSize lineHeight.
Proof.
  destruct text as [|c s]; [reflexivity|].
  unfold paginateTrace, paginateText. apply erase_assemble.
Qed.

(** ** Strings: [split] and [join] *)

Module StrFacts.
Import Str.

Lemma split_nonempty sep s : split sep s <> [].
Proof.
  destruct s as [|c s]; simpl; [discriminate|].
  destruct (Ascii.eqb c sep); [discriminate|].
  destruct (split sep s); discriminate.
Qed.

(** No piece of a split holds the separator. *)
Lemma split_no_sep sep s : Forall (fun w => mem sep w = false) (split sep s).
Proof.
  induction s as [|c s IH]; simpl.
  - constructor; [reflexivity | constructor].
  - destruct (Ascii.eqb c sep) eqn:E.
    + constructor; [reflexivity | exact IH].
    + pose proof (split_nonempty sep s) as N.
      destruct (split sep s) as [|w ws]; [contradiction|].
      inversion IH; subst. constructor; [|assumption].
      simpl; rewrite E; assumption.
Qed.

Lemma split_no_sep_id sep s : mem sep s = false -> split sep s = [s].
Proof.
  induction s as [|c s IH]; simpl; [reflexivity|].
  intros H. apply orb_false_iff in H as [E M].
  rewrite E, (IH M). reflexivity.
Qed.

Lemma split_app sep a b :
  split sep (a ++ String sep b)%string = split sep a ++ split sep b.
Proof.
  induction a as [|c a IH]; simpl.
  - now rewrite Ascii.eqb_refl.
  - destruct (Ascii.eqb c sep); [now rewrite IH|].
    rewrite IH. pose proof (split_nonempty sep a) as N.
    destruct (split sep a); [contradiction | reflexivity].
Qed.

Lemma join_cons sep x y rest :
  join sep (x :: y :: rest) = (x ++ String sep (join sep (y :: rest)))%string.
Proof. reflexivity. Qed.

Lemma join_split sep s : join sep (split sep s) = s.
Proof.
  induction s as [|c s IH]; simpl; [reflexivity|].
  pose proof (split_nonempty sep s) as N.
  destruct (Ascii.eqb c sep) eqn:E.
  - apply Ascii.eqb_eq in E; subst c.
    destruct (split sep s) as [|w ws]; [contradiction|].
    rewrite join_cons, IH. reflexivity.
  - destruct (split sep s) as [|w ws]; [contradiction|].
    destruct ws as [|w' ws].
    + simpl in *. now rewrite IH.
    + rewrite join_cons in IH. rewrite join_cons. cbn [append]. now rewrite IH.
Qed.

Lemma mem_app c a b : mem c (a ++ b)%string = mem c a || mem c b.
Proof.
  induction a as [|c' a IH]; simpl; [reflexivity|].
  now rewrite IH, orb_assoc.
Qed.

(** [split] undoes [join] on a non-empty list of separator-free lines. *)
Lemma split_join sep ls :
  ls <> [] -> Forall (fun w => mem sep w = false) ls ->
  split sep (join sep ls) = ls.
Proof.
  induction ls as [|x rest IH]; [congruence|]. intros _ F.
  inversion F as [|? ? Hx Hrest]; subst.
  destruct rest as [|y rest].
  - simpl. now apply split_no_sep_id.
  - rewrite join_cons, split_app, (split_no_sep_id _ _ Hx), IH;
      [reflexivity | discriminate | assumption].
Qed.

Lemma len_nonneg s : (0 <= len s)%Z.
Proof. unfold len; lia. Qed.

Lemma len_app a b : len (a ++ b)%string = (len a + len b)%Z.
Proof.
  unfold len. induction a as [|c a IH]; cbn [append String.length]; lia.
Qed.

Lemma len_cons c s : len (String c s) = (1 + len s)%Z.
Proof. unfold len; simpl String.length. lia. Qed.

(** A piece of a split is no longer than the whole. *)
Lemma split_len sep s w : In w (split sep s) -> (len w <= len s)%Z.
Proof.
  revert w; induction s as [|c s IH]; intros w; simpl.
  - intros [<-|[]]. lia.
  - pose proof (split_nonempty sep s) as N.
    destruct (Ascii.eqb c sep).
    + intros [<-|H]; [apply len_nonneg|].
      specialize (IH _ H). rewrite len_cons. lia.
    + destruct (split sep s) as [|w0 ws]; [contradiction|].
      intros [<-|H].
      * rewrite !len_cons. specialize (IH w0 (or_introl eq_refl)). lia.
      * specialize (IH w (or_intror H)). rewrite len_cons. lia.
Qed.

End StrFacts.

(** ** C4: the output is never empty *)

Lemma assemble_length px cpl blocks :
  (1 <= List.length (assemble px cpl blocks))%nat.
Proof.
  unfold assemble.
  match goal with |- context [nonEmpty ?l] => destruct l eqn:E end;
    simpl; lia.
Qed.

Lemma paginateText_length text fontSize lineHeight :
  (1 <= List.length (paginateText text fontSize lineHeight))%nat.
Proof.
  destruct text; simpl; [lia | apply assemble_length].
Qed.

(** C4.  [paginateText("", f, l)] is exactly the one page [""], and for
    every text and all parameters the returned sequence has at least one
    page. *)
Theorem C4_nonempty_output :
  (forall fontSize lineHeight,
      paginateText EmptyString fontSize lineHeight = [EmptyString])
  /\ (forall text fontSize lineHeight,
         (1 <= List.length (paginateText text fontSize lineHeight))%nat).
Proof.
  split; [reflexivity | apply paginateText_length].
Qed.

(** ** C8: wrapping keeps words whole *)

Section Wrap.
Import Str StrFacts.

Variable max : ExtZ.

(** The words of the output are the words of the input: the loop only
    moves whole words. *)
Lemma wrapLoop_words ws : forall wrapped current,
  Forall (fun w => mem space w = false) ws ->
  List.concat (map (split space) (wrapLoop max ws wrapped current))
  = List.concat (map (split space) wrapped) ++ split space current ++ ws.
Proof.
  induction ws as [|word rest IH]; intros wrapped current F; simpl.
  - rewrite map_app, concat_app. simpl. now rewrite !app_nil_r.
  - inversion F as [|? ? Hw Hrest]; subst.
    destruct (leExt _ max).
    + rewrite (IH _ _ Hrest), split_app, (split_no_sep_id _ _ Hw).
      now rewrite <- app_assoc.
    + rewrite (IH _ _ Hrest), map_app, concat_app. simpl.
      rewrite (split_no_sep_id _ _ Hw), app_nil_r, <- !app_assoc.
      reflexivity.
Qed.

Lemma wrapLoop_fits ws : forall wrapped current,
  Forall (fun w => mem space w = false) ws ->
  Forall (fitsOrSingle max) wrapped -> fitsOrSingle max current ->
  Forall (fitsOrSingle max) (wrapLoop max ws wrapped current).
Proof.
  induction ws as [|word rest IH]; intros wrapped current F FW FC; simpl.
  - apply Forall_app; split; [assumption | now constructor].
  - inversion F as [|? ? Hw Hrest]; subst.
    destruct (leExt _ max) eqn:E.
    + apply IH; [assumption | assumption |].
      left. change (String space word) with (String space EmptyString ++ word)%string.
      rewrite !len_app. rewrite <- E. f_equal. rewrite len_cons.
      change (len EmptyString) with 0%Z. lia.
    + apply IH; [assumption | | now right].
      apply Forall_app; split; [assumption | now constructor].
Qed.

(** A word longer than [max] ends up as a visual line of its own. *)
Lemma wrapLoop_long w ws : forall wrapped current,
  leExt (len w) max = false ->
  In w wrapped \/ w = current \/ In w ws ->
  In w (wrapLoop max ws wrapped current).
Proof.
  intros wrapped current L.
  revert wrapped current.
  induction ws as [|word rest IH]; intros wrapped current H; simpl.
  - apply in_or_app. destruct H as [H|[H|[]]]; [now left | right; now left].
  - destruct (leExt (len current + 1 + len word) max) eqn:E.
    + apply IH. destruct H as [H|[H|[H|H]]]; auto.
      * exfalso. subst w. destruct max as [m|]; simpl in *; [|discriminate].
        pose proof (len_nonneg word). lia.
      * exfalso. subst w. destruct max as [m|]; simpl in *; [|discriminate].
        pose proof (len_nonneg current). lia.
    + apply IH. destruct H as [H|[H|[H|H]]]; auto.
      * left. apply in_or_app. now left.
      * left. apply in_or_app. right. now left.
Qed.

End Wrap.

Lemma wrapText_words str max :
  List.concat (map (Str.split Str.space) (wrapText str max))
  = Str.split Str.space str.
Proof.
  unfold wrapText. destruct (leExt _ max).
  - simpl. apply app_nil_r.
  - pose proof (StrFacts.split_nonempty Str.space str) as N.
    pose proof (StrFacts.split_no_sep Str.space str) as F.
    destruct (Str.split Str.space str) as [|w0 ws]; [contradiction|].
    inversion F; subst. simpl hd; simpl tl.
    rewrite wrapLoop_words by assumption. simpl.
    now rewrite StrFacts.split_no_sep_id.
Qed.

Lemma wrapText_fits str max :
  Forall (fitsOrSingle max) (wrapText str max).
Proof.
  unfold wrapText. destruct (leExt _ max) eqn:E.
  - constructor; [now left | constructor].
  - pose proof (StrFacts.split_nonempty Str.space str) as N.
    pose proof (StrFacts.split_no_sep Str.space str) as F.
    destruct (Str.split Str.space str) as [|w0 ws]; [contradiction|].
    inversion F; subst. simpl hd; simpl tl.
    apply wrapLoop_fits; [assumption | constructor | now right].
Qed.

Lemma wrapText_long str max w :
  In w (Str.split Str.space str) -> leExt (Str.len w) max = false ->
  In w (wrapText str max).
Proof.
  intros Hin L. unfold wrapText. destruct (leExt (Str.len str) max) eqn:E.
  - exfalso. pose proof (StrFacts.split_len _ _ _ Hin).
    destruct max as [m|]; simpl in *; [|discriminate]. lia.
  - pose proof (StrFacts.split_nonempty Str.space str) as N.
    destruct (Str.split Str.space str) as [|w0 ws]; [contradiction|].
    simpl hd; simpl tl. apply wrapLoop_long; [assumption|].
    destruct Hin as [<-|Hin]; auto.
Qed.

(** C8.  For every line and every [max] (finite or infinite): the words
    of the visual lines, in order, are exactly the words of the line, so
    no word is cut, lost or repeated; a visual line longer than [max]
    holds no space, that is, it is a single word; and every word longer
    than [max] is itself one of the visual lines. *)
Theorem C8_word_atomicity (str : string) (max : ExtZ) :
  List.concat (map (Str.split Str.space) (wrapText str max))
  = Str.split Str.space str
  /\ (forall v, In v (wrapText str max) ->
        leExt (Str.len v) max = false -> Str.mem Str.space v = false)
  /\ (forall w, In w (Str.split Str.space str) ->
        leExt (Str.len w) max = false -> In w (wrapText str max)).
Proof.
  split; [apply wrapText_words | split].
  - intros v Hin L. pose proof (wrapText_fits str max) as F.
    rewrite Forall_forall in F. destruct (F v Hin) as [H|H]; [congruence | exact H].
  - intros w. apply wrapText_long.
Qed.

Lemma C8_word_atomicity_witness :
  In "incomprehensibilities" (wrapText "two incomprehensibilities here" (Fin 8))
  /\ Str.mem Str.space "incomprehensibilities" = false.
Proof.
  destruct (C8_word_atomicity "two incomprehensibilities here" (Fin 8))
    as [_ [Hsingle Hlong]].
  assert (Hin : In "incomprehensibilities"
                  (wrapText "two incomprehensibilities here" (Fin 8))).
  { apply Hlong; [simpl; auto | reflexivity]. }
  split; [exact Hin | apply (Hsingle _ Hin); reflexivity].
Defined.

(** ** Segmentation *)

Lemma take_drop_table ls : takeTable ls ++ dropTable ls = ls.
Proof.
  induction ls as [|l ls IH]; simpl; [reflexivity|].
  destruct (isTableLine l); simpl; [now rewrite IH | reflexivity].
Qed.

Lemma takeTable_all ls : Forall (fun l => isTableLine l = true) (takeTable ls).
Proof.
  induction ls as [|l ls IH]; simpl; [constructor|].
  destruct (isTableLine l) eqn:E; constructor; assumption.
Qed.

Lemma dropTable_length ls : (List.length (dropTable ls) <= List.length ls)%nat.
Proof.
  rewrite <- (take_drop_table ls) at 2. rewrite length_app. lia.
Qed.

(** What follows a table run does not start with a table line. *)
Lemma dropTable_start ls :
  match dropTable ls with
  | l :: _ => isTableLine l = false
  | [] => True
  end.
Proof.
  induction ls as [|l ls IH]; simpl; [exact I|].
  destruct (isTableLine l) eqn:E; assumption.
Qed.

(** The table case of [segment]: one block for the whole run. *)
Lemma segment_table line rest :
  isTableLine line = true ->
  segment (line :: rest)
  = mkBlock table (line :: takeTable rest) :: segment (dropTable rest).
Proof.
  intros H. cbn [segment]. rewrite H.
  change (line :: takeTable rest) with ([line] ++ takeTable rest).
  generalize [line] as acc.
  induction rest as [|l ls IH]; intros acc.
  - cbn [takeTable dropTable]. now rewrite app_nil_r.
  - cbn [takeTable dropTable]. destruct (isTableLine l) eqn:E.
    + rewrite IH, <- app_assoc. reflexivity.
    + now rewrite app_nil_r.
Qed.

Lemma segment_other line rest :
  isTableLine line = false ->
  segment (line :: rest)
  = mkBlock (if isHrLine line then hr else text) [line] :: segment rest.
Proof.
  intros H. cbn [segment]. rewrite H. destruct (isHrLine line); reflexivity.
Qed.

(** Induction along the way [segment] consumes its input. *)
Lemma lines_run_ind (P : list string -> Prop) :
  P [] ->
  (forall line rest,
      isTableLine line = true -> P (dropTable rest) -> P (line :: rest)) ->
  (forall line rest, isTableLine line = false -> P rest -> P (line :: rest)) ->
  forall ls, P ls.
Proof.
  intros Hnil Htab Hoth ls.
  assert (G : forall n ls, (List.length ls <= n)%nat -> P ls).
  { induction n as [|n IH]; intros [|l ls'] L; try exact Hnil.
    - simpl in L; lia.
    - destruct (isTableLine l) eqn:E.
      + apply Htab; [exact E|]. apply IH.
        pose proof (dropTable_length ls'). simpl in L. lia.
      + apply Hoth; [exact E|]. apply IH. simpl in L. lia. }
  apply (G (List.length ls)). lia.
Qed.

Lemma segment_content rawLines :
  List.concat (map content (segment rawLines)) = rawLines.
Proof.
  induction rawLines as [|line rest Htab IH|line rest Hoth IH] using lines_run_ind.
  - reflexivity.
  - rewrite (segment_table _ _ Htab). cbn [map List.concat content].
    rewrite IH. simpl. now rewrite take_drop_table.
  - rewrite (segment_other _ _ Hoth). cbn [map List.concat content].
    now rewrite IH.
Qed.

Lemma segment_wellFormed rawLines : Forall blockWellFormed (segment rawLines).
Proof.
  induction rawLines as [|line rest Htab IH|line rest Hoth IH] using lines_run_ind.
  - constructor.
  - rewrite (segment_table _ _ Htab). constructor; [|exact IH].
    split; [discriminate|]. constructor; [exact Htab | apply takeTable_all].
  - rewrite (segment_other _ _ Hoth). constructor; [|exact IH].
    destruct (isHrLine line) eqn:E; exists line; auto.
Qed.

Lemma isHrLine_spec line :
  isHrLine line = true
  <-> (Str.trim line = "---" \/ Str.trim line = "___" \/ Str.trim line = "***").
Proof.
  unfold isHrLine. rewrite !orb_true_iff, !String.eqb_eq. tauto.
Qed.

(** ** C5: which lines are horizontal rules *)

(** C5, as stated, fails: the line [----] is four repetitions of [-], it
    is no table line, and the segmentation makes it a [text] block. *)
Lemma C5_counterexample :
  ~ (forall line,
        isTableLine line = false -> isRuleRun (Str.trim line) = true ->
        segment [line] = [mkBlock hr [line]]).
Proof.
  intros H. specialize (H "----" eq_refl eq_refl). discriminate H.
Qed.

(** The runs of table lines are maximal: the block after a table block
    is no table block. *)
Lemma segment_tablesApart rawLines : tablesApart (segment rawLines).
Proof.
  induction rawLines as [|line rest Htab IH|line rest Hoth IH]
    using lines_run_ind.
  - exact I.
  - rewrite (segment_table _ _ Htab). cbn [tablesApart]. split; [|exact IH].
    pose proof (dropTable_start rest) as S.
    destruct (dropTable rest) as [|l ls]; [exact I|].
    rewrite (segment_other _ _ S). cbn [type].
    intros _. destruct (isHrLine l); discriminate.
  - rewrite (segment_other _ _ Hoth). cbn [tablesApart]. split; [|exact IH].
    destruct (segment rest); [exact I|].
    cbn [type]. intros E. destruct (isHrLine line); discriminate E.
Qed.

(** C5, amended.  The blocks of [segment] partition the lines in order;
    a table block is a non-empty run of table lines, and a maximal one:
    no table block is directly followed by another table block; every
    other block holds one line that is no table line, and it is a
    horizontal-rule block exactly when the trimmed line is one of the
    three markers [---], [___], [***] (exactly three characters), a text
    block otherwise. *)
Theorem C5_rule_classification (rawLines : list string) :
  List.concat (map content (segment rawLines)) = rawLines
  /\ Forall blockWellFormed (segment rawLines)
  /\ tablesApart (segment rawLines)
  /\ (forall line,
        isHrLine line = true
        <-> (Str.trim line = "---" \/ Str.trim line = "___"
             \/ Str.trim line = "***")).
Proof.
  split; [apply segment_content | split; [apply segment_wellFormed | split]];
    [apply segment_tablesApart | apply isHrLine_spec].
Qed.

(** ** C1: what becomes of the input lines *)

Lemma allLines_app ps qs : allLines (ps ++ qs) = allLines ps ++ allLines qs.
Proof. unfold allLines. now rewrite map_app, concat_app. Qed.

Lemma allT_pushPage st : allT (tPushPage st) = allT st.
Proof.
  unfold allT, tPushPage; simpl. rewrite allLines_app. unfold allLines at 2.
  simpl. now rewrite !app_nil_r.
Qed.

Lemma allT_addLines ls h st : allT (tAddLines ls h st) = allT st ++ ls.
Proof. unfold allT, tAddLines; simpl. now rewrite app_assoc. Qed.

Lemma origOf_app ls ms : origOf (ls ++ ms) = origOf ls ++ origOf ms.
Proof. apply filter_app. Qed.

Lemma origOf_tagHdrs b k hs : origOf (tagHdrs b k hs) = [].
Proof. revert k; induction hs as [|h hs IH]; intros k; simpl; auto. Qed.

Lemma origOf_tagRows b r rows : origOf (tagRows b r rows) = tagRows b r rows.
Proof.
  unfold origOf.
  revert r; induction rows as [|row rows IH]; intros r;
    cbn [tagRows filter fst isOriginal]; [reflexivity | now rewrite IH].
Qed.

Section Content.

Variable pxPerLine : Q.
Variable charsPerLine : ExtZ.

Lemma orig_splitRows b headers rows : forall r st,
  origOf (allT (tSplitRows pxPerLine b headers r rows st))
  = origOf (allT st) ++ tagRows b r rows.
Proof.
  induction rows as [|row rest IH]; intros r st; cbn [tSplitRows tagRows].
  - now rewrite app_nil_r.
  - rewrite IH, allT_addLines, origOf_app. cbn [origOf filter fst isOriginal].
    rewrite <- app_assoc. cbn [app]. f_equal.
    destruct (Qgtb _ _); [|reflexivity].
    destruct (negb _ && _).
    + now rewrite allT_addLines, origOf_app, origOf_tagHdrs, app_nil_r,
        allT_pushPage.
    + now rewrite allT_pushPage.
Qed.

Lemma orig_placeVisual vls : forall st,
  origOf (allT (tPlaceVisual pxPerLine vls st))
  = origOf (allT st) ++ map (pair Visual) vls.
Proof.
  induction vls as [|v rest IH]; intros st; cbn [tPlaceVisual map].
  - now rewrite app_nil_r.
  - rewrite IH, allT_addLines, origOf_app. cbn [origOf filter fst isOriginal].
    rewrite <- app_assoc. cbn [app]. f_equal.
    destruct (Qgtb _ _); [now rewrite allT_pushPage | reflexivity].
Qed.

Lemma orig_processBlock b st block :
  origOf (allT (tProcessBlock pxPerLine charsPerLine b st block))
  = origOf (allT st) ++ emitT charsPerLine b block.
Proof.
  unfold tProcessBlock, emitT. destruct (type block).
  - destruct (isHeaderLine _).
    + rewrite allT_addLines, origOf_app. cbn [origOf filter fst isOriginal].
      f_equal. destruct (Qgtb _ _); [now rewrite allT_pushPage | reflexivity].
    + apply orig_placeVisual.
  - destruct (Qle_bool _ _).
    + rewrite allT_addLines, origOf_app, origOf_tagRows. f_equal.
      destruct (nonEmpty _); [|reflexivity].
      rewrite allT_addLines, origOf_app. cbn. now rewrite app_nil_r.
    + rewrite orig_splitRows. f_equal.
      destruct (nonEmpty _ && _); [|reflexivity].
      rewrite allT_addLines, origOf_app. cbn. now rewrite app_nil_r.
  - rewrite allT_addLines, origOf_app. cbn [origOf filter fst isOriginal].
    f_equal. destruct (Qgtb _ _); [now rewrite allT_pushPage | reflexivity].
Qed.

Lemma orig_run blocks : forall b st,
  origOf (allT (tRun pxPerLine charsPerLine b blocks st))
  = origOf (allT st) ++ emitAllT charsPerLine b blocks.
Proof.
  induction blocks as [|block rest IH]; intros b st; cbn [tRun emitAllT].
  - now rewrite app_nil_r.
  - now rewrite IH, orig_processBlock, app_assoc.
Qed.

Lemma allLines_finish st : allLines (tFinish st) = allT st.
Proof.
  unfold tFinish, allT. destruct (tcur st) as [|l ls]; cbn [nonEmpty].
  - rewrite app_nil_r. destruct (tpages st); reflexivity.
  - destruct (tpages st) as [|p ps]; cbn [nonEmpty app];
      [unfold allLines; simpl; now rewrite app_nil_r|].
    change (p :: ps ++ [ {| plines := l :: ls; pheight := tused st |} ])
      with ((p :: ps) ++ [ {| plines := l :: ls; pheight := tused st |} ]).
    rewrite allLines_app. unfold allLines at 2. simpl. now rewrite app_nil_r.
Qed.

Lemma orig_assemble blocks :
  origOf (allLines (tAssemble pxPerLine charsPerLine blocks))
  = emitAllT charsPerLine 0 blocks.
Proof.
  unfold tAssemble. rewrite allLines_finish, orig_run. reflexivity.
Qed.

Lemma emitted_table line : isTableLine line = true -> emitted charsPerLine line = [line].
Proof. intros H. unfold emitted, isPlainLine. now rewrite H. Qed.

Lemma emitted_takeTable rest :
  flat_map (emitted charsPerLine) rest
  = takeTable rest ++ flat_map (emitted charsPerLine) (dropTable rest).
Proof.
  induction rest as [|l ls IH]; cbn [takeTable dropTable flat_map]; [reflexivity|].
  destruct (isTableLine l) eqn:E; [|reflexivity].
  now rewrite (emitted_table _ E), IH.
Qed.

(** The texts of the annotated lines of the blocks of [segment] are what
    the lines [emitted]. *)
Lemma emitAllT_segment rawLines : forall b,
  map snd (emitAllT charsPerLine b (segment rawLines))
  = flat_map (emitted charsPerLine) rawLines.
Proof.
  induction rawLines as [|line rest Htab IH|line rest Hoth IH] using lines_run_ind;
    intros b.
  - reflexivity.
  - rewrite (segment_table _ _ Htab). cbn [emitAllT flat_map].
    rewrite map_app, IH. unfold emitT; cbn [type content].
    rewrite map_snd_tagRows, (emitted_table _ Htab), (emitted_takeTable rest).
    reflexivity.
  - rewrite (segment_other _ _ Hoth). cbn [emitAllT flat_map].
    rewrite map_app, IH. f_equal.
    unfold emitT, emitted, isPlainLine. rewrite Hoth.
    destruct (isHrLine line); cbn [type content hd negb andb]; [reflexivity|].
    destruct (isHeaderLine line); cbn [negb]; [reflexivity|].
    rewrite map_map. cbn [snd]. apply map_id.
Qed.

End Content.

Lemma wrapText_empty max : wrapText EmptyString max = [EmptyString].
Proof. unfold wrapText. destruct (leExt _ max); reflexivity. Qed.

Lemma contentLines_paginateTrace text fontSize lineHeight :
  contentLines (paginateTrace text fontSize lineHeight)
  = flat_map (emitted (charsPerLineOf fontSize)) (Str.split Str.newline text).
Proof.
  unfold contentLines. fold (origOf (allLines (paginateTrace text fontSize lineHeight))).
  destruct text as [|c s].
  - cbn. rewrite app_nil_r. unfold emitted. cbn. now rewrite wrapText_empty.
  - unfold paginateTrace. rewrite orig_assemble. apply emitAllT_segment.
Qed.

Lemma join_app_two sep l a b :
  Str.join sep (l ++ [a; b]) = Str.join sep (l ++ [(a ++ String sep b)%string]).
Proof.
  induction l as [|x l IH]; [reflexivity|].
  destruct l as [|y l]; [reflexivity|].
  cbn [app] in *. rewrite !StrFacts.join_cons. now rewrite IH.
Qed.

Lemma append_assoc (a b c : string) : ((a ++ b) ++ c = a ++ (b ++ c))%string.
Proof. induction a as [|x a IH]; simpl; [reflexivity | now rewrite IH]. Qed.

Lemma wrapLoop_join max ws : forall wrapped current,
  Str.join Str.space (wrapLoop max ws wrapped current)
  = Str.join Str.space (wrapped ++ [Str.join Str.space (current :: ws)]).
Proof.
  induction ws as [|word rest IH]; intros wrapped current; cbn [wrapLoop].
  - reflexivity.
  - destruct (leExt _ max).
    + rewrite IH. do 2 f_equal. f_equal.
      destruct rest as [|w2 rest]; [reflexivity|].
      rewrite !StrFacts.join_cons. rewrite append_assoc. reflexivity.
    + rewrite IH, <- app_assoc. cbn [app]. rewrite join_app_two.
      reflexivity.
Qed.

(** Joining the visual lines with single spaces gives the line back. *)
Lemma wrapText_join str max : Str.join Str.space (wrapText str max) = str.
Proof.
  unfold wrapText. destruct (leExt _ max); [reflexivity|].
  rewrite wrapLoop_join. cbn [app Str.join].
  pose proof (StrFacts.split_nonempty Str.space str) as N.
  pose proof (StrFacts.join_split Str.space str) as J.
  destruct (Str.split Str.space str); [contradiction | exact J].
Qed.

Lemma emitted_short cpl line :
  leExt (Str.len line) cpl = true -> emitted cpl line = [line].
Proof.
  intros H. unfold emitted, wrapText. rewrite H. now destruct (isPlainLine line).
Qed.

(** C1, as stated, fails: a paragraph line longer than [charsPerLine]
    (here 17 characters against 15) comes out as two lines. *)
Lemma C1_counterexample :
  ~ (forall text fontSize lineHeight,
        0 < fontSize -> 0 < lineHeight ->
        contentLines (paginateTrace text fontSize lineHeight)
        = Str.split Str.newline text).
Proof.
  intros H.
  specialize (H "aaaaaaaa bbbbbbbb" 100 1 eq_refl eq_refl).
  vm_compute in H. discriminate H.
Qed.

(** C1, amended.  The pages of [paginateText] are the annotated pages
    with the annotations dropped.  The lines pushed to the pages, in
    order, re-emitted header lines and inserted spacers excluded (an
    empty page sealed by [pushPage] holds no line), are the lines of the document in
    order with every paragraph line (no table row, rule or heading)
    replaced by its visual lines [wrapText line charsPerLine]; the visual
    lines of a line, joined by single spaces, are that line, and a line
    no longer than [charsPerLine] is emitted as it is.  Nothing is
    dropped, repeated or reordered. *)
Theorem C1_content_preservation (text : string) (fontSize lineHeight : Q) :
  map render (paginateTrace text fontSize lineHeight)
  = paginateText text fontSize lineHeight
  /\ contentLines (paginateTrace text fontSize lineHeight)
     = flat_map (emitted (charsPerLineOf fontSize)) (Str.split Str.newline text)
  /\ (forall line max, Str.join Str.space (wrapText line max) = line)
  /\ (forall line,
        leExt (Str.len line) (charsPerLineOf fontSize) = true ->
        emitted (charsPerLineOf fontSize) line = [line]).
Proof.
  split; [apply paginateTrace_erase|].
  split; [apply contentLines_paginateTrace | split];
    [apply wrapText_join | apply emitted_short].
Qed.

(** ** Comparisons on pixel measures *)

Lemma Qgtb_true a b : Qgtb a b = true <-> b < a.
Proof.
  unfold Qgtb. rewrite negb_true_iff. split; intros H.
  - apply Qnot_le_lt. intros L. apply Qle_bool_iff in L. congruence.
  - destruct (Qle_bool a b) eqn:E; [|reflexivity].
    apply Qle_bool_iff in E. exfalso. apply (Qlt_not_le _ _ H E).
Qed.

Lemma Qgtb_false a b : Qgtb a b = false <-> a <= b.
Proof.
  unfold Qgtb. rewrite negb_false_iff. apply Qle_bool_iff.
Qed.

Lemma Qle_bool_false a b : Qle_bool a b = false <-> b < a.
Proof.
  rewrite <- Qgtb_true. unfold Qgtb. now rewrite negb_true_iff.
Qed.

Lemma AVAILABLE_HEIGHT_value : AVAILABLE_HEIGHT == 1027.
Proof. reflexivity. Qed.

Lemma lengthQ_cons {A : Type} (x : A) (l : list A) : lengthQ (x :: l) == 1 + lengthQ l.
Proof.
  unfold lengthQ. cbn [List.length]. rewrite Nat2Z.inj_succ.
  unfold Z.succ. rewrite inject_Z_plus. ring.
Qed.

Lemma lengthQ_nonneg {A : Type} (l : list A) : 0 <= lengthQ l.
Proof.
  unfold lengthQ. change 0 with (inject_Z 0). rewrite <- Zle_Qle. lia.
Qed.

(** ** Basic facts of the page assembly *)

Lemma place_addLines h line st :
  addLines [line] h
    (if Qgtb (currentHeightUsed st + h) AVAILABLE_HEIGHT then pushPage st else st)
  = place h line st.
Proof. reflexivity. Qed.

Lemma length_pages_pushPage st :
  List.length (pages (pushPage st)) = S (List.length (pages st)).
Proof.
  unfold pushPage; cbn [pages]. destruct (nonEmpty _);
    rewrite length_app; cbn [List.length]; lia.
Qed.

Lemma nonEmpty_snoc {A : Type} (l : list A) x : nonEmpty (l ++ [x]) = true.
Proof. destruct l; reflexivity. Qed.

Lemma used_pushPage st : currentHeightUsed (pushPage st) = 0.
Proof. reflexivity. Qed.

Lemma placeVisual_place px v rest st :
  placeVisual px (v :: rest) st = placeVisual px rest (place px v st).
Proof. reflexivity. Qed.

Lemma nonEmpty_place h l st : nonEmpty (currentPageLines (place h l st)) = true.
Proof. unfold place; cbn [currentPageLines]. apply nonEmpty_snoc. Qed.

(** ** C10: the empty page in front of an oversized first unit *)

Section EmptyPage.

Variable pxPerLine : Q.
Variable charsPerLine : ExtZ.

Lemma headedBy_refl u ls st : currentPageLines st = u :: ls -> headedBy u st st.
Proof. intros H. exists []. rewrite app_nil_r. split; [reflexivity | eauto]. Qed.

Lemma headedBy_push u ls st0 st' :
  currentPageLines st0 = u :: ls ->
  (exists more, pages st' = pages (pushPage st0) ++ more) ->
  headedBy u st0 st'.
Proof.
  intros Hc [more Hm].
  exists (Str.join Str.newline (u :: ls) :: more). split; [|eauto].
  rewrite Hm. unfold pushPage; cbn [pages]. rewrite Hc. cbn [nonEmpty].
  now rewrite <- app_assoc.
Qed.

Lemma pages_pushPage st : exists pg, pages (pushPage st) = pages st ++ [pg].
Proof. unfold pushPage; cbn [pages]. destruct (nonEmpty _); eauto. Qed.

Lemma pages_placeVisual vls : forall st,
  exists more, pages (placeVisual pxPerLine vls st) = pages st ++ more.
Proof.
  induction vls as [|v rest IH]; intros st; cbn [placeVisual].
  - exists []. now rewrite app_nil_r.
  - match goal with |- context [placeVisual _ _ ?s] => destruct (IH s) as [more Hm] end.
    rewrite Hm. cbn [addLines pages].
    destruct (Qgtb _ _); [|eauto].
    destruct (pages_pushPage st) as [pg ->]. rewrite <- app_assoc. eauto.
Qed.

(** the state in which a row is placed *)
Lemma pages_rowState (over c : bool) headers h st :
  pages (if over
         then if c then addLines headers h (pushPage st) else pushPage st
         else st)
  = pages (if over then pushPage st else st).
Proof. destruct over, c; reflexivity. Qed.

Lemma pages_splitRows headers rows : forall r st,
  exists more, pages (splitRows pxPerLine headers r rows st) = pages st ++ more.
Proof.
  induction rows as [|row rest IH]; intros r st; cbn [splitRows].
  - exists []. now rewrite app_nil_r.
  - match goal with |- context [splitRows _ _ _ _ ?s] => destruct (IH (S r) s) as [more Hm] end.
    rewrite Hm. cbn [addLines pages]. rewrite pages_rowState.
    destruct (Qgtb _ _); [|eauto].
    destruct (pages_pushPage st) as [pg ->]. rewrite <- app_assoc. eauto.
Qed.

Lemma headedBy_placeVisual u vls : forall st ls,
  currentPageLines st = u :: ls ->
  headedBy u st (placeVisual pxPerLine vls st).
Proof.
  induction vls as [|v rest IH]; intros st ls Hc; cbn [placeVisual].
  - eapply headedBy_refl; eassumption.
  - destruct (Qgtb _ _).
    + eapply headedBy_push; [eassumption|].
      match goal with |- context [placeVisual _ _ ?s] =>
        destruct (pages_placeVisual rest s) as [more Hm] end.
      rewrite Hm. cbn [addLines pages]. eauto.
    + destruct (IH (addLines [v] pxPerLine st) (ls ++ [v])) as [more [Hm Hx]].
      { cbn [addLines currentPageLines]. now rewrite Hc. }
      exists more. split; assumption.
Qed.

Lemma headedBy_splitRows u headers rows : forall r st ls,
  currentPageLines st = u :: ls ->
  headedBy u st (splitRows pxPerLine headers r rows st).
Proof.
  induction rows as [|row rest IH]; intros r st ls Hc; cbn [splitRows].
  - eapply headedBy_refl; eassumption.
  - destruct (Qgtb _ _).
    + eapply headedBy_push; [eassumption|].
      match goal with |- context [splitRows _ _ _ _ ?s] =>
        destruct (pages_splitRows headers rest (S r) s) as [more Hm] end.
      rewrite Hm. cbn [addLines pages].
      destruct (negb _ && _); cbn [addLines pages]; eauto.
    + destruct (IH (S r) (addLines [row] pxPerLine st) (ls ++ [row])) as [more [Hm Hx]].
      { cbn [addLines currentPageLines]. now rewrite Hc. }
      exists more. split; assumption.
Qed.

End EmptyPage.

Lemma wrapLoop_nonempty max ws : forall wrapped current,
  wrapLoop max ws wrapped current <> [].
Proof.
  induction ws as [|w ws IH]; intros wrapped current; cbn [wrapLoop].
  - intros H. apply app_eq_nil in H. destruct H; discriminate.
  - destruct (leExt _ max); apply IH.
Qed.

Lemma wrapText_nonempty str max : wrapText str max <> [].
Proof.
  unfold wrapText. destruct (leExt _ max); [discriminate | apply wrapLoop_nonempty].
Qed.

Lemma table_too_tall px used (row : string) rows :
  used == 0 -> AVAILABLE_HEIGHT < px ->
  Qle_bool (used + lengthQ (row :: rows) * getLineHeight px false true false)
    AVAILABLE_HEIGHT = false.
Proof.
  intros U H. apply Qle_bool_false. unfold getLineHeight.
  rewrite lengthQ_cons, U.
  pose proof AVAILABLE_HEIGHT_value as A.
  assert (0 <= lengthQ rows * px).
  { apply Qmult_le_0_compat; [apply lengthQ_nonneg | lra]. }
  lra.
Qed.

Section Progress.

Variable pxPerLine : Q.
Variable charsPerLine : ExtZ.

Lemma progress_pushPage st : (progress st <= progress (pushPage st))%nat.
Proof.
  unfold progress. rewrite length_pages_pushPage. cbn [pushPage currentPageLines nonEmpty].
  destruct (nonEmpty _); lia.
Qed.

Lemma progress_addLines ls h st : (progress st <= progress (addLines ls h st))%nat.
Proof.
  unfold progress, addLines; cbn [pages currentPageLines].
  destruct (currentPageLines st); cbn [nonEmpty app]; [|lia].
  destruct (nonEmpty ls); lia.
Qed.

Lemma progress_place h line st : (progress st <= progress (place h line st))%nat.
Proof.
  rewrite <- place_addLines. etransitivity; [|apply progress_addLines].
  destruct (Qgtb _ _); [apply progress_pushPage | lia].
Qed.

Lemma progress_placeVisual vls : forall st,
  (progress st <= progress (placeVisual pxPerLine vls st))%nat.
Proof.
  induction vls as [|v rest IH]; intros st; [cbn; lia|].
  rewrite placeVisual_place. etransitivity; [|apply IH]. apply progress_place.
Qed.

Lemma progress_splitRows headers rows : forall r st,
  (progress st <= progress (splitRows pxPerLine headers r rows st))%nat.
Proof.
  induction rows as [|row rest IH]; intros r st; cbn [splitRows]; [lia|].
  etransitivity; [|apply IH]. etransitivity; [|apply progress_addLines].
  destruct (Qgtb _ _); [|lia].
  destruct (negb _ && _); [etransitivity; [|apply progress_addLines]|];
    apply progress_pushPage.
Qed.

Lemma progress_processBlock st block :
  (progress st <= progress (processBlock pxPerLine charsPerLine st block))%nat.
Proof.
  unfold processBlock. destruct (type block).
  - destruct (isHeaderLine _); [|apply progress_placeVisual].
    rewrite place_addLines. apply progress_place.
  - destruct (Qle_bool _ _).
    + etransitivity; [|apply progress_addLines].
      destruct (nonEmpty _); [apply progress_addLines | lia].
    + etransitivity; [|apply progress_splitRows].
      destruct (nonEmpty _ && _); [apply progress_addLines | lia].
  - rewrite place_addLines. apply progress_place.
Qed.

Lemma pages_processBlock st block :
  exists more,
    pages (processBlock pxPerLine charsPerLine st block) = pages st ++ more.
Proof.
  assert (A : forall ls h st0, pages (addLines ls h st0) = pages st0)
    by reflexivity.
  assert (P : forall h st0,
            exists more,
              pages (if Qgtb (currentHeightUsed st0 + h) AVAILABLE_HEIGHT
                     then pushPage st0 else st0) = pages st0 ++ more).
  { intros h st0. destruct (Qgtb _ _).
    - destruct (pages_pushPage st0) as [pg ->]. eauto.
    - exists []. now rewrite app_nil_r. }
  unfold processBlock. destruct (type block).
  - destruct (isHeaderLine _); [rewrite A; apply P | apply pages_placeVisual].
  - destruct (Qle_bool _ _).
    + rewrite A. exists []. rewrite app_nil_r. now destruct (nonEmpty _).
    + match goal with |- context [splitRows _ ?hs ?r ?rows ?s] =>
        destruct (pages_splitRows pxPerLine hs rows r s) as [more ->] end.
      exists more. now destruct (nonEmpty _ && _).
  - rewrite A. apply P.
Qed.

Lemma run_progress blocks : forall st,
  (progress st <= progress (runBlocks pxPerLine charsPerLine blocks st))%nat
  /\ exists more,
       pages (runBlocks pxPerLine charsPerLine blocks st) = pages st ++ more.
Proof.
  unfold runBlocks.
  induction blocks as [|block rest IH]; intros st; cbn [fold_left].
  - split; [lia|]. exists []. now rewrite app_nil_r.
  - destruct (IH (processBlock pxPerLine charsPerLine st block)) as [L [m1 E1]].
    destruct (pages_processBlock st block) as [m0 E0].
    split.
    + etransitivity; [apply progress_processBlock | exact L].
    + exists (m0 ++ m1). now rewrite E1, E0, app_assoc.
Qed.

End Progress.

(** C10.  When the current page has no lines yet (and so nothing
    accumulated) and the first unit of the next block - the rule, the
    heading, the first visual line of the paragraph, or the first table
    row - is taller than the whole budget, [pushPage] appends the empty
    string to [pages] and the page after it begins with that unit.  This
    is the situation at the start of every run: a non-empty text whose
    first unit is taller than the budget gives the empty string as the
    first of at least two pages. *)
Theorem C10_empty_page_before_oversized :
  (forall (pxPerLine : Q) (charsPerLine : ExtZ) (st : State) (block : Block),
      currentPageLines st = [] ->
      currentHeightUsed st == 0 ->
      content block <> [] ->
      AVAILABLE_HEIGHT < firstUnitHeight pxPerLine block ->
      exists more,
        pages (processBlock pxPerLine charsPerLine st block)
        = pages st ++ EmptyString :: more
        /\ match more with
           | [] =>
               exists ls,
                 currentPageLines (processBlock pxPerLine charsPerLine st block)
                 = firstUnitLine charsPerLine block :: ls
           | pg :: _ =>
               exists ls,
                 pg = Str.join Str.newline
                        (firstUnitLine charsPerLine block :: ls)
           end)
  /\ (forall (text : string) (fontSize lineHeight : Q) (block : Block),
         text <> EmptyString ->
         hd_error (segment (Str.split Str.newline text)) = Some block ->
         AVAILABLE_HEIGHT
         < firstUnitHeight (pxPerLineOf fontSize lineHeight) block ->
         exists rest,
           paginateText text fontSize lineHeight = EmptyString :: rest
           /\ rest <> []).
Proof.
  assert (B : forall (pxPerLine : Q) (charsPerLine : ExtZ) (st : State)
                     (block : Block),
      currentPageLines st = [] ->
      currentHeightUsed st == 0 ->
      content block <> [] ->
      AVAILABLE_HEIGHT < firstUnitHeight pxPerLine block ->
      exists more,
        pages (processBlock pxPerLine charsPerLine st block)
        = pages st ++ EmptyString :: more
        /\ match more with
           | [] =>
               exists ls,
                 currentPageLines (processBlock pxPerLine charsPerLine st block)
                 = firstUnitLine charsPerLine block :: ls
           | pg :: _ =>
               exists ls,
                 pg = Str.join Str.newline
                        (firstUnitLine charsPerLine block :: ls)
           end).
  { intros pxPerLine charsPerLine st block Hc Hu Hne Hh.
    assert (Hpush : pages (pushPage st) = pages st ++ [EmptyString]).
    { unfold pushPage; cbn [pages]. now rewrite Hc. }
    assert (Hover : forall h, AVAILABLE_HEIGHT < h ->
              Qgtb (currentHeightUsed st + h) AVAILABLE_HEIGHT = true).
    { intros h Lh. apply Qgtb_true. lra. }
    assert (Hfin : forall u st1 st',
              pages st1 = pages (pushPage st) -> headedBy u st1 st' ->
              exists more, pages st' = pages st ++ EmptyString :: more
                /\ match more with
                   | [] => exists ls, currentPageLines st' = u :: ls
                   | pg :: _ => exists ls, pg = Str.join Str.newline (u :: ls)
                   end).
    { intros u st1 st' Hp [more [Hm Hx]]. exists more. split; [|exact Hx].
      rewrite Hm, Hp, Hpush, <- app_assoc. reflexivity. }
    unfold processBlock, firstUnitLine, firstUnitHeight in *.
    destruct (type block).
    - (* text *)
      destruct (isHeaderLine (hd EmptyString (content block))).
      + rewrite (Hover _ Hh).
        eapply Hfin; [|eapply headedBy_refl]; reflexivity.
      + pose proof (wrapText_nonempty (hd EmptyString (content block)) charsPerLine) as N.
        destruct (wrapText _ charsPerLine) as [|v vls]; [contradiction|].
        cbn [placeVisual hd]. rewrite (Hover _ Hh).
        eapply Hfin; [|eapply headedBy_placeVisual]; reflexivity.
    - (* table *)
      destruct (content block) as [|row rows] eqn:Ec; [congruence|].
      rewrite (table_too_tall _ _ _ _ Hu Hh), Hc.
      cbn [nonEmpty andb splitRows hd Nat.ltb Nat.leb negb]. rewrite (Hover _ Hh).
      eapply Hfin; [|eapply headedBy_splitRows]; reflexivity.
    - (* hr *)
      rewrite (Hover _ Hh).
      eapply Hfin; [|eapply headedBy_refl]; reflexivity. }
  split; [exact B|].
  intros text fontSize lineHeight block Ht Hb Hh.
  destruct text as [|c s]; [congruence|]. unfold paginateText.
  set (px := pxPerLineOf fontSize lineHeight) in *.
  set (cpl := charsPerLineOf fontSize).
  pose proof (segment_wellFormed (Str.split Str.newline (String c s))) as W.
  destruct (segment (Str.split Str.newline (String c s))) as [|b0 bs];
    [discriminate Hb|].
  injection Hb as ->. inversion W as [|? ? W0 _]; subst.
  assert (Hne : content block <> []).
  { unfold blockWellFormed in W0. destruct (type block).
    - destruct W0 as [l [-> _]]. discriminate.
    - tauto.
    - destruct W0 as [l [-> _]]. discriminate. }
  destruct (B px cpl initState block eq_refl (Qeq_refl 0) Hne Hh)
    as [more [Hm Hx]].
  unfold assemble. cbn [fold_left].
  set (st1 := processBlock px cpl initState block) in *.
  destruct (run_progress px cpl bs st1) as [L [m1 E1]].
  fold (runBlocks px cpl bs st1).
  set (st2 := runBlocks px cpl bs st1) in *.
  assert (P1 : (2 <= progress st1)%nat).
  { unfold progress. rewrite Hm. cbn [pages initState app List.length].
    destruct more as [|pg more]; cbn [List.length]; [|lia].
    destruct Hx as [ls ->]. cbn [nonEmpty]. lia. }
  assert (E2 : pages st2 = EmptyString :: more ++ m1).
  { rewrite E1, Hm. reflexivity. }
  unfold progress in L, P1. rewrite E2 in *. cbn [List.length] in L.
  destruct (nonEmpty (currentPageLines st2)); cbn [app nonEmpty].
  - eexists; split; [reflexivity|].
    intros H. apply app_eq_nil in H as [_ H]. discriminate H.
  - eexists; split; [reflexivity|].
    intros H. rewrite H in L. cbn [List.length] in L. lia.
Qed.

(** An instance: a one-line document at a font size whose line is taller
    than the page gives the empty page, then the line; the output holds
    an empty-string page although the input is not empty. *)
Lemma C10_empty_page_witness :
  paginateText "x" 2000 1 = [EmptyString; "x"]
  /\ exists rest, paginateText "x" 2000 1 = EmptyString :: rest /\ rest <> [].
Proof.
  split; [reflexivity|].
  apply (proj2 C10_empty_page_before_oversized "x" 2000 1 (mkBlock text ["x"])).
  - discriminate.
  - reflexivity.
  - reflexivity.
Defined.

(** ** C9: all parameter values *)



(** *** The loops end *)








(** ** C2: the height budget *)

Section Budget.

Variable pxPerLine : Q.
Variable charsPerLine : ExtZ.

Lemma pageOk_within ls h : h <= AVAILABLE_HEIGHT -> pageOk pxPerLine (mkTPage ls h).
Proof.
  intros H. right; left. unfold budgetOk; cbn [pheight].
  apply Qle_bool_iff in H. now rewrite H.
Qed.

Lemma pageOk_spacer ls ms h :
  hasSpacer (mkTPage ls h) = true -> forall h', pageOk pxPerLine (mkTPage (ls ++ ms) h').
Proof.
  intros H h'. left. unfold hasSpacer in *; cbn [plines] in *.
  rewrite existsb_app, H. reflexivity.
Qed.

Lemma inv_pushPage st : BudgetInv pxPerLine st -> BudgetInv pxPerLine (tPushPage st).
Proof.
  intros [I1 I2 I3]. constructor; cbn [tPushPage tpages tcur tused].
  - apply Forall_app; split; [assumption | now constructor].
  - apply pageOk_within. rewrite AVAILABLE_HEIGHT_value. lra.
  - reflexivity.
Qed.

(** Placing one unit of height [unitHeight o] by the rule
    "seal if it overflows, then append". *)
Lemma inv_place o line st :
  BudgetInv pxPerLine st ->
  BudgetInv pxPerLine
    (tAddLines [(o, line)] (unitHeight pxPerLine o)
       (if Qgtb (tused st + unitHeight pxPerLine o) AVAILABLE_HEIGHT
        then tPushPage st else st)).
Proof.
  intros I. destruct (Qgtb _ _) eqn:E.
  - destruct (inv_pushPage _ I) as [I1 _ _]. constructor;
      cbn [tAddLines tPushPage tpages tcur tused app] in *.
    + exact I1.
    + destruct (Qgtb (unitHeight pxPerLine o) AVAILABLE_HEIGHT) eqn:E2.
      * right; left. unfold budgetOk; cbn [plines fst]. rewrite E2.
        apply orb_true_r.
      * apply pageOk_within. apply Qgtb_false in E2. lra.
    + discriminate.
  - destruct I as [I1 I2 I3]. constructor; cbn [tAddLines tpages tcur tused].
    + exact I1.
    + apply pageOk_within. now apply Qgtb_false in E.
    + intros H. apply app_eq_nil in H. destruct H; discriminate.
Qed.

Lemma inv_placeVisual vls : forall st,
  BudgetInv pxPerLine st -> BudgetInv pxPerLine (tPlaceVisual pxPerLine vls st).
Proof.
  induction vls as [|v rest IH]; intros st I; cbn [tPlaceVisual]; [exact I|].
  apply IH. exact (inv_place Visual v st I).
Qed.

Lemma inv_splitRows b headers rows : forall r st,
  BudgetInv pxPerLine st ->
  BudgetInv pxPerLine (tSplitRows pxPerLine b headers r rows st).
Proof.
  induction rows as [|row rest IH]; intros r st I; cbn [tSplitRows]; [exact I|].
  apply IH.
  pose proof (inv_place (Row b r) row st I) as P. cbn [unitHeight] in P.
  destruct (Qgtb _ _) eqn:E; [|exact P].
  destruct (negb (r <? 2)%nat && (List.length headers =? 2)%nat) eqn:C;
    [|exact P].
  apply andb_true_iff in C as [C1 C2].
  apply Nat.eqb_eq in C2.
  destruct headers as [|h0 [|h1 [|h2 hs]]]; try discriminate C2.
  destruct (inv_pushPage _ I) as [I1 _ _]. constructor;
    cbn [tAddLines tPushPage tpages tcur tused app tagHdrs] in *.
  - exact I1.
  - right; right. unfold isHeaderPlusRow; cbn [plines].
    rewrite !Nat.eqb_refl. cbn [andb].
    apply negb_true_iff, Nat.ltb_ge in C1. now apply Nat.leb_le.
  - discriminate.
Qed.

Lemma inv_processBlock b st block :
  BudgetInv pxPerLine st ->
  BudgetInv pxPerLine (tProcessBlock pxPerLine charsPerLine b st block).
Proof.
  intros I. unfold tProcessBlock. destruct (type block).
  - destruct (isHeaderLine _).
    + exact (inv_place Heading _ st I).
    + now apply inv_placeVisual.
  - destruct (Qle_bool _ _) eqn:E.
    + apply Qle_bool_iff in E. destruct I as [I1 I2 I3].
      destruct (tcur st) as [|l0 ls] eqn:Ec; cbn [nonEmpty].
      * constructor; cbn [tAddLines tpages tcur tused app].
        -- exact I1.
        -- apply pageOk_within. exact E.
        -- intros H. rewrite Ec in H.
           destruct (content block); [|simpl in H; discriminate H].
           unfold lengthQ; cbn [List.length Z.of_nat]. rewrite (I3 eq_refl).
           unfold inject_Z. ring.
      * constructor; cbn [tAddLines tpages tcur tused].
        -- exact I1.
        -- rewrite <- app_assoc. rewrite app_assoc.
           apply (pageOk_spacer _ _ 0).
           unfold hasSpacer; cbn [plines]. rewrite existsb_app. cbn.
           apply orb_true_r.
        -- rewrite Ec. intros H. apply app_eq_nil in H as [H _].
           apply app_eq_nil in H as [H _]. discriminate H.
    + apply inv_splitRows.
      destruct (nonEmpty (tcur st) && Qgtb (tused st) 0); [|exact I].
      destruct I as [I1 I2 I3]. constructor; cbn [tAddLines tpages tcur tused].
      * exact I1.
      * rewrite <- (app_nil_r (tcur st ++ _)). apply (pageOk_spacer _ _ 0).
        unfold hasSpacer; cbn [plines]. rewrite existsb_app. cbn.
        apply orb_true_r.
      * intros H. apply app_eq_nil in H as [_ H]. discriminate H.
  - exact (inv_place Rule _ st I).
Qed.

Lemma inv_run blocks : forall b st,
  BudgetInv pxPerLine st ->
  BudgetInv pxPerLine (tRun pxPerLine charsPerLine b blocks st).
Proof.
  induction blocks as [|block rest IH]; intros b st I; cbn [tRun]; [exact I|].
  apply IH. now apply inv_processBlock.
Qed.

Lemma inv_init : BudgetInv pxPerLine tInitState.
Proof.
  constructor; cbn.
  - constructor.
  - apply pageOk_within. rewrite AVAILABLE_HEIGHT_value. lra.
  - reflexivity.
Qed.

Lemma pageOk_finish st :
  BudgetInv pxPerLine st -> Forall (pageOk pxPerLine) (tFinish st).
Proof.
  intros [I1 I2 I3]. unfold tFinish.
  assert (E : Forall (pageOk pxPerLine) [mkTPage [] 0]).
  { constructor; [|constructor]. apply pageOk_within.
    rewrite AVAILABLE_HEIGHT_value. lra. }
  destruct (nonEmpty (tcur st)).
  - assert (F : Forall (pageOk pxPerLine)
                  (tpages st ++ [mkTPage (tcur st) (tused st)])).
    { apply Forall_app; split; [assumption | now constructor]. }
    destruct (nonEmpty _); assumption.
  - destruct (nonEmpty _); assumption.
Qed.

End Budget.

(** C2, as stated, fails.  At 400 px per line two lines fit a page.  The
    first page is sealed with the two paragraph lines and the spacer
    that was added without a check (1200 > 1027); the third and fourth
    pages hold the two re-emitted header lines and one row (1200 again). *)
Lemma C2_counterexample :
  ~ (forall text fontSize lineHeight,
        0 < fontSize -> 0 < lineHeight ->
        forallb (budgetOk (pxPerLineOf fontSize lineHeight))
          (paginateTrace text fontSize lineHeight) = true).
Proof.
  intros H.
  specialize (H (doc ["a"; "b"; "|h|"; "|-|"; "|1|"; "|2|"]) 400 1
                eq_refl eq_refl).
  vm_compute in H. discriminate H.
Qed.

(** The unchecked spacer at the default settings (22 px, line height
    1.6, so 35.2 px per line and 29 lines to a page): one paragraph line
    and a table of 28 rows pass the test "the whole table fits"
    (1020.8 <= 1027); the spacer then makes it one page of 30 lines and
    1056 px. *)
Lemma C2_spacer_overflow_at_defaults :
  exists p,
    paginateTrace (doc ("a" :: repeat "|r|" 28)) defaultFontSize defaultLineHeight
    = [p]
    /\ List.length (plines p) = 30%nat
    /\ hasSpacer p = true
    /\ pheight p == 1056
    /\ budgetOk (pxPerLineOf defaultFontSize defaultLineHeight) p = false.
Proof.
  eexists. split; [vm_compute; reflexivity|].
  repeat split; vm_compute; reflexivity.
Qed.

(** C2, amended.  The pages of [paginateText] are the annotated pages
    with the annotations dropped, and every annotated page (its lines and
    the value of [currentHeightUsed] when it was sealed) that holds no
    inserted spacer line has an accumulated height within the budget, or consists of exactly one
    unit whose own height exceeds the budget, or consists of the two
    re-emitted header lines of a table and exactly one of its data rows
    (the forced re-emission, over budget when three lines are).  Nothing
    is claimed of a page onto which a spacer was pushed. *)
Theorem C2_budget_respect (text : string) (fontSize lineHeight : Q) :
  map render (paginateTrace text fontSize lineHeight)
  = paginateText text fontSize lineHeight
  /\ Forall (fun p =>
               hasSpacer p = true
               \/ budgetOk (pxPerLineOf fontSize lineHeight) p = true
               \/ isHeaderPlusRow p = true)
       (paginateTrace text fontSize lineHeight).
Proof.
  split; [apply paginateTrace_erase|].
  change (Forall (pageOk (pxPerLineOf fontSize lineHeight))
            (paginateTrace text fontSize lineHeight)).
  destruct text as [|c s].
  - constructor; [|constructor]. apply pageOk_within.
    rewrite AVAILABLE_HEIGHT_value. lra.
  - unfold paginateTrace, tAssemble. apply pageOk_finish, inv_run, inv_init.
Qed.

(** ** C3: headers on continuation pages *)

Section Anchor.

Variable blocks : list Block.
Variable pxPerLine : Q.
Variable charsPerLine : ExtZ.

Lemma rowAnchored_nil : rowAnchored blocks [].
Proof. intros [|i] b r s H; discriminate H. Qed.

Lemma rowAnchored_lift ls tl i b r :
  (i < List.length ls)%nat ->
  ((exists s', (1 <= i)%nat /\ nth_error ls (i - 1) = Some (Row b (r - 1), s'))
   \/ (i = 2%nat
       /\ exists blk h0 h1,
            nth_error blocks b = Some blk
            /\ firstn 2 (content blk) = [h0; h1]
            /\ firstn 2 ls = [(Hdr b 0, h0); (Hdr b 1, h1)])) ->
  (exists s', (1 <= i)%nat
              /\ nth_error (ls ++ [tl]) (i - 1) = Some (Row b (r - 1), s'))
  \/ (i = 2%nat
      /\ exists blk h0 h1,
           nth_error blocks b = Some blk
           /\ firstn 2 (content blk) = [h0; h1]
           /\ firstn 2 (ls ++ [tl]) = [(Hdr b 0, h0); (Hdr b 1, h1)]).
Proof.
  intros L [[s' [H1 H2]]|[H1 [blk [h0 [h1 [Hb [Hc Hf]]]]]]].
  - left. exists s'. split; [assumption|].
    rewrite nth_error_app1 by lia. assumption.
  - right. split; [assumption|]. exists blk, h0, h1. repeat split; try assumption.
    rewrite firstn_app. replace (2 - List.length ls)%nat with 0%nat by lia.
    cbn [firstn]. now rewrite app_nil_r.
Qed.

(** Appending a line that is no data row. *)
Lemma rowAnchored_snoc_other ls tl :
  rowAnchored blocks ls ->
  (forall b r, fst tl = Row b r -> (r < 2)%nat) ->
  rowAnchored blocks (ls ++ [tl]).
Proof.
  intros A N i b r s H R.
  destruct (Nat.lt_ge_cases i (List.length ls)) as [L|L].
  - rewrite nth_error_app1 in H by assumption.
    apply rowAnchored_lift; [assumption | eapply A; eassumption].
  - rewrite nth_error_app2 in H by assumption.
    destruct (i - List.length ls)%nat as [|k]; cbn in H.
    + injection H as H. subst tl. specialize (N b r eq_refl). lia.
    + destruct k; discriminate H.
Qed.

(** Appending the row that follows the last line. *)
Lemma rowAnchored_snoc_row ls b r s :
  rowAnchored blocks ls -> rowFollows b r ls ->
  rowAnchored blocks (ls ++ [(Row b r, s)]).
Proof.
  intros A [F|[ls0 [s' F]]].
  - apply rowAnchored_snoc_other; [assumption|].
    intros b' r' E. cbn in E. injection E as _ <-. assumption.
  - intros i b' r' s0 H R.
    destruct (Nat.lt_ge_cases i (List.length ls)) as [L|L].
    + rewrite nth_error_app1 in H by assumption.
      apply rowAnchored_lift; [assumption | eapply A; eassumption].
    + rewrite nth_error_app2 in H by assumption.
      destruct (i - List.length ls)%nat as [|k] eqn:K; cbn in H.
      * injection H as H1 H2 H3. subst b' r' s0.
        left. exists s'. assert (i = List.length ls) by lia. subst i ls.
        rewrite length_app. cbn [List.length]. split; [lia|].
        replace (List.length ls0 + 1 - 1)%nat with (List.length ls0) by lia.
        rewrite <- app_assoc. rewrite nth_error_app2 by lia.
        now rewrite Nat.sub_diag.
      * destruct k; discriminate H.
Qed.

Lemma rowFollows_snoc ls b r s : rowFollows b (S r) (ls ++ [(Row b r, s)]).
Proof. right. exists ls, s. now rewrite Nat.sub_succ, Nat.sub_0_r. Qed.

(** A fresh page that starts with the re-emitted header. *)
Lemma rowAnchored_header b blk h0 h1 r s :
  nth_error blocks b = Some blk ->
  firstn 2 (content blk) = [h0; h1] ->
  rowAnchored blocks [(Hdr b 0, h0); (Hdr b 1, h1); (Row b r, s)].
Proof.
  intros Hb Hc i b' r' s' H R.
  destruct i as [|[|[|i]]]; cbn in H; try discriminate H.
  - injection H as -> -> ->. right. split; [reflexivity|].
    exists blk, h0, h1. repeat split; assumption.
  - destruct i; discriminate H.
Qed.

Lemma anc_pushPage st : AnchorInv blocks st -> AnchorInv blocks (tPushPage st).
Proof.
  intros [A1 A2]. constructor; cbn [tPushPage tpages tcur].
  - apply Forall_app; split; [assumption | now constructor].
  - apply rowAnchored_nil.
Qed.

Lemma anc_add_other tl h st :
  AnchorInv blocks st ->
  (forall b r, fst tl = Row b r -> (r < 2)%nat) ->
  AnchorInv blocks (tAddLines [tl] h st).
Proof.
  intros [A1 A2] N. constructor; cbn [tAddLines tpages tcur]; [assumption|].
  now apply rowAnchored_snoc_other.
Qed.

Lemma anc_placeVisual vls : forall st,
  AnchorInv blocks st -> AnchorInv blocks (tPlaceVisual pxPerLine vls st).
Proof.
  induction vls as [|v rest IH]; intros st A; cbn [tPlaceVisual]; [exact A|].
  apply IH. apply anc_add_other; [|discriminate].
  destruct (Qgtb _ _); [now apply anc_pushPage | exact A].
Qed.

(** Appending the rows of a table that fits as a whole. *)
Lemma rowAnchored_tagRows b rows : forall r ls,
  rowAnchored blocks ls -> rowFollows b r ls ->
  rowAnchored blocks (ls ++ tagRows b r rows).
Proof.
  induction rows as [|row rest IH]; intros r ls A F; cbn [tagRows].
  - now rewrite app_nil_r.
  - change ((Row b r, row) :: tagRows b (S r) rest)
      with ([(Row b r, row)] ++ tagRows b (S r) rest).
    rewrite app_assoc. apply IH.
    + now apply rowAnchored_snoc_row.
    + apply rowFollows_snoc.
Qed.

Lemma skipn_step {A : Type} (r : nat) (l : list A) x xs :
  skipn r l = x :: xs -> skipn (S r) l = xs /\ (r < List.length l)%nat.
Proof.
  revert l; induction r as [|r IH]; intros [|y l] H; cbn in *;
    try discriminate H.
  - injection H as _ ->. split; [reflexivity | lia].
  - destruct (IH l H) as [H1 H2]. split; [exact H1 | lia].
Qed.

Lemma firstn_two {A : Type} (l : list A) :
  (2 <= List.length l)%nat -> exists h0 h1, firstn 2 l = [h0; h1].
Proof.
  destruct l as [|h0 [|h1 l]]; cbn; intros L; try lia. eauto.
Qed.

Lemma anc_splitRows b blk rows : forall r st,
  nth_error blocks b = Some blk ->
  skipn r (content blk) = rows ->
  AnchorInv blocks st -> rowFollows b r (tcur st) ->
  AnchorInv blocks
    (tSplitRows pxPerLine b (firstn 2 (content blk)) r rows st).
Proof.
  induction rows as [|row rest IH]; intros r st Hb Hs A F; cbn [tSplitRows];
    [exact A|].
  destruct (skipn_step _ _ _ _ Hs) as [Hs' Hlen].
  destruct (Qgtb _ _).
  - destruct (negb (r <? 2)%nat
              && (List.length (firstn 2 (content blk)) =? 2)%nat) eqn:C.
    + apply andb_true_iff in C as [C1 C2].
      apply negb_true_iff, Nat.ltb_ge in C1.
      destruct (firstn_two (content blk)) as [h0 [h1 Hh]]; [lia|].
      apply IH; try assumption.
      * destruct (anc_pushPage _ A) as [A1 _]. rewrite Hh.
        constructor; cbn [tAddLines tPushPage tpages tcur tagHdrs app] in *;
          [exact A1|].
        eapply rowAnchored_header; eassumption.
      * rewrite Hh. cbn [tAddLines tPushPage tcur tagHdrs app].
        apply (rowFollows_snoc [(Hdr b 0, h0); (Hdr b 1, h1)]).
    + assert (R : (r < 2)%nat).
      { apply andb_false_iff in C as [C|C].
        - now apply negb_false_iff, Nat.ltb_lt in C.
        - apply Nat.eqb_neq in C. rewrite length_firstn in C. lia. }
      apply IH; try assumption.
      * apply anc_add_other; [now apply anc_pushPage|].
        intros b' r' E. cbn in E. injection E as _ <-. exact R.
      * apply (rowFollows_snoc []).
  - apply IH; try assumption.
    + destruct A as [A1 A2]. constructor; cbn [tAddLines tpages tcur];
        [assumption|]. now apply rowAnchored_snoc_row.
    + apply rowFollows_snoc.
Qed.

Lemma anc_processBlock b st block :
  nth_error blocks b = Some block ->
  AnchorInv blocks st ->
  AnchorInv blocks (tProcessBlock pxPerLine charsPerLine b st block).
Proof.
  intros Hb A. unfold tProcessBlock. destruct (type block).
  - destruct (isHeaderLine _); [|now apply anc_placeVisual].
    apply anc_add_other; [|discriminate].
    destruct (Qgtb _ _); [now apply anc_pushPage | exact A].
  - destruct (Qle_bool _ _).
    + assert (A1 : AnchorInv blocks
                     (if nonEmpty (tcur st)
                      then tAddLines [(Spacer, EmptyString)] pxPerLine st
                      else st)).
      { destruct (nonEmpty _); [|exact A]. apply anc_add_other; [exact A|].
        discriminate. }
      destruct A1 as [A1 A2]. constructor; cbn [tAddLines tpages tcur];
        [exact A1|].
      apply rowAnchored_tagRows; [exact A2 | left; lia].
    + eapply anc_splitRows; [exact Hb | reflexivity | | left; lia].
      destruct (nonEmpty _ && _); [|exact A]. apply anc_add_other; [exact A|].
      discriminate.
  - apply anc_add_other; [|discriminate].
    destruct (Qgtb _ _); [now apply anc_pushPage | exact A].
Qed.

Lemma anc_run rest : forall b st,
  (forall k blk, nth_error rest k = Some blk ->
                 nth_error blocks (b + k) = Some blk) ->
  AnchorInv blocks st ->
  AnchorInv blocks (tRun pxPerLine charsPerLine b rest st).
Proof.
  induction rest as [|block rest IH]; intros b st Hk A; cbn [tRun]; [exact A|].
  apply IH.
  - intros k blk H. replace (S b + k)%nat with (b + S k)%nat by lia.
    now apply Hk.
  - apply anc_processBlock; [|exact A].
    rewrite <- (Nat.add_0_r b). now apply Hk.
Qed.

Lemma anc_finish st :
  AnchorInv blocks st ->
  Forall (fun p => rowAnchored blocks (plines p)) (tFinish st).
Proof.
  intros [A1 A2]. unfold tFinish.
  assert (E : Forall (fun p => rowAnchored blocks (plines p)) [mkTPage [] 0]).
  { constructor; [apply rowAnchored_nil | constructor]. }
  destruct (nonEmpty (tcur st)).
  - assert (F : Forall (fun p => rowAnchored blocks (plines p))
                  (tpages st ++ [mkTPage (tcur st) (tused st)])).
    { apply Forall_app; split; [assumption | now constructor]. }
    destruct (nonEmpty _); assumption.
  - destruct (nonEmpty _); assumption.
Qed.

End Anchor.

(** C3, as stated, fails.  At 100 px per line ten lines fit a page: eight
    paragraph lines, the spacer and the label row fill the first page,
    the page is sealed while the separator row is being placed, and the
    second page is the separator row followed by the data rows, with no
    label row in front. *)
Lemma C3_counterexample :
  ~ (forall text fontSize lineHeight,
        0 < fontSize -> 0 < lineHeight ->
        headerContinuity (segment (Str.split Str.newline text))
          (paginateTrace text fontSize lineHeight)).
Proof.
  intros H.
  specialize (H (doc ["a"; "a"; "a"; "a"; "a"; "a"; "a"; "a";
                      "|h|"; "|-|"; "|1|"; "|2|"]) 100 1 eq_refl eq_refl).
  specialize (H 8%nat (mkBlock table ["|h|"; "|-|"; "|1|"; "|2|"]) 0%nat 1%nat).
  vm_compute in H.
  specialize (H _ _ eq_refl eq_refl (Nat.le_refl 1) eq_refl eq_refl eq_refl eq_refl).
  discriminate H.
Qed.

(** C3, amended.  The pages of [paginateText] are the annotated pages
    with the annotations dropped, and on every page each table data row
    (a row other than the first two of its block) is directly preceded by the previous row
    of the same table, or it is the third line of the page, directly
    after the two header lines of its table, re-emitted verbatim as the
    first two lines of the page.  So a page that is opened while a data
    row is being placed begins with the two header lines; a page that is
    opened while the label or the separator row is being placed begins
    with that row and gets no re-emitted header. *)
Theorem C3_header_continuity (text : string) (fontSize lineHeight : Q) :
  map render (paginateTrace text fontSize lineHeight)
  = paginateText text fontSize lineHeight
  /\ Forall (fun p =>
               rowAnchored (segment (Str.split Str.newline text)) (plines p))
       (paginateTrace text fontSize lineHeight).
Proof.
  split; [apply paginateTrace_erase|].
  destruct text as [|c s].
  - constructor; [|constructor]. intros [|[|i]] b r s0 H; discriminate H.
  - unfold paginateTrace, tAssemble. apply anc_finish, anc_run.
    + intros k blk H. exact H.
    + constructor; [constructor | apply rowAnchored_nil].
Qed.

(** ** C7: the page count against the font size *)

Ltac dom_cases :=
  constructor; cbn [pages currentPageLines currentHeightUsed];
  rewrite ?nonEmpty_snoc, ?length_pages_pushPage, ?used_pushPage;
  repeat match goal with
         | E : Qgtb _ _ = true |- _ => apply Qgtb_true in E
         | E : Qgtb _ _ = false |- _ => apply Qgtb_false in E
         end.

(** One unit in each run, the unit of run 2 at least as tall. *)
Lemma dom_place h1 h2 l1 l2 s1 s2 :
  Dominates s1 s2 -> 0 <= h1 -> h1 <= h2 ->
  Dominates (place h1 l1 s1) (place h2 l2 s2).
Proof.
  intros [U1 U2 C P] H1 H12. unfold place.
  destruct (Qgtb (currentHeightUsed s1 + h1) AVAILABLE_HEIGHT) eqn:E1;
    destruct (Qgtb (currentHeightUsed s2 + h2) AVAILABLE_HEIGHT) eqn:E2;
    dom_cases; try reflexivity; try lra.
  - destruct P as [P|[P Q]]; [left; lia | right; split; [lia | lra]].
  - destruct P as [P|[P Q]].
    + destruct (Nat.eq_dec (S (List.length (pages s1))) (List.length (pages s2)))
        as [Eq|Ne]; [right; split; [exact Eq | lra] | left; lia].
    + exfalso. lra.
  - destruct P as [P|[P Q]]; left; lia.
  - destruct P as [P|[P Q]]; [left; lia | right; split; [lia | lra]].
Qed.

(** One more unit in run 2 only. *)
Lemma dom_extra h2 l2 s1 s2 :
  Dominates s1 s2 -> nonEmpty (currentPageLines s1) = true -> 0 <= h2 ->
  Dominates s1 (place h2 l2 s2).
Proof.
  intros [U1 U2 C P] N H2. unfold place.
  destruct (Qgtb (currentHeightUsed s2 + h2) AVAILABLE_HEIGHT) eqn:E2;
    dom_cases; try assumption; try lra.
  - destruct P as [P|[P Q]]; left; lia.
  - destruct P as [P|[P Q]]; [left; lia | right; split; [lia | lra]].
Qed.

Lemma dom_placeVisual_extra px2 vls2 : forall s1 s2,
  Dominates s1 s2 -> nonEmpty (currentPageLines s1) = true -> 0 <= px2 ->
  Dominates s1 (placeVisual px2 vls2 s2).
Proof.
  induction vls2 as [|v rest IH]; intros s1 s2 D N H; [exact D|].
  rewrite placeVisual_place. apply IH; [|assumption..].
  now apply dom_extra.
Qed.

(** The visual lines of one paragraph in each run, run 2 with at least
    as many. *)
Lemma dom_placeVisual px1 px2 vls1 : forall vls2 s1 s2,
  Dominates s1 s2 -> 0 <= px1 -> px1 <= px2 ->
  vls1 <> [] ->
  (List.length vls1 <= List.length vls2)%nat ->
  Dominates (placeVisual px1 vls1 s1) (placeVisual px2 vls2 s2).
Proof.
  induction vls1 as [|v1 r1 IH]; intros vls2 s1 s2 D H1 H12 N L;
    [congruence|].
  destruct vls2 as [|v2 r2]; [cbn in L; lia|].
  rewrite !placeVisual_place.
  pose proof (dom_place px1 px2 v1 v2 s1 s2 D H1 H12) as D'.
  destruct r1 as [|v1' r1].
  - cbn [placeVisual]. apply dom_placeVisual_extra;
      [exact D' | apply nonEmpty_place | lra].
  - apply IH; try assumption; [discriminate | cbn in *; lia].
Qed.

(** A smaller [max] never gives fewer visual lines. *)
Lemma leExt_mono n n' m m' :
  extLe m m' -> (n' <= n)%Z -> leExt n m = true -> leExt n' m' = true.
Proof.
  destruct m as [x|], m' as [y|]; cbn; intros H L E; try reflexivity;
    try contradiction.
  apply Z.leb_le in E. apply Z.leb_le. lia.
Qed.

Lemma wrapLoop_length_mono m1 m2 ws :
  extLe m2 m1 ->
  forall w1 c1 w2 c2,
    (List.length w1 < List.length w2)%nat
    \/ (List.length w1 = List.length w2 /\ (Str.len c1 <= Str.len c2)%Z) ->
    (List.length (wrapLoop m1 ws w1 c1) <= List.length (wrapLoop m2 ws w2 c2))%nat.
Proof.
  intros M. induction ws as [|word rest IH]; intros w1 c1 w2 c2 D;
    cbn [wrapLoop].
  - rewrite !length_app. cbn [List.length]. lia.
  - pose proof (StrFacts.len_nonneg c2) as N2.
    pose proof (StrFacts.len_nonneg word) as Nw.
    destruct (leExt (Str.len c1 + 1 + Str.len word) m1) eqn:E1;
      destruct (leExt (Str.len c2 + 1 + Str.len word) m2) eqn:E2;
      apply IH; rewrite ?length_app; cbn [List.length];
      change (String Str.space word)
        with (String Str.space EmptyString ++ word)%string;
      rewrite ?StrFacts.len_app, ?StrFacts.len_cons;
      change (Str.len EmptyString) with 0%Z.
    + destruct D as [D|[D L]]; [left; lia | right; split; [lia | lia]].
    + destruct D as [D|[D L]]; left; lia.
    + destruct D as [D|[D L]].
      * destruct (Nat.eq_dec (List.length w1 + 1) (List.length w2)) as [Eq|Ne];
          [right; split; [exact Eq | lia] | left; lia].
      * exfalso.
        assert (leExt (Str.len c1 + 1 + Str.len word) m1 = true)
          by (eapply leExt_mono; [exact M | | exact E2]; lia).
        congruence.
    + destruct D as [D|[D L]]; [left; lia | right; split; [lia | lia]].
Qed.

Lemma wrapText_length_mono str m1 m2 :
  extLe m2 m1 ->
  (List.length (wrapText str m1) <= List.length (wrapText str m2))%nat.
Proof.
  intros M. unfold wrapText.
  destruct (leExt (Str.len str) m1) eqn:E1.
  - pose proof (wrapText_nonempty str m2) as N. unfold wrapText in N.
    destruct (leExt (Str.len str) m2); [cbn; lia|].
    destruct (wrapLoop m2 _ _ _); [congruence | cbn; lia].
  - destruct (leExt (Str.len str) m2) eqn:E2.
    + assert (leExt (Str.len str) m1 = true)
        by (eapply leExt_mono; [exact M | | exact E2]; lia).
      congruence.
    + apply wrapLoop_length_mono; [exact M|]. right. split; [reflexivity | lia].
Qed.

(** A larger font gives no more characters per line. *)
Lemma charsPerLine_antitone f1 f2 :
  0 < f1 -> f1 <= f2 -> extLe (charsPerLineOf f2) (charsPerLineOf f1).
Proof.
  intros P L. unfold charsPerLineOf.
  assert (A1 : 0 < avgCharWidthOf f1) by (unfold avgCharWidthOf; lra).
  assert (A2 : avgCharWidthOf f1 <= avgCharWidthOf f2)
    by (unfold avgCharWidthOf; lra).
  destruct (Qeq_bool (avgCharWidthOf f1) 0) eqn:E1;
    [apply Qeq_bool_iff in E1; lra|].
  destruct (Qeq_bool (avgCharWidthOf f2) 0) eqn:E2;
    [apply Qeq_bool_iff in E2; lra|].
  cbn [extLe]. apply Qfloor_resp_le.
  set (a1 := avgCharWidthOf f1) in *. set (a2 := avgCharWidthOf f2) in *.
  assert (W : 0 <= USABLE_WIDTH) by (vm_compute; discriminate).
  apply Qle_shift_div_l; [exact A1|].
  assert (Q2 : 0 <= USABLE_WIDTH / a2).
  { apply Qle_shift_div_l; lra. }
  assert (Eq : USABLE_WIDTH / a2 * a2 == USABLE_WIDTH).
  { field. intros Z. lra. }
  rewrite <- Eq at 2.
  rewrite (Qmult_comm _ a1), (Qmult_comm _ a2).
  apply Qmult_le_compat_r; assumption.
Qed.

(** Without table lines every block is a one-line block. *)
Lemma segment_no_table rawLines :
  Forall (fun line => isTableLine line = false) rawLines ->
  segment rawLines
  = map (fun line => mkBlock (if isHrLine line then hr else text) [line]) rawLines.
Proof.
  induction 1 as [|line rest H _ IH]; [reflexivity|].
  now rewrite (segment_other _ _ H), IH.
Qed.

Section Monotone.

Variables px1 px2 : Q.
Variables cpl1 cpl2 : ExtZ.
Hypothesis px1_nonneg : 0 <= px1.
Hypothesis px_le : px1 <= px2.
Hypothesis cpl_le : extLe cpl2 cpl1.

Lemma dom_processLine line s1 s2 :
  Dominates s1 s2 ->
  Dominates
    (processBlock px1 cpl1 s1 (mkBlock (if isHrLine line then hr else text) [line]))
    (processBlock px2 cpl2 s2 (mkBlock (if isHrLine line then hr else text) [line])).
Proof.
  intros D. unfold processBlock.
  destruct (isHrLine line); cbn [type content hd].
  - rewrite !place_addLines. apply dom_place; [exact D | |];
      unfold getLineHeight; lra.
  - destruct (isHeaderLine line).
    + rewrite !place_addLines. apply dom_place; [exact D | |];
        unfold getLineHeight; lra.
    + apply dom_placeVisual; try assumption.
      * apply wrapText_nonempty.
      * now apply wrapText_length_mono.
Qed.

Lemma dom_fold lines : forall s1 s2,
  Dominates s1 s2 ->
  Dominates
    (fold_left (processBlock px1 cpl1)
       (map (fun line => mkBlock (if isHrLine line then hr else text) [line]) lines)
       s1)
    (fold_left (processBlock px2 cpl2)
       (map (fun line => mkBlock (if isHrLine line then hr else text) [line]) lines)
       s2).
Proof.
  induction lines as [|line rest IH]; intros s1 s2 D; cbn [map fold_left];
    [exact D|].
  apply IH. now apply dom_processLine.
Qed.

Lemma assemble_length_mono lines :
  (List.length
     (assemble px1 cpl1
        (map (fun line => mkBlock (if isHrLine line then hr else text) [line]) lines))
   <= List.length
        (assemble px2 cpl2
           (map (fun line => mkBlock (if isHrLine line then hr else text) [line])
              lines)))%nat.
Proof.
  assert (D0 : Dominates initState initState).
  { constructor; cbn; try lra; try reflexivity. right. split; [reflexivity | lra]. }
  destruct (dom_fold lines _ _ D0) as [_ _ C P]. unfold assemble.
  set (t1 := fold_left (processBlock px1 cpl1) _ initState) in *.
  set (t2 := fold_left (processBlock px2 cpl2) _ initState) in *.
  assert (L : (List.length (pages t1) <= List.length (pages t2))%nat)
    by (destruct P as [P|[P _]]; lia).
  rewrite <- C.
  destruct (nonEmpty (currentPageLines t1)).
  - destruct (pages t1), (pages t2); cbn [app nonEmpty List.length] in *;
      rewrite ?length_app; cbn [List.length]; lia.
  - destruct (pages t1), (pages t2); cbn [nonEmpty List.length] in *; lia.
Qed.

End Monotone.

(** C7, as stated, fails.  The paragraph of 16 characters is one visual
    line at 94 px (16 per line) and two at 100 px (15 per line); ten
    lines fit a page at both sizes.  At 94 px the table starts one line
    earlier, is cut after its separator row, and each continuation page
    spends two lines on the re-emitted header: three pages.  At 100 px
    the cut falls between label and separator row, nothing is re-emitted:
    two pages. *)
Lemma C7_counterexample :
  ~ (forall text lineHeight fontSize1 fontSize2,
        0 < fontSize1 -> fontSize1 <= fontSize2 -> 0 < lineHeight ->
        (List.length (paginateText text fontSize1 lineHeight)
         <= List.length (paginateText text fontSize2 lineHeight))%nat).
Proof.
  intros H.
  specialize (H (doc ["a"; "a"; "a"; "a"; "a"; "a"; "aaaaaaaa bbbbbbb";
                      "|h|"; "|-|"; "|1|"; "|2|"; "|3|"; "|4|"; "|5|"; "|6|";
                      "|7|"; "|8|"; "|9|"])
                1 94 100 eq_refl).
  assert (L : 94 <= 100) by (vm_compute; discriminate).
  specialize (H L eq_refl). vm_compute in H. lia.
Qed.

(** C7, amended.  For a text without table lines, a positive line height
    and positive font sizes [fontSize1 <= fontSize2], [paginateText]
    returns no more pages at [fontSize1] than at [fontSize2]. *)
Theorem C7_monotonic_page_count
    (text : string) (lineHeight fontSize1 fontSize2 : Q) :
  noTableLine text ->
  0 < lineHeight -> 0 < fontSize1 -> fontSize1 <= fontSize2 ->
  (List.length (paginateText text fontSize1 lineHeight)
   <= List.length (paginateText text fontSize2 lineHeight))%nat.
Proof.
  intros T Hl H1 H12. destruct text as [|c s]; [cbn; lia|].
  unfold paginateText. unfold noTableLine in T.
  rewrite (segment_no_table _ T).
  apply assemble_length_mono.
  - unfold pxPerLineOf. apply Qmult_le_0_compat; lra.
  - unfold pxPerLineOf. apply Qmult_le_compat_r; lra.
  - now apply charsPerLine_antitone.
Qed.

Lemma C7_monotonic_page_count_witness :
  (List.length (paginateText (doc ["# Title"; "---"; "some words here"]) 22 (16 # 10))
   <= List.length (paginateText (doc ["# Title"; "---"; "some words here"]) 40 (16 # 10)))%nat.
Proof.
  apply (C7_monotonic_page_count
           (doc ["# Title"; "---"; "some words here"]) (16 # 10) 22 40).
  - unfold noTableLine. vm_compute. repeat constructor.
  - reflexivity.
  - reflexivity.
  - vm_compute. discriminate.
Defined.

(** ** C6: paginating a page again *)

Lemma takeTable_app T X :
  Forall (fun l => isTableLine l = true) T -> headNonTable X ->
  takeTable (T ++ X) = T /\ dropTable (T ++ X) = X.
Proof.
  intros F H. induction F as [|l T Hl _ IH]; cbn [app takeTable dropTable].
  - destruct X as [|x X]; [split; reflexivity|].
    cbn in H. cbn [takeTable dropTable]. rewrite H. split; reflexivity.
  - rewrite Hl. destruct IH as [-> ->]. split; reflexivity.
Qed.

Lemma Forall_dropTable (P : string -> Prop) ls :
  Forall P ls -> Forall P (dropTable ls).
Proof.
  induction 1 as [|l ls Hl F IH]; cbn [dropTable]; [constructor|].
  destruct (isTableLine l); [exact IH | now constructor].
Qed.

Lemma isPlainLine_inv line :
  isPlainLine line = true ->
  isTableLine line = false /\ isHrLine line = false /\ isHeaderLine line = false.
Proof.
  unfold isPlainLine. rewrite !andb_true_iff, !negb_true_iff. tauto.
Qed.

Section Rerun.

Variable pxPerLine : Q.
Variable charsPerLine : ExtZ.

Lemma emitted_head rest :
  visualPlain charsPerLine rest ->
  headNonTable (flat_map (emitted charsPerLine) (dropTable rest)).
Proof.
  intros V. apply Forall_dropTable in V.
  pose proof (dropTable_start rest) as S.
  destruct (dropTable rest) as [|l ls]; [exact I|].
  cbn [flat_map]. inversion V as [|? ? Vl _]; subst.
  unfold emitted. destruct (isPlainLine l) eqn:E; [|exact S].
  specialize (Vl eq_refl).
  pose proof (wrapText_nonempty l charsPerLine) as N.
  destruct (wrapText l charsPerLine) as [|v vs]; [contradiction|].
  inversion Vl as [|? ? Hv _]; subst. cbn.
  now apply isPlainLine_inv in Hv.
Qed.

(** A visual line wraps to itself. *)
Lemma wrapText_fixed v :
  fitsOrSingle charsPerLine v -> wrapText v charsPerLine = [v].
Proof.
  intros [H|H]; unfold wrapText.
  - now rewrite H.
  - destruct (leExt _ charsPerLine); [reflexivity|].
    now rewrite (StrFacts.split_no_sep_id _ _ H).
Qed.

(** The blocks of a run of plain visual lines: one text block each. *)
Lemma segment_plain vls Y :
  Forall (fun v => isPlainLine v = true) vls ->
  segment (vls ++ Y) = map (fun v => mkBlock text [v]) vls ++ segment Y.
Proof.
  induction 1 as [|v vls Hv _ IH]; [reflexivity|].
  apply isPlainLine_inv in Hv as [Ht [Hh _]].
  cbn [app map]. rewrite (segment_other _ _ Ht), Hh, IH. reflexivity.
Qed.

(** Processing the visual lines as paragraphs of their own places them
    as the paragraph they came from was placed. *)
Lemma run_plain vls : forall st,
  Forall (fun v => isPlainLine v = true) vls ->
  Forall (fitsOrSingle charsPerLine) vls ->
  runBlocks pxPerLine charsPerLine (map (fun v => mkBlock text [v]) vls) st
  = placeVisual pxPerLine vls st.
Proof.
  induction vls as [|v vls IH]; intros st P F; [reflexivity|].
  inversion P as [|? ? Pv Pvs]; inversion F as [|? ? Fv Fvs]; subst.
  unfold runBlocks in *. cbn [map fold_left]. rewrite (IH _ Pvs Fvs).
  rewrite placeVisual_place. f_equal.
  unfold processBlock; cbn [type content hd].
  apply isPlainLine_inv in Pv as [_ [_ Hh]]. rewrite Hh.
  now rewrite (wrapText_fixed _ Fv).
Qed.

Lemma runBlocks_app bs cs st :
  runBlocks pxPerLine charsPerLine (bs ++ cs) st
  = runBlocks pxPerLine charsPerLine cs (runBlocks pxPerLine charsPerLine bs st).
Proof. apply fold_left_app. Qed.

(** The blocks of the emitted lines drive the page assembly exactly as
    the blocks of the lines themselves. *)
Lemma rerun rawLines :
  visualPlain charsPerLine rawLines ->
  forall st,
    runBlocks pxPerLine charsPerLine
      (segment (flat_map (emitted charsPerLine) rawLines)) st
    = runBlocks pxPerLine charsPerLine (segment rawLines) st.
Proof.
  induction rawLines as [|line rest Htab IH|line rest Hoth IH] using lines_run_ind;
    intros V st.
  - reflexivity.
  - inversion V as [|? ? _ Vrest]; subst.
    cbn [flat_map]. rewrite (emitted_table _ _ Htab), (emitted_takeTable _ rest).
    cbn [app]. rewrite !(segment_table _ _ Htab).
    destruct (takeTable_app (takeTable rest)
                (flat_map (emitted charsPerLine) (dropTable rest))
                (takeTable_all rest) (emitted_head rest Vrest)) as [-> ->].
    unfold runBlocks in *. cbn [fold_left]. apply IH.
    now apply Forall_dropTable.
  - inversion V as [|? ? Vl Vrest]; subst. cbn [flat_map].
    unfold emitted at 1. destruct (isPlainLine line) eqn:E.
    + specialize (Vl eq_refl).
      rewrite (segment_plain _ _ Vl), runBlocks_app.
      rewrite (run_plain _ _ Vl (wrapText_fits line charsPerLine)).
      rewrite (IH Vrest).
      rewrite (segment_other _ _ Hoth).
      apply isPlainLine_inv in E as [_ [Hh Hd]]. rewrite Hh.
      unfold runBlocks. cbn [fold_left]. f_equal.
      unfold processBlock; cbn [type content hd]. now rewrite Hd.
    + cbn [app]. rewrite !(segment_other _ _ Hoth).
      unfold runBlocks in *. cbn [fold_left]. apply IH. exact Vrest.
Qed.

End Rerun.

Lemma split_oneLine sep s :
  oneLine s -> Forall oneLine (Str.split sep s).
Proof.
  unfold oneLine. induction s as [|c s IH]; intros H; cbn [Str.split].
  - constructor; [reflexivity | constructor].
  - cbn [Str.mem] in H. apply orb_false_iff in H as [Hc Hs].
    specialize (IH Hs). pose proof (StrFacts.split_nonempty sep s) as N.
    destruct (Ascii.eqb c sep).
    + constructor; [reflexivity | exact IH].
    + destruct (Str.split sep s) as [|w ws]; [contradiction|].
      inversion IH; subst. constructor; [|assumption].
      cbn [Str.mem]. now rewrite Hc.
Qed.

Lemma wrapLoop_oneLine max ws : forall wrapped current,
  Forall oneLine ws -> Forall oneLine wrapped -> oneLine current ->
  Forall oneLine (wrapLoop max ws wrapped current).
Proof.
  induction ws as [|word rest IH]; intros wrapped current W F C;
    cbn [wrapLoop].
  - apply Forall_app; split; [assumption | now constructor].
  - inversion W as [|? ? Hw Hrest]; subst. destruct (leExt _ max).
    + apply IH; try assumption. unfold oneLine in *.
      rewrite StrFacts.mem_app. cbn [Str.mem]. now rewrite C, Hw.
    + apply IH; try assumption.
      apply Forall_app; split; [assumption | now constructor].
Qed.

Lemma wrapText_oneLine str max : oneLine str -> Forall oneLine (wrapText str max).
Proof.
  intros H. unfold wrapText. destruct (leExt _ max).
  - now constructor.
  - pose proof (split_oneLine Str.space str H) as F.
    pose proof (StrFacts.split_nonempty Str.space str) as N.
    destruct (Str.split Str.space str) as [|w0 ws]; [contradiction|].
    inversion F; subst. cbn [hd tl]. apply wrapLoop_oneLine; auto.
Qed.

Lemma emitted_oneLine cpl rawLines :
  Forall oneLine rawLines -> Forall oneLine (flat_map (emitted cpl) rawLines).
Proof.
  induction 1 as [|line rest H _ IH]; cbn [flat_map]; [constructor|].
  apply Forall_app; split; [|exact IH].
  unfold emitted. destruct (isPlainLine line);
    [now apply wrapText_oneLine | now constructor].
Qed.

Lemma emitted_nonempty cpl rawLines :
  rawLines <> [] -> flat_map (emitted cpl) rawLines <> [].
Proof.
  destruct rawLines as [|line rest]; [congruence|]. intros _.
  cbn [flat_map]. unfold emitted.
  pose proof (wrapText_nonempty line cpl) as N.
  destruct (isPlainLine line); [|discriminate].
  destruct (wrapText line cpl); [contradiction | discriminate].
Qed.

Lemma origOf_all ls :
  Forall (fun tl : TLine => isOriginal (fst tl) = true) ls -> origOf ls = ls.
Proof.
  unfold origOf. induction 1 as [|tl ls H _ IH]; cbn [filter];
    [reflexivity | now rewrite H, IH].
Qed.

Lemma visualPlain_table cpl T X :
  Forall (fun l => isTableLine l = true) T ->
  visualPlain cpl X -> visualPlain cpl (T ++ X).
Proof.
  intros F V. unfold visualPlain. apply Forall_app; split; [|exact V].
  apply (Forall_impl _ (P := fun l => isTableLine l = true)); [|exact F].
  intros l Hl Hp. apply isPlainLine_inv in Hp as [Hp _]. congruence.
Qed.

(** The visual lines of the annotated run are the visual lines of the
    paragraphs. *)
Lemma visualPlain_of_trace cpl rawLines : forall b,
  Forall (fun tl : TLine => fst tl = Visual -> isPlainLine (snd tl) = true)
    (emitAllT cpl b (segment rawLines)) ->
  visualPlain cpl rawLines.
Proof.
  induction rawLines as [|line rest Htab IH|line rest Hoth IH] using lines_run_ind;
    intros b F.
  - constructor.
  - rewrite (segment_table _ _ Htab) in F. cbn [emitAllT] in F.
    apply Forall_app in F as [_ F]. apply IH in F.
    rewrite <- (take_drop_table rest).
    apply (visualPlain_table cpl (line :: takeTable rest)); [|exact F].
    constructor; [exact Htab | apply takeTable_all].
  - rewrite (segment_other _ _ Hoth) in F. cbn [emitAllT] in F.
    apply Forall_app in F as [Fl F]. apply IH in F.
    constructor; [|exact F]. intros Hp.
    apply isPlainLine_inv in Hp as [_ [Hh Hd]].
    unfold emitT in Fl. rewrite Hh in Fl. cbn [type content hd] in Fl.
    rewrite Hd in Fl. rewrite Forall_map in Fl.
    apply (Forall_impl _ (P := fun v => fst (Visual, v) = Visual ->
                                        isPlainLine (snd (Visual, v)) = true));
      [|exact Fl].
    intros v Hv. now apply Hv.
Qed.

(** C6, as stated, fails: the one page of a paragraph followed by a
    table holds the inserted spacer, which the second run reads as an
    empty paragraph and in front of the table adds another spacer. *)
Lemma C6_counterexample :
  ~ (forall text fontSize lineHeight P,
        paginateText text fontSize lineHeight = [P] ->
        paginateText P fontSize lineHeight = [P]).
Proof.
  intros H.
  specialize (H (doc ["a"; "|x|"]) defaultFontSize defaultLineHeight
                (doc ["a"; ""; "|x|"]) eq_refl).
  vm_compute in H. discriminate H.
Qed.

(** The same happens without a table: a visual line cut off a wrapped
    paragraph can read as a heading, which the second run charges one
    and a half lines and moves to a second page. *)
Lemma C6_wrapped_heading_drifts :
  paginateText
    (doc ["a"; "a"; "a"; "a"; "a"; "a"; "a"; "a"; "xxxxxxxxxxxxxxx # y"]) 100 1
  = [doc ["a"; "a"; "a"; "a"; "a"; "a"; "a"; "a"; "xxxxxxxxxxxxxxx"; "# y"]]
  /\ paginateText
       (doc ["a"; "a"; "a"; "a"; "a"; "a"; "a"; "a"; "xxxxxxxxxxxxxxx"; "# y"])
       100 1
     = [doc ["a"; "a"; "a"; "a"; "a"; "a"; "a"; "a"; "xxxxxxxxxxxxxxx"]; "# y"].
Proof. split; vm_compute; reflexivity. Qed.

(** C6, amended.  When [paginateText(D, f, l)] is a single page on which
    every line is an input line or a visual line of one (no spacer was
    inserted) and no visual line reads as a table row, a rule or a
    heading, then paginating that page again with the same parameters
    returns that one page unchanged. *)
Theorem C6_idempotence
    (text : string) (fontSize lineHeight : Q) (p : TPage) :
  paginateTrace text fontSize lineHeight = [p] ->
  Forall steadyLine (plines p) ->
  paginateText text fontSize lineHeight = [render p]
  /\ paginateText (render p) fontSize lineHeight = [render p].
Proof.
  intros Hp Hs.
  assert (H1 : paginateText text fontSize lineHeight = [render p]).
  { rewrite <- paginateTrace_erase, Hp. reflexivity. }
  split; [exact H1|].
  destruct (string_dec text EmptyString) as [Et|Et].
  { subst text. cbn in Hp. injection Hp as <-. reflexivity. }
  set (cpl := charsPerLineOf fontSize).
  set (rawLines := Str.split Str.newline text).
  assert (Ho : Forall (fun tl : TLine => isOriginal (fst tl) = true) (plines p)).
  { apply (Forall_impl _ (P := steadyLine)); [|exact Hs]. now intros tl [H _]. }
  assert (Hv : Forall (fun tl : TLine => fst tl = Visual ->
                                         isPlainLine (snd tl) = true) (plines p)).
  { apply (Forall_impl _ (P := steadyLine)); [|exact Hs]. now intros tl [_ H]. }
  assert (Hl : plines p = emitAllT cpl 0 (segment rawLines)).
  { rewrite <- (origOf_all _ Ho).
    replace (plines p) with (allLines (paginateTrace text fontSize lineHeight))
      by (rewrite Hp; unfold allLines; cbn; apply app_nil_r).
    destruct text; [congruence|]. unfold paginateTrace.
    apply orig_assemble. }
  assert (Hr : map snd (plines p) = flat_map (emitted cpl) rawLines).
  { rewrite Hl. apply emitAllT_segment. }
  assert (V : visualPlain cpl rawLines).
  { apply (visualPlain_of_trace cpl rawLines 0). now rewrite <- Hl. }
  assert (Hsplit : Str.split Str.newline (render p) = flat_map (emitted cpl) rawLines).
  { unfold render. rewrite Hr. apply StrFacts.split_join.
    - apply emitted_nonempty, StrFacts.split_nonempty.
    - apply emitted_oneLine. apply StrFacts.split_no_sep. }
  destruct (render p) as [|c' s'] eqn:Er; [reflexivity|].
  rewrite <- Er in *. rewrite <- H1.
  assert (G : forall t, t <> EmptyString ->
            paginateText t fontSize lineHeight
            = assemble (pxPerLineOf fontSize lineHeight) cpl
                (segment (Str.split Str.newline t))).
  { intros [|x t] N; [congruence | reflexivity]. }
  rewrite (G (render p)) by (rewrite Er; discriminate).
  rewrite (G text Et).
  rewrite Hsplit. unfold assemble.
  fold (runBlocks (pxPerLineOf fontSize lineHeight) cpl
          (segment (flat_map (emitted cpl) rawLines)) initState).
  fold (runBlocks (pxPerLineOf fontSize lineHeight) cpl
          (segment rawLines) initState).
  now rewrite (rerun _ _ _ V).
Qed.

Lemma C6_idempotence_witness :
  paginateText sampleDoc defaultFontSize defaultLineHeight = [render samplePage]
  /\ paginateText (render samplePage) defaultFontSize defaultLineHeight
     = [render samplePage].
Proof.
  apply (C6_idempotence sampleDoc defaultFontSize defaultLineHeight samplePage).
  - vm_compute. reflexivity.
  - unfold samplePage; cbn [plines].
    repeat (constructor;
            [split; [reflexivity | intros H; first [reflexivity | discriminate H]]|]).
    constructor.
Defined.


(** ** The scenarios of the specification *)

(** A heading, an empty line and a short paragraph at the default
    settings: one page, the three lines in order. *)
Example scenario_single_page :
  paginateText sampleDoc defaultFontSize defaultLineHeight = [sampleDoc].
Proof. vm_compute. reflexivity. Qed.

(** A four-row table after seven paragraph lines, ten lines to a page:
    the spacer, the label row and the separator row still fit, the first
    data row opens the second page behind the re-emitted header. *)
Example scenario_table_continuation :
  paginateText
    (doc ["p"; "p"; "p"; "p"; "p"; "p"; "p";
          "| A | B |"; "| :--- | :--- |"; "| 1 | 2 |"; "| 3 | 4 |"]) 100 1
  = [doc ["p"; "p"; "p"; "p"; "p"; "p"; "p"; ""; "| A | B |"; "| :--- | :--- |"];
     doc ["| A | B |"; "| :--- | :--- |"; "| 1 | 2 |"; "| 3 | 4 |"]].
Proof. vm_compute. reflexivity. Qed.

(** * The first version of [paginateText] *)

Module V1Facts.
Import JsNum V1 V1Blocks V1Inv V1Run V1Trace.

(** ** White space and [trim] *)

Lemma trimStart_empty s : Str.trimStart s = EmptyString <-> hasInk s = false.
Proof.
  unfold hasInk. induction s as [|c s IH]; cbn [Str.trimStart list_ascii_of_string existsb].
  - tauto.
  - destruct (Str.isWhite c); cbn [negb orb]; [exact IH|].
    split; intros H; discriminate H.
Qed.

Lemma hasInk_trimEnd s : hasInk (Str.trimEnd s) = hasInk s.
Proof.
  unfold hasInk. induction s as [|c s IH]; [reflexivity|].
  cbn [Str.trimEnd list_ascii_of_string existsb]. rewrite <- IH.
  destruct (Str.trimEnd s) as [|c' t]; [|reflexivity].
  destruct (Str.isWhite c) eqn:W; cbn [list_ascii_of_string existsb];
    rewrite ?W; reflexivity.
Qed.

(** [s.trim()] is the empty string exactly when [s] is all white space. *)
Lemma trim_empty s : Str.trim s = EmptyString <-> hasInk s = false.
Proof. unfold Str.trim. now rewrite trimStart_empty, hasInk_trimEnd. Qed.

Lemma hasInk_app a b : hasInk (a ++ b)%string = hasInk a || hasInk b.
Proof.
  unfold hasInk. induction a as [|c a IH]; [reflexivity|].
  cbn [append list_ascii_of_string existsb]. now rewrite IH, orb_assoc.
Qed.

Lemma hasInk_infix a p : isInfix a p -> hasInk a = true -> hasInk p = true.
Proof.
  intros [pre [suf ->]] H. rewrite !hasInk_app, H. apply orb_true_r.
Qed.

Lemma trimStart_head s c t : Str.trimStart s = String c t -> Str.isWhite c = false.
Proof.
  induction s as [|x s IH]; cbn [Str.trimStart]; [discriminate|].
  destruct (Str.isWhite x) eqn:E; [exact IH|]. intros H. injection H as <- _. exact E.
Qed.

Lemma trimStart_suffix s : exists pre, s = (pre ++ Str.trimStart s)%string.
Proof.
  induction s as [|x s [pre IH]]; cbn [Str.trimStart]; [now exists EmptyString|].
  destruct (Str.isWhite x).
  - exists (String x pre). cbn [append]. now rewrite <- IH.
  - now exists EmptyString.
Qed.

(** A table row holds ink: its trimmed form starts with a bar. *)
Lemma isRow_hasInk line : isRow line = true -> hasInk line = true.
Proof.
  unfold isRow, isTableRow. intros H.
  destruct (Str.trim line) as [|c t] eqn:E; [discriminate H|].
  destruct (hasInk line) eqn:I; [reflexivity|].
  apply trim_empty in I. congruence.
Qed.

(** ** The blocks of the loop *)

Lemma take_drop_rows ls : takeRows ls ++ dropRows ls = ls.
Proof.
  induction ls as [|l ls IH]; cbn [takeRows dropRows]; [reflexivity|].
  destruct (isRow l); cbn [app]; [now rewrite IH | reflexivity].
Qed.

Lemma dropRows_length ls : (List.length (dropRows ls) <= List.length ls)%nat.
Proof.
  rewrite <- (take_drop_rows ls) at 2. rewrite length_app. lia.
Qed.

Lemma takeRows_all ls : Forall (fun l => isRow l = true) (takeRows ls).
Proof.
  induction ls as [|l ls IH]; cbn [takeRows]; [constructor|].
  destruct (isRow l) eqn:E; constructor; assumption.
Qed.

Lemma blocks_table line rest :
  isRow line = true ->
  blocks (line :: rest) = (line :: takeRows rest) :: blocks (dropRows rest).
Proof.
  intros H. cbn [blocks]. rewrite H.
  change (line :: takeRows rest) with ([line] ++ takeRows rest).
  generalize [line] as acc.
  induction rest as [|l ls IH]; intros acc; cbn [takeRows dropRows].
  - now rewrite app_nil_r.
  - destruct (isRow l) eqn:E.
    + rewrite IH, <- app_assoc. reflexivity.
    + now rewrite app_nil_r.
Qed.

Lemma blocks_other line rest :
  isRow line = false -> blocks (line :: rest) = [line] :: blocks rest.
Proof. intros H. cbn [blocks]. now rewrite H. Qed.

Lemma rows_run_ind (P : list string -> Prop) :
  P [] ->
  (forall line rest, isRow line = true -> P (dropRows rest) -> P (line :: rest)) ->
  (forall line rest, isRow line = false -> P rest -> P (line :: rest)) ->
  forall ls, P ls.
Proof.
  intros Hnil Htab Hoth ls.
  assert (G : forall n ls, (List.length ls <= n)%nat -> P ls).
  { induction n as [|n IH]; intros [|l ls'] L; try exact Hnil.
    - cbn in L; lia.
    - destruct (isRow l) eqn:E.
      + apply Htab; [exact E|]. apply IH.
        pose proof (dropRows_length ls'). cbn in L. lia.
      + apply Hoth; [exact E|]. apply IH. cbn in L. lia. }
  apply (G (List.length ls)). lia.
Qed.

Section Loop.

Variable pxPerLine : num.
Variable charsPerLine : num.

Lemma loop_table line rest st :
  isRow line = true ->
  loop pxPerLine charsPerLine (line :: rest) st
  = loop pxPerLine charsPerLine (dropRows rest)
      (placeBlock pxPerLine charsPerLine (line :: takeRows rest) st).
Proof.
  intros H. cbn [loop]. fold (isRow line). rewrite H.
  change (line :: takeRows rest) with ([line] ++ takeRows rest).
  generalize [line] as acc.
  induction rest as [|l ls IH]; intros acc; cbn [takeRows dropRows].
  - now rewrite app_nil_r.
  - fold (isRow l). destruct (isRow l) eqn:E.
    + rewrite IH, <- app_assoc. reflexivity.
    + now rewrite app_nil_r.
Qed.

Lemma loop_other line rest st :
  isRow line = false ->
  loop pxPerLine charsPerLine (line :: rest) st
  = loop pxPerLine charsPerLine rest (placeBlock pxPerLine charsPerLine [line] st).
Proof. intros H. cbn [loop]. fold (isRow line). now rewrite H. Qed.

(** The loop places the blocks one after the other. *)
Lemma loop_blocks lines : forall st,
  loop pxPerLine charsPerLine lines st
  = fold_left (fun s b => placeBlock pxPerLine charsPerLine b s) (blocks lines) st.
Proof.
  induction lines as [|line rest H IH|line rest H IH] using rows_run_ind; intros st.
  - reflexivity.
  - rewrite (loop_table _ _ _ H), (blocks_table _ _ H). cbn [fold_left]. apply IH.
  - rewrite (loop_other _ _ _ H), (blocks_other _ _ H). cbn [fold_left]. apply IH.
Qed.

End Loop.

(** ** Heights are off zero *)

Lemma offZero_add_l x y : nonNeg x -> offZero y -> offZero (add x y).
Proof. destruct x, y; cbn; intros; try tauto; lra. Qed.

Lemma offZero_add_r x y : offZero x -> nonNeg y -> offZero (add x y).
Proof. destruct x, y; cbn; intros; try tauto; lra. Qed.

Lemma offZero_nonNeg x : offZero x -> nonNeg x.
Proof. destruct x; cbn; intros; try tauto; lra. Qed.

Lemma cmp_pos p : 0 < p -> (p ?= 0) = Gt.
Proof. intros H. now apply Qgt_alt. Qed.

Lemma nonNeg_mul x p : 0 < p -> nonNeg x -> nonNeg (mul x (Finite p)).
Proof.
  intros P. destruct x; cbn; intros H; rewrite ?(cmp_pos _ P); cbn; try tauto.
  apply Qmult_le_0_compat; lra.
Qed.

Lemma offZero_mul x p : 0 < p -> atLeastOne x -> offZero (mul x (Finite p)).
Proof.
  intros P. destruct x; cbn; intros H; rewrite ?(cmp_pos _ P); cbn; try tauto.
  assert (0 <= (q - 1) * p) by (apply Qmult_le_0_compat; lra). lra.
Qed.

Lemma nonNeg_ceil x : nonNeg x -> nonNeg (ceil x).
Proof.
  destruct x; cbn; try tauto. intros H.
  pose proof (Qle_ceiling q). lra.
Qed.

Lemma atLeastOne_max x : nonNeg x -> atLeastOne (max (Finite 1) x).
Proof.
  destruct x; cbn; try tauto. intros H.
  destruct (Qle_bool 1 q) eqn:E; cbn; [now apply Qle_bool_iff in E | lra].
Qed.

(** a length divided by a non-negative number *)
Lemma nonNeg_div_len line d :
  0 <= d -> nonNeg (div (ofLength line) (Finite d)).
Proof.
  intros D. unfold ofLength, div.
  assert (L : 0 <= inject_Z (Str.len line)).
  { change 0 with (inject_Z 0). rewrite <- Zle_Qle. apply StrFacts.len_nonneg. }
  destruct (Qeq_bool d 0) eqn:E.
  - destruct (inject_Z (Str.len line) ?= 0) eqn:C; cbn; try exact I.
    apply Qlt_alt in C. lra.
  - cbn. apply Qle_shift_div_l; [|lra].
    destruct (Qlt_le_dec 0 d) as [H|H]; [exact H|].
    exfalso. assert (d == 0) by lra. apply Qeq_bool_iff in H0. congruence.
Qed.

Section Positive.

Variable p : Q.
Variable c : Z.
Hypothesis p_pos : 0 < p.
Hypothesis c_nonneg : (0 <= c)%Z.

Lemma extra_nonNeg k : 0 <= k -> nonNeg (add (Finite 0) (mul (Finite p) (Finite k))).
Proof. intros K. cbn. assert (0 <= p * k) by (apply Qmult_le_0_compat; lra). lra. Qed.

Lemma extra_offZero k : 0 < k -> offZero (add (Finite 0) (mul (Finite p) (Finite k))).
Proof. intros K. cbn. assert (0 < p * k) by (apply Qmult_lt_0_compat; lra). lra. Qed.

Lemma lineHeightOf_offZero line :
  offZero (lineHeightOf (Finite p) (Finite (inject_Z c)) line).
Proof.
  assert (C : 0 <= inject_Z c).
  { change 0 with (inject_Z 0). now rewrite <- Zle_Qle. }
  unfold lineHeightOf. destruct (isHeaderLine line).
  - apply offZero_add_l; [|apply extra_offZero; reflexivity].
    apply nonNeg_mul; [exact p_pos|]. apply nonNeg_ceil.
    cbn [mul]. apply nonNeg_div_len.
    apply Qmult_le_0_compat; [exact C | discriminate].
  - destruct (isTableRow _).
    + apply offZero_add_l; [|apply extra_offZero; reflexivity].
      cbn. lra.
    + destruct (isHr _).
      * apply offZero_add_l; [|apply extra_offZero; reflexivity]. cbn. lra.
      * apply offZero_add_r; [|cbn; lra].
        apply offZero_mul; [exact p_pos|]. apply atLeastOne_max.
        apply nonNeg_ceil. now apply nonNeg_div_len.
Qed.

Lemma blockHeight_offZero B :
  B <> [] -> offZero (calculateBlockHeight (Finite p) (Finite (inject_Z c)) B).
Proof.
  unfold calculateBlockHeight.
  assert (G : forall ls h, nonNeg h -> ls <> [] ->
            offZero (fold_left (fun height line =>
                       add height (lineHeightOf (Finite p) (Finite (inject_Z c)) line))
                     ls h)).
  { induction ls as [|l ls IH]; intros h H N; [congruence|]. cbn [fold_left].
    destruct ls as [|l' ls'].
    - cbn [fold_left]. apply offZero_add_l; [exact H | apply lineHeightOf_offZero].
    - apply IH; [|discriminate].
      apply offZero_nonNeg, offZero_add_l; [exact H | apply lineHeightOf_offZero]. }
  intros N. apply G; [cbn; lra | exact N].
Qed.

End Positive.

Lemma pxPerLine_pos fontSize lineHeight :
  0 < fontSize -> 0 < lineHeight ->
  exists p, 0 < p /\ pxPerLineOf fontSize lineHeight = Finite p.
Proof.
  intros F L. exists (fontSize * lineHeight). split; [|reflexivity].
  apply Qmult_lt_0_compat; assumption.
Qed.

Lemma charsPerLine_finite fontSize :
  0 < fontSize -> finiteCpl (charsPerLineOf fontSize).
Proof.
  intros F. unfold finiteCpl, charsPerLineOf. cbn [mul div].
  assert (A : 0 < fontSize * (44 # 100)) by lra.
  destruct (Qeq_bool (fontSize * (44 # 100)) 0) eqn:E;
    [apply Qeq_bool_iff in E; lra|].
  cbn [floor]. eexists; split; [|reflexivity].
  change 0%Z with (Qfloor 0). apply Qfloor_resp_le.
  apply Qle_shift_div_l; [exact A|]. vm_compute. discriminate.
Qed.

(** ** Lines, pages and line feeds *)

Lemma append_nil_r (s : string) : (s ++ EmptyString)%string = s.
Proof. induction s as [|c s IH]; cbn; [reflexivity | now rewrite IH]. Qed.

Lemma linesText_app a b : linesText (a ++ b) = (linesText a ++ linesText b)%string.
Proof.
  induction a as [|l a IH]; [reflexivity|]. cbn [app linesText].
  now rewrite IH, append_assoc.
Qed.

Lemma join_linesText B :
  B <> [] ->
  (Str.join Str.newline B ++ String Str.newline EmptyString)%string = linesText B.
Proof.
  induction B as [|l B IH]; [congruence|]. intros _.
  destruct B as [|l' B].
  - reflexivity.
  - rewrite StrFacts.join_cons. cbn [linesText] in *.
    rewrite append_assoc. cbn [append]. now rewrite IH.
Qed.

Lemma linesText_split s :
  linesText (Str.split Str.newline s) = (s ++ String Str.newline EmptyString)%string.
Proof.
  rewrite <- join_linesText by apply StrFacts.split_nonempty.
  now rewrite StrFacts.join_split.
Qed.

Lemma endsWithNewline_app a b :
  b <> EmptyString -> endsWithNewline (a ++ b) = endsWithNewline b.
Proof.
  intros N. induction a as [|c a IH]; [reflexivity|].
  cbn [append endsWithNewline]. rewrite IH.
  destruct (a ++ b)%string eqn:E; [|reflexivity].
  destruct a; cbn in E; [congruence | discriminate].
Qed.

Lemma endsWithNewline_linesText ls :
  ls <> [] -> endsWithNewline (linesText ls) = true.
Proof.
  induction ls as [|l ls IH]; [congruence|]. intros _. cbn [linesText].
  rewrite endsWithNewline_app by discriminate.
  destruct ls as [|l' ls']; [reflexivity|].
  cbn [endsWithNewline]. specialize (IH ltac:(discriminate)).
  destruct (linesText (l' :: ls')) eqn:E; [discriminate IH | exact IH].
Qed.

Lemma endsWithNewline_mem s :
  endsWithNewline s = true -> Str.mem Str.newline s = true.
Proof.
  induction s as [|c s IH]; [discriminate|]. cbn [endsWithNewline Str.mem].
  destruct s as [|c' s'].
  - intros ->. reflexivity.
  - intros H. rewrite (IH H). apply orb_true_r.
Qed.

Lemma hasInk_nonempty s : hasInk s = true -> s <> EmptyString.
Proof. intros H ->. discriminate H. Qed.

(** The text of a block does not end with a line feed. *)
Lemma join_open B : blockOk B -> endsWithNewline (Str.join Str.newline B) = false.
Proof.
  intros [N [O S]].
  assert (One : forall l, oneLine l -> endsWithNewline l = false).
  { intros l Hl. destruct (endsWithNewline l) eqn:E; [|reflexivity].
    apply endsWithNewline_mem in E. unfold oneLine in Hl. congruence. }
  destruct S as [S|S].
  - destruct B as [|l [|l' B']]; cbn in S; try lia.
    inversion O; subst. cbn. now apply One.
  - clear N. induction B as [|l B IH]; [reflexivity|].
    inversion O as [|? ? Ol OB]; inversion S as [|? ? Sl SB]; subst.
    destruct B as [|l' B'].
    + cbn. now apply One.
    + rewrite StrFacts.join_cons.
      assert (NE : Str.join Str.newline (l' :: B') <> EmptyString).
      { inversion SB as [|? ? Sl' _]; subst.
        apply isRow_hasInk, hasInk_nonempty in Sl'.
        destruct B'; cbn; [exact Sl'|].
        destruct l'; [congruence | discriminate]. }
      rewrite endsWithNewline_app by discriminate.
      cbn [endsWithNewline].
      specialize (IH OB SB).
      destruct (Str.join Str.newline (l' :: B')) eqn:E; [congruence | exact IH].
Qed.

Lemma terminated_block B : blockOk B -> terminated (Str.join Str.newline B) = linesText B.
Proof.
  intros H. unfold terminated. rewrite (join_open _ H).
  apply join_linesText. apply H.
Qed.

Lemma terminated_closed s : endsWithNewline s = true -> terminated s = s.
Proof. intros H. unfold terminated. now rewrite H. Qed.

Lemma concat_empty_app (ps qs : list string) :
  String.concat EmptyString (ps ++ qs)
  = (String.concat EmptyString ps ++ String.concat EmptyString qs)%string.
Proof.
  induction ps as [|a ps IH]; [reflexivity|].
  destruct ps as [|b ps].
  - cbn [app]. destruct qs; cbn; [now rewrite append_nil_r | reflexivity].
  - change ((a :: b :: ps) ++ qs) with (a :: (b :: ps) ++ qs).
    cbn [String.concat] in *. cbn [app] in *. rewrite IH.
    cbn [append]. now rewrite append_assoc.
Qed.

Lemma allText_snoc ps q : allText (ps ++ [q]) = (allText ps ++ terminated q)%string.
Proof. unfold allText. rewrite map_app, concat_empty_app. reflexivity. Qed.

(** The blocks are well formed and partition the lines. *)
Lemma blocks_ok lines :
  Forall oneLine lines -> Forall blockOk (blocks lines).
Proof.
  induction lines as [|line rest H IH|line rest H IH] using rows_run_ind; intros O.
  - constructor.
  - rewrite (blocks_table _ _ H). inversion O as [|? ? Ol Or]; subst.
    rewrite <- (take_drop_rows rest) in Or. apply Forall_app in Or as [Ot Od].
    constructor; [|now apply IH].
    split; [discriminate|]. split; [now constructor|].
    right. constructor; [exact H | apply takeRows_all].
  - rewrite (blocks_other _ _ H). inversion O as [|? ? Ol Or]; subst.
    constructor; [|now apply IH].
    split; [discriminate|]. split; [now constructor | now left].
Qed.

Lemma blocks_concat lines : List.concat (blocks lines) = lines.
Proof.
  induction lines as [|line rest H IH|line rest H IH] using rows_run_ind.
  - reflexivity.
  - rewrite (blocks_table _ _ H). cbn [List.concat]. rewrite IH.
    cbn [app]. now rewrite take_drop_rows.
  - rewrite (blocks_other _ _ H). cbn [List.concat]. now rewrite IH.
Qed.

(** ** The page invariant *)

Lemma isZero_offZero x : offZero x -> isZero x = false.
Proof.
  destruct x; cbn; try reflexivity; try tauto. intros H.
  destruct (Qeq_bool q 0) eqn:E; [|reflexivity].
  apply Qeq_bool_iff in E. lra.
Qed.

Section Invariant.

Variable p : Q.
Variable c : Z.
Hypothesis p_pos : 0 < p.
Hypothesis c_nonneg : (0 <= c)%Z.

Let px := Finite p.
Let cpl := Finite (inject_Z c).

Lemma pageInv_placeBlock B st :
  blockOk B -> pageInv st -> pageInv (placeBlock px cpl B st).
Proof.
  intros OK I. unfold placeBlock.
  pose proof (blockHeight_offZero p c p_pos c_nonneg B (proj1 OK)) as H.
  fold px cpl in H.
  assert (NL : endsWithNewline
                 (Str.join Str.newline B ++ String Str.newline EmptyString) = true).
  { rewrite join_linesText by apply OK. apply endsWithNewline_linesText, OK. }
  destruct (gtb _ _).
  - destruct (isZero _); [left; split; reflexivity|].
    right. cbn [currentPageContent currentHeightUsed]. split; assumption.
  - right. cbn [currentPageContent currentHeightUsed]. split.
    + rewrite endsWithNewline_app; [exact NL|].
      destruct (Str.join Str.newline B); discriminate.
    + destruct I as [[_ ->]|[_ U]].
      * apply offZero_add_l; [cbn; lra | exact H].
      * apply offZero_add_r; [exact U | now apply offZero_nonNeg].
Qed.

(** The test [currentHeightUsed === 0] tells whether the page is empty. *)
Lemma pageInv_zero st :
  pageInv st ->
  (isZero (currentHeightUsed st) = true <-> currentPageContent st = EmptyString).
Proof.
  intros [[C U]|[C U]].
  - rewrite C, U. cbn. tauto.
  - rewrite (isZero_offZero _ U). split; [discriminate|].
    intros E. rewrite E in C. discriminate C.
Qed.

Lemma text_placeBlock B st :
  blockOk B -> pageInv st ->
  (allText (pages (placeBlock px cpl B st))
   ++ currentPageContent (placeBlock px cpl B st))%string
  = ((allText (pages st) ++ currentPageContent st) ++ linesText B)%string.
Proof.
  intros OK I. unfold placeBlock.
  pose proof (join_linesText B (proj1 OK)) as J.
  destruct (gtb _ _).
  - destruct (isZero _) eqn:Z; cbn [pages currentPageContent].
    + apply (pageInv_zero _ I) in Z. rewrite Z.
      rewrite allText_snoc, (terminated_block _ OK), !append_nil_r. reflexivity.
    + destruct I as [[_ U]|[C _]]; [rewrite U in Z; discriminate Z|].
      rewrite allText_snoc, (terminated_closed _ C), J. reflexivity.
  - cbn [pages currentPageContent]. now rewrite J, append_assoc.
Qed.

Lemma run_blocks bs : forall st,
  Forall blockOk bs -> pageInv st ->
  let st' := fold_left (fun s b => placeBlock px cpl b s) bs st in
  pageInv st'
  /\ (allText (pages st') ++ currentPageContent st')%string
     = ((allText (pages st) ++ currentPageContent st)
        ++ linesText (List.concat bs))%string.
Proof.
  induction bs as [|B bs IH]; intros st F I; cbn [fold_left List.concat].
  - split; [exact I|]. cbn [linesText]. now rewrite append_nil_r.
  - inversion F as [|? ? FB Fbs]; subst.
    destruct (IH (placeBlock px cpl B st) Fbs (pageInv_placeBlock _ _ FB I))
      as [I' E].
    split; [exact I'|]. cbn zeta in E. rewrite E, (text_placeBlock _ _ FB I).
    now rewrite linesText_app, append_assoc.
Qed.

Lemma placed_keep B B' st :
  blockOk B' -> pageInv st -> placed B st -> placed B (placeBlock px cpl B' st).
Proof.
  intros OK I P. unfold placeBlock, placed in *.
  destruct (gtb _ _).
  - destruct (isZero _) eqn:Z; cbn [pages currentPageContent].
    + apply (pageInv_zero _ I) in Z. rewrite Z in P.
      destruct P as [[pg [Hin Hx]]|P].
      * left. exists pg. split; [apply in_or_app; now left | exact Hx].
      * right. exact P.
    + left. destruct P as [[pg [Hin Hx]]|P].
      * exists pg. split; [apply in_or_app; now left | exact Hx].
      * exists (currentPageContent st). split; [|exact P].
        apply in_or_app. right. now left.
  - cbn [pages currentPageContent]. destruct P as [P|[pre [suf E]]]; [now left|].
    right. exists pre. eexists. rewrite E, !append_assoc. reflexivity.
Qed.

Lemma placed_new B st : placed B (placeBlock px cpl B st).
Proof.
  unfold placeBlock, placed. destruct (gtb _ _).
  - destruct (isZero _); cbn [pages currentPageContent].
    + left. eexists. split; [apply in_or_app; right; now left|].
      exists EmptyString, EmptyString. now rewrite append_nil_r.
    + right. exists EmptyString. eexists. reflexivity.
  - cbn [pages currentPageContent]. right.
    exists (currentPageContent st). eexists. reflexivity.
Qed.

Lemma placed_run bs : forall st B,
  Forall blockOk bs -> pageInv st ->
  placed B st \/ In B bs ->
  placed B (fold_left (fun s b => placeBlock px cpl b s) bs st).
Proof.
  induction bs as [|B' bs IH]; intros st B F I H; cbn [fold_left].
  - destruct H as [H|[]]. exact H.
  - inversion F as [|? ? FB Fbs]; subst.
    apply IH; [exact Fbs | now apply pageInv_placeBlock|].
    destruct H as [H|[<-|H]].
    + left. now apply placed_keep.
    + left. apply placed_new.
    + now right.
Qed.

End Invariant.

Lemma Forall_firstn_keep {A : Type} (P : A -> Prop) (k : nat) (l : list A) :
  Forall P l -> Forall P (firstn k l).
Proof.
  revert l; induction k as [|k IH]; intros l F; [constructor|].
  destruct F; cbn [firstn]; constructor; auto.
Qed.

Lemma pageInv_init : pageInv initState.
Proof. left. split; reflexivity. Qed.

(** The result, once the text is not empty. *)
Lemma paginateText_unfold text fontSize lineHeight :
  text <> EmptyString ->
  V1.paginateText text fontSize lineHeight
  = let ps := flush (fold_left
                       (fun s b => placeBlock (pxPerLineOf fontSize lineHeight)
                                     (charsPerLineOf fontSize) b s)
                       (blocks (Str.split Str.newline text)) initState) in
    if nonEmpty ps then ps else [EmptyString].
Proof.
  intros N. destruct text as [|x t]; [congruence|].
  unfold V1.paginateText. now rewrite loop_blocks.
Qed.

(** X1.  First version, positive parameters, a text that is not all
    white space.  Complete every page that does not end in a line feed -
    the pages of the forced branch, which hold a block without its final
    line feed - by one ([terminated]); the pages so completed,
    concatenated in order, give the text and its final line feed back,
    up to a tail of white space (the last page is not pushed when it is
    blank).  No line is lost, repeated or changed. *)
Theorem content_preserved (text : string) (fontSize lineHeight : Q) :
  0 < fontSize -> 0 < lineHeight -> hasInk text = true ->
  exists rest,
    hasInk rest = false
    /\ (allText (V1.paginateText text fontSize lineHeight) ++ rest)%string
       = (text ++ String Str.newline EmptyString)%string.
Proof.
  intros F L Ink.
  destruct (pxPerLine_pos _ _ F L) as [p [P Ep]].
  destruct (charsPerLine_finite _ F) as [c [C Ec]].
  rewrite paginateText_unfold by (intros ->; discriminate Ink).
  rewrite Ep, Ec.
  pose proof (blocks_ok _ (StrFacts.split_no_sep Str.newline text)) as OK.
  destruct (run_blocks p c P C _ initState OK pageInv_init) as [I E].
  cbn zeta in *. rewrite blocks_concat, linesText_split in E.
  change (allText (pages initState) ++ currentPageContent initState)%string
    with EmptyString in E. cbn [append] in E.
  set (st := fold_left _ _ initState) in *.
  unfold flush.
  destruct (Str.trim (currentPageContent st)) as [|x t] eqn:T.
  - apply trim_empty in T.
    destruct (pages st) as [|pg ps] eqn:Ep'.
    + exfalso. cbn in E. rewrite E in T.
      rewrite hasInk_app, Ink in T. discriminate T.
    + cbn [nonEmpty]. exists (currentPageContent st). split; [exact T | exact E].
  - assert (NE : currentPageContent st <> EmptyString).
    { intros Z. rewrite Z in T. discriminate T. }
    assert (Cl : endsWithNewline (currentPageContent st) = true).
    { destruct I as [[Z _]|[Z _]]; [congruence | exact Z]. }
    exists EmptyString. split; [reflexivity|]. rewrite append_nil_r.
    assert (N2 : nonEmpty (pages st ++ [currentPageContent st]) = true)
      by (destruct (pages st); reflexivity).
    rewrite N2, allText_snoc, (terminated_closed _ Cl). exact E.
Qed.

Lemma content_preserved_witness :
  exists rest,
    hasInk rest = false
    /\ (allText (V1.paginateText (doc ["a"; "|x|"; "|y|"; "b"; "  "]) 400 1)
        ++ rest)%string
       = (doc ["a"; "|x|"; "|y|"; "b"; "  "] ++ String Str.newline EmptyString)%string.
Proof.
  apply (content_preserved (doc ["a"; "|x|"; "|y|"; "b"; "  "]) 400 1);
    reflexivity.
Defined.

(** X2.  First version, positive parameters: every block of the loop
    that is not blank - in particular every table, the run of its rows
    joined by line feeds - stands whole on one page of the result: a
    table is never split. *)
Theorem block_kept_whole
    (text : string) (fontSize lineHeight : Q) (B : list string) :
  0 < fontSize -> 0 < lineHeight ->
  In B (blocks (Str.split Str.newline text)) ->
  hasInk (Str.join Str.newline B) = true ->
  exists pg,
    In pg (V1.paginateText text fontSize lineHeight)
    /\ isInfix (Str.join Str.newline B) pg.
Proof.
  intros F L Hin Ink.
  destruct (pxPerLine_pos _ _ F L) as [p [P Ep]].
  destruct (charsPerLine_finite _ F) as [c [C Ec]].
  assert (N : text <> EmptyString).
  { intros ->. cbn in Hin. destruct Hin as [<-|[]]. discriminate Ink. }
  rewrite (paginateText_unfold _ _ _ N), Ep, Ec.
  pose proof (blocks_ok _ (StrFacts.split_no_sep Str.newline text)) as OK.
  pose proof (placed_run p c P C _ initState B OK pageInv_init (or_intror Hin))
    as Pl.
  cbn zeta. set (st := fold_left _ _ initState) in *.
  assert (G : exists pg, In pg (flush st) /\ isInfix (Str.join Str.newline B) pg).
  { unfold flush. destruct Pl as [[pg [Hp Hx]]|Hx].
    - exists pg. split; [|exact Hx].
      destruct (Str.trim _); [exact Hp | apply in_or_app; now left].
    - exists (currentPageContent st). split; [|exact Hx].
      pose proof (hasInk_infix _ _ Hx Ink) as I.
      destruct (Str.trim (currentPageContent st)) eqn:T.
      + apply trim_empty in T. congruence.
      + apply in_or_app. right. now left. }
  destruct G as [pg [Hp Hx]]. exists pg. split; [|exact Hx].
  destruct (flush st); [destruct Hp | exact Hp].
Qed.

Lemma block_kept_whole_witness :
  exists pg,
    In pg (V1.paginateText (doc ["a"; "|x|"; "|y|"; "b"; "  "]) 400 1)
    /\ isInfix (Str.join Str.newline ["|x|"; "|y|"]) pg.
Proof.
  apply (block_kept_whole (doc ["a"; "|x|"; "|y|"; "b"; "  "]) 400 1
           ["|x|"; "|y|"]).
  - reflexivity.
  - reflexivity.
  - vm_compute. right. left. reflexivity.
  - reflexivity.
Defined.

(** X3.  First version, positive parameters with a line pitch of at
    least one pixel: after any number of blocks,
    [currentHeightUsed === 0] holds exactly when [currentPageContent] is
    the empty string, so the branch that forces an oversized block onto
    "the empty page" never overwrites content.  (The bound on the pitch
    keeps the product [fontSize * lineHeight] and its fractions
    [pxPerLine * 0.5] and [pxPerLine * 0.8] away from zero also where a
    double underflows; the exact product here needs only the signs.) *)
Theorem empty_page_test_exact
    (text : string) (fontSize lineHeight : Q) (k : nat) :
  0 < fontSize -> 0 < lineHeight -> 1 <= fontSize * lineHeight ->
  let st := stateAfter (pxPerLineOf fontSize lineHeight)
              (charsPerLineOf fontSize) (Str.split Str.newline text) k in
  isZero (currentHeightUsed st) = true <-> currentPageContent st = EmptyString.
Proof.
  intros F L _.
  destruct (pxPerLine_pos _ _ F L) as [p [P Ep]].
  destruct (charsPerLine_finite _ F) as [c [C Ec]].
  unfold stateAfter. rewrite Ep, Ec.
  pose proof (blocks_ok _ (StrFacts.split_no_sep Str.newline text)) as OK.
  apply (Forall_firstn_keep _ k) in OK.
  destruct (run_blocks p c P C _ initState OK pageInv_init) as [I _].
  cbn zeta. now apply pageInv_zero.
Qed.

Lemma empty_page_test_exact_witness :
  isZero (currentHeightUsed
            (stateAfter (pxPerLineOf 400 1) (charsPerLineOf 400)
               (Str.split Str.newline (doc ["a"; "|x|"; "|y|"; "b"])) 2)) = true
  <-> currentPageContent
        (stateAfter (pxPerLineOf 400 1) (charsPerLineOf 400)
           (Str.split Str.newline (doc ["a"; "|x|"; "|y|"; "b"])) 2)
      = EmptyString.
Proof.
  apply (empty_page_test_exact (doc ["a"; "|x|"; "|y|"; "b"]) 400 1 2).
  - reflexivity.
  - reflexivity.
  - vm_compute. discriminate.
Defined.

(** ** The budget of the first version *)

Section Traced.

Variable pxPerLine : num.
Variable charsPerLine : num.

Lemma trace_erase_placeBlock B st :
  erase (tPlaceBlock pxPerLine charsPerLine B st)
  = placeBlock pxPerLine charsPerLine B (erase st).
Proof.
  unfold tPlaceBlock, placeBlock, erase.
  cbn [V1.pages V1.currentPageContent V1.currentHeightUsed].
  destruct (gtb _ _); [destruct (isZero _)|];
    cbn [tpages tcontent tused]; rewrite ?map_app; reflexivity.
Qed.

Lemma trace_erase_run bs : forall st,
  erase (fold_left (fun s b => tPlaceBlock pxPerLine charsPerLine b s) bs st)
  = fold_left (fun s b => placeBlock pxPerLine charsPerLine b s) bs (erase st).
Proof.
  induction bs as [|B bs IH]; intros st; cbn [fold_left]; [reflexivity|].
  now rewrite IH, trace_erase_placeBlock.
Qed.

Lemma trace_erase_flush st : map fst (tFlush st) = flush (erase st).
Proof.
  unfold tFlush, flush, erase. cbn [V1.pages V1.currentPageContent].
  destruct (Str.trim (tcontent st)); [reflexivity|].
  now rewrite map_app.
Qed.

Variable all : list (list string).

Lemma budget_tPlaceBlock B st :
  In B all -> budgetInv all st ->
  budgetInv all (tPlaceBlock pxPerLine charsPerLine B st).
Proof.
  intros HB [P C]. unfold tPlaceBlock, budgetInv.
  destruct (gtb (add (tused st) _) _) eqn:Over.
  - destruct (isZero (tused st)); cbn [tpages tcontent tused].
    + split.
      * apply Forall_app. split; [exact P|]. constructor; [|constructor].
        right. exists B. split; [exact HB | now left].
      * left. reflexivity.
    + split.
      * apply Forall_app. split; [exact P|]. constructor; [exact C | constructor].
      * right. exists B. split; [exact HB | now right].
  - cbn [tpages tcontent tused]. split; [exact P|]. left. exact Over.
Qed.

Lemma budget_trace bs : forall st,
  incl bs all -> budgetInv all st ->
  budgetInv all (fold_left (fun s b => tPlaceBlock pxPerLine charsPerLine b s) bs st).
Proof.
  induction bs as [|B bs IH]; intros st Inc I; cbn [fold_left]; [exact I|].
  apply IH; [intros x Hx; apply Inc; now right|].
  apply budget_tPlaceBlock; [apply Inc; now left | exact I].
Qed.

Lemma budget_tFlush st :
  budgetInv all st -> Forall (withinBudget all) (tFlush st).
Proof.
  intros [P C]. unfold tFlush. destruct (Str.trim (tcontent st)); [exact P|].
  apply Forall_app. split; [exact P | constructor; [exact C | constructor]].
Qed.

End Traced.

Lemma budget_tInit all : budgetInv all tInit.
Proof. split; [constructor | left; reflexivity]. Qed.

(** Without the heights, the traced run is the run. *)
Lemma trace_erase text fontSize lineHeight :
  map fst (paginateTrace text fontSize lineHeight)
  = V1.paginateText text fontSize lineHeight.
Proof.
  destruct text as [|c t]; [reflexivity|].
  rewrite paginateText_unfold by discriminate.
  unfold paginateTrace. cbn zeta.
  set (st := fold_left _ _ tInit).
  change initState with (erase tInit). rewrite <- trace_erase_run. fold st.
  rewrite <- trace_erase_flush.
  destruct (tFlush st); reflexivity.
Qed.

(** X4.  First version, every text and all parameters: the pages of the
    traced run are the pages of [paginateText], and for each of them the
    height accumulated when it is pushed is not greater than
    [AVAILABLE_HEIGHT], or the page is a single block of the text - one
    line or one whole table - with or without its final line feed. *)
Theorem budget_respected (text : string) (fontSize lineHeight : Q) :
  map fst (paginateTrace text fontSize lineHeight)
  = V1.paginateText text fontSize lineHeight
  /\ Forall (withinBudget (blocks (Str.split Str.newline text)))
       (paginateTrace text fontSize lineHeight).
Proof.
  split; [apply trace_erase|].
  destruct text as [|c t].
  { constructor; [left; reflexivity | constructor]. }
  unfold paginateTrace. cbn zeta.
  set (all := blocks (Str.split Str.newline (String c t))).
  pose proof (budget_tFlush all _
                (budget_trace (pxPerLineOf fontSize lineHeight)
                   (charsPerLineOf fontSize) all all tInit
                   (incl_refl _) (budget_tInit all))) as F.
  destruct (tFlush _) as [|ph ps]; cbn [nonEmpty]; [|exact F].
  constructor; [left; reflexivity | constructor].
Qed.

End V1Facts.

(** * The application around the paginator *)

Module AppFacts.
Import Js.

(** ** The page selector *)

(** X5.  Whatever is typed into the page selector, the stored page
    number lies between 1 and the number of pages, so that the index
    [onDownloadImage] is called with, the number less one, names a page
    of the pagination the count was taken from. *)
Theorem selected_page_exists (value text : string) (fontSize lineHeight : Q) :
  let pages := paginateText text fontSize lineHeight in
  let selected := App.selectPage value (Z.of_nat (List.length pages)) in
  (1 <= selected <= Z.of_nat (List.length pages))%Z
  /\ exists pg, nth_error pages (Z.to_nat (selected - 1)) = Some pg.
Proof.
  intros pgs selected.
  pose proof (paginateText_length text fontSize lineHeight) as L.
  fold pgs in L.
  assert (R : (1 <= selected <= Z.of_nat (List.length pgs))%Z)
    by (unfold selected, App.selectPage; lia).
  split; [exact R|].
  destruct (nth_error pgs (Z.to_nat (selected - 1))) as [pg|] eqn:E; [eauto|].
  apply nth_error_None in E. lia.
Qed.

(** ** The preview scale *)

Lemma scaleAtRange_all n : forall z w,
  App.scaleAtRange n z = true -> (z <= w < z + Z.of_nat n)%Z ->
  App.scaleAt w = true.
Proof.
  induction n as [|n IH]; intros z w H R; [lia|].
  cbn [App.scaleAtRange] in H. apply andb_true_iff in H as [H0 H1].
  destruct (Z.eq_dec w z) as [->|N]; [exact H0|].
  apply (IH (z + 1)%Z); [exact H1 | lia].
Qed.

Lemma scaleAt_widths : App.scaleAtRange (Z.to_nat 65536) 0 = true.
Proof. vm_compute. reflexivity. Qed.

(** X6.  [updateScale] in binary64, for every container width below
    65536 pixels: below 100 the scale stays as it is; from 100 to 286 it
    becomes the least scale 0.3; from 842 on it becomes 1; and from 287
    to 841 it lies strictly between the two, and the scaled page with
    its padding, [scale * 794 + 48] computed exactly, overhangs the
    container by no more than 10^-12 pixels. *)
Theorem scale_fits_container (w : Z) (scale : PrimFloat.float) :
  (0 <= w < 65536)%Z ->
  let scale' := App.updateScale (Some w) scale in
  ((w < 100)%Z -> scale' = scale)
  /\ ((100 <= w <= 286)%Z -> PrimFloat.eqb scale' App.minScale = true)
  /\ ((287 <= w <= 841)%Z ->
      PrimFloat.ltb App.minScale scale' = true
      /\ PrimFloat.ltb scale' PrimFloat.one = true
      /\ F64.toQ scale' * 794 + 48 <= inject_Z w + (1 # 1000000000000))
  /\ ((842 <= w)%Z -> PrimFloat.eqb scale' PrimFloat.one = true).
Proof.
  intros R. cbn zeta.
  assert (C : App.scaleAt w = true).
  { apply (scaleAtRange_all _ 0 w scaleAt_widths).
    rewrite Z2Nat.id by lia. lia. }
  unfold App.scaleAt in C. unfold App.updateScale.
  destruct (w <? 100)%Z eqn:Small.
  { apply Z.ltb_lt in Small. rewrite C.
    split; [intros _; reflexivity|]. split; [intros; lia|].
    split; intros; lia. }
  apply Z.ltb_ge in Small. apply andb_true_iff in C as [C0 C].
  apply negb_true_iff in C0. rewrite C0. cbn zeta in C.
  destruct (w <=? 286)%Z eqn:Low.
  { apply Z.leb_le in Low.
    split; [intros; lia|]. split; [intros _; exact C|].
    split; intros; lia. }
  apply Z.leb_gt in Low.
  destruct (w <=? 841)%Z eqn:Mid.
  { apply Z.leb_le in Mid.
    apply andb_true_iff in C as [C C3]. apply andb_true_iff in C as [C1 C2].
    apply Qle_bool_iff in C3.
    split; [intros; lia|]. split; [intros; lia|].
    split; [intros _; repeat split; assumption | intros; lia]. }
  apply Z.leb_gt in Mid.
  split; [intros; lia|]. split; [intros; lia|].
  split; [intros; lia | intros _; exact C].
Qed.

Lemma scale_fits_container_witness :
  ((500 < 100)%Z -> App.updateScale (Some 500%Z) PrimFloat.one = PrimFloat.one)
  /\ ((100 <= 500 <= 286)%Z ->
      PrimFloat.eqb (App.updateScale (Some 500%Z) PrimFloat.one) App.minScale
      = true)
  /\ ((287 <= 500 <= 841)%Z ->
      PrimFloat.ltb App.minScale (App.updateScale (Some 500%Z) PrimFloat.one)
      = true
      /\ PrimFloat.ltb (App.updateScale (Some 500%Z) PrimFloat.one)
           PrimFloat.one = true
      /\ F64.toQ (App.updateScale (Some 500%Z) PrimFloat.one) * 794 + 48
         <= inject_Z 500 + (1 # 1000000000000))
  /\ ((842 <= 500)%Z ->
      PrimFloat.eqb (App.updateScale (Some 500%Z) PrimFloat.one) PrimFloat.one
      = true).
Proof.
  apply (scale_fits_container 500 PrimFloat.one). lia.
Defined.

(** ** Pasting rich text *)

Lemma split_twoNewlines a b :
  Str.split Str.newline (a ++ twoNewlines ++ b)%string
  = Str.split Str.newline a ++ EmptyString :: Str.split Str.newline b.
Proof.
  unfold twoNewlines. cbn [append]. rewrite StrFacts.split_app. f_equal.
Qed.

(** The segmentation of two runs of lines of which the second does not
    start inside a table: the blocks of the first, then the blocks of the
    second. *)
Lemma segment_app X Y :
  headNonTable Y -> segment (X ++ Y) = segment X ++ segment Y.
Proof.
  intros H.
  induction X as [|line rest Htab IH|line rest Hoth IH] using lines_run_ind.
  - reflexivity.
  - cbn [app]. rewrite !(segment_table _ _ Htab).
    pose proof (take_drop_table rest) as TD.
    pose proof (takeTable_all rest) as TA.
    assert (HN : headNonTable (dropTable rest ++ Y)).
    { pose proof (dropTable_start rest) as S.
      destruct (dropTable rest) as [|l ls]; [exact H | exact S]. }
    destruct (takeTable_app (takeTable rest) (dropTable rest ++ Y) TA HN)
      as [Et Ed].
    rewrite app_assoc, TD in Et, Ed. rewrite Et, Ed, IH. reflexivity.
  - cbn [app]. rewrite !(segment_other _ _ Hoth), IH. reflexivity.
Qed.

Lemma handlePaste_lines
    (w : FileUtils.Window) (currentText html plainText md : string)
    (selectionStart selectionEnd : nat) :
  html <> EmptyString ->
  FileUtils.htmlToMarkdown w html = Ok md ->
  exists newText,
    App.handlePaste w currentText html plainText selectionStart selectionEnd
    = Some newText
    /\ Str.split Str.newline newText
       = Str.split Str.newline (substringTo selectionStart currentText)
         ++ [EmptyString] ++ Str.split Str.newline md ++ [EmptyString]
         ++ Str.split Str.newline (substringFrom selectionEnd currentText).
Proof.
  intros Hh Hm. unfold App.handlePaste. rewrite Hm.
  destruct html as [|c html']; [congruence|].
  eexists. split; [reflexivity|].
  unfold App.insertText.
  rewrite !append_assoc, split_twoNewlines, split_twoNewlines.
  reflexivity.
Qed.

(** X7.  Rich text pasted at any selection arrives as lines of its own:
    the lines of the new text are the lines before the selection, an
    empty line, the lines of the converted Markdown, an empty line, and
    the lines after the selection. *)
Theorem pasted_markdown_on_own_lines
    (w : FileUtils.Window) (currentText html plainText md : string)
    (selectionStart selectionEnd : nat) :
  html <> EmptyString ->
  FileUtils.htmlToMarkdown w html = Ok md ->
  exists newText,
    App.handlePaste w currentText html plainText selectionStart selectionEnd
    = Some newText
    /\ Str.split Str.newline newText
       = Str.split Str.newline (substringTo selectionStart currentText)
         ++ [EmptyString] ++ Str.split Str.newline md ++ [EmptyString]
         ++ Str.split Str.newline (substringFrom selectionEnd currentText).
Proof.
  intros Hh Hm. unfold App.handlePaste. rewrite Hm.
  destruct html as [|c html']; [congruence|].
  exists (substringTo selectionStart currentText ++ App.insertText md
          ++ substringFrom selectionEnd currentText)%string.
  split; [reflexivity|].
  unfold App.insertText.
  now rewrite !append_assoc, !split_twoNewlines.
Qed.

Lemma pasted_markdown_on_own_lines_witness :
  exists newText,
    App.handlePaste
      {| FileUtils.mammoth := None; FileUtils.TurndownService := None;
         FileUtils.turndownPluginGfm := false |}
      "|a|b|" "<b>x</b>" "x" 3 3
    = Some newText
    /\ Str.split Str.newline newText
       = Str.split Str.newline (substringTo 3 "|a|b|")
         ++ [EmptyString] ++ Str.split Str.newline "<b>x</b>" ++ [EmptyString]
         ++ Str.split Str.newline (substringFrom 3 "|a|b|").
Proof.
  apply (pasted_markdown_on_own_lines
           {| FileUtils.mammoth := None; FileUtils.TurndownService := None;
              FileUtils.turndownPluginGfm := false |}
           "|a|b|" "<b>x</b>" "x" "<b>x</b>" 3 3).
  - discriminate.
  - reflexivity.
Defined.

(** X8.  A pasted table stays a table of its own: when every line of the
    converted Markdown is a table line, the segmentation of the new text
    has a table block of exactly these lines, wherever the selection was -
    also in the middle of a table. *)
Theorem pasted_table_is_one_block
    (w : FileUtils.Window) (currentText html plainText md : string)
    (selectionStart selectionEnd : nat) :
  html <> EmptyString ->
  FileUtils.htmlToMarkdown w html = Ok md ->
  Forall (fun l => isTableLine l = true) (Str.split Str.newline md) ->
  exists newText before after,
    App.handlePaste w currentText html plainText selectionStart selectionEnd
    = Some newText
    /\ segment (Str.split Str.newline newText)
       = before ++ [mkBlock table (Str.split Str.newline md)] ++ after.
Proof.
  intros Hh Hm T.
  destruct (handlePaste_lines w currentText html plainText md
              selectionStart selectionEnd Hh Hm) as [newText [E L]].
  exists newText. rewrite L, E. clear L E.
  set (P := Str.split Str.newline (substringTo selectionStart currentText)).
  set (S := Str.split Str.newline (substringFrom selectionEnd currentText)).
  pose proof (StrFacts.split_nonempty Str.newline md) as N.
  destruct (Str.split Str.newline md) as [|t T1]; [contradiction|].
  inversion T as [|? ? Ht T1']; subst.
  exists (segment P ++ [mkBlock text [EmptyString]]), (segment (EmptyString :: S)).
  split; [reflexivity|].
  rewrite segment_app by reflexivity.
  cbn [app]. rewrite (segment_other EmptyString) by reflexivity.
  change (if isHrLine EmptyString then hr else text) with text.
  rewrite (segment_table _ _ Ht).
  destruct (takeTable_app T1 (EmptyString :: S) T1') as [-> ->];
    [reflexivity|].
  rewrite <- app_assoc. reflexivity.
Qed.

Lemma pasted_table_is_one_block_witness :
  exists newText before after,
    App.handlePaste
      {| FileUtils.mammoth := None;
         FileUtils.TurndownService := Some (fun _ _ => Ok "|c|d|");
         FileUtils.turndownPluginGfm := true |}
      "|a|b|" "<table></table>" "c d" 5 5
    = Some newText
    /\ segment (Str.split Str.newline newText)
       = before ++ [mkBlock table (Str.split Str.newline "|c|d|")] ++ after.
Proof.
  apply (pasted_table_is_one_block
           {| FileUtils.mammoth := None;
              FileUtils.TurndownService := Some (fun _ _ => Ok "|c|d|");
              FileUtils.turndownPluginGfm := true |}
           "|a|b|" "<table></table>" "c d" "|c|d|" 5 5).
  - discriminate.
  - reflexivity.
  - repeat constructor.
Defined.

(** ** Importing a file *)

Lemma last_snoc {A : Type} (l : list A) (x d : A) : List.last (l ++ [x]) d = x.
Proof.
  induction l as [|y l IH]; [reflexivity|].
  cbn [app]. destruct (l ++ [x]) eqn:E; [now destruct l | exact IH].
Qed.

(** X9.  The format of an imported file is read off the text after the
    last dot of its name, in lower case; a name without a dot is its own
    extension. *)
Theorem extension_after_last_dot (base ext : string) :
  Str.mem "."%char ext = false ->
  FileUtils.extensionOf (base ++ String "."%char ext) = toLowerCase ext
  /\ FileUtils.extensionOf ext = toLowerCase ext.
Proof.
  intros H. unfold FileUtils.extensionOf.
  rewrite StrFacts.split_app, (StrFacts.split_no_sep_id _ _ H), last_snoc.
  split; reflexivity.
Qed.

Lemma extension_after_last_dot_witness :
  FileUtils.extensionOf ("notes.v2" ++ String "."%char "DocX") = toLowerCase "DocX"
  /\ FileUtils.extensionOf "DocX" = toLowerCase "DocX".
Proof. apply (extension_after_last_dot "notes.v2" "DocX"). reflexivity. Defined.

(** X10.  What [parseFile] throws: for a Word file the message
    "Failed to parse DOCX file.", for a PDF "Failed to parse PDF file.",
    whatever the parser threw; for every other file the error of the
    reader itself, unwrapped. *)
Theorem import_error_origin
    (w : FileUtils.Window) (pdf : FileUtils.Pdf) (file : FileUtils.File)
    (e : Error) :
  FileUtils.parseFile w pdf file = Throw e ->
  (FileUtils.extensionOf (FileUtils.name file) = "docx"
   /\ e = Some "Failed to parse DOCX file.")
  \/ (FileUtils.extensionOf (FileUtils.name file) = "pdf"
      /\ e = Some "Failed to parse PDF file.")
  \/ (FileUtils.extensionOf (FileUtils.name file) <> "docx"
      /\ FileUtils.extensionOf (FileUtils.name file) <> "pdf"
      /\ FileUtils.readAsText file = Throw e).
Proof.
  unfold FileUtils.parseFile. cbn zeta.
  destruct (String.eqb _ "docx") eqn:D.
  { apply String.eqb_eq in D. rewrite D. intros H. left. split; [reflexivity|].
    destruct (FileUtils.parseDocx w file); cbn in H; congruence. }
  destruct (String.eqb _ "pdf") eqn:P.
  { apply String.eqb_eq in P. rewrite P. intros H. right; left.
    split; [reflexivity|].
    destruct (FileUtils.parsePdf pdf file); cbn in H; congruence. }
  apply String.eqb_neq in D, P. intros H. right; right.
  split; [exact D | split; [exact P|]].
  destruct (FileUtils.readAsText file); cbn in H; congruence.
Qed.

Lemma import_error_origin_witness :
  (FileUtils.extensionOf "a.docx" = "docx"
   /\ Some "Failed to parse DOCX file." = Some "Failed to parse DOCX file.")
  \/ (FileUtils.extensionOf "a.docx" = "pdf"
      /\ Some "Failed to parse DOCX file." = Some "Failed to parse PDF file.")
  \/ (FileUtils.extensionOf "a.docx" <> "docx"
      /\ FileUtils.extensionOf "a.docx" <> "pdf"
      /\ @Ok string "" = Throw (Some "Failed to parse DOCX file.")).
Proof.
  apply (import_error_origin
           {| FileUtils.mammoth := None; FileUtils.TurndownService := None;
              FileUtils.turndownPluginGfm := false |}
           (fun _ => Ok [])
           {| FileUtils.name := "a.docx"; FileUtils.arrayBuffer := Ok "";
              FileUtils.readAsText := Ok "" |}
           (Some "Failed to parse DOCX file.")).
  reflexivity.
Defined.

Lemma join_oneLine items :
  Forall oneLine items -> oneLine (Str.join Str.space items).
Proof.
  unfold oneLine.
  induction 1 as [|x rest Hx F IH]; [reflexivity|].
  destruct rest as [|y rest]; [exact Hx|].
  rewrite StrFacts.join_cons, StrFacts.mem_app, Hx. cbn [Str.mem orb].
  exact IH.
Qed.

Lemma pdfPages_text pages : forall fullText,
  FileUtils.pdfPages (map Ok pages) fullText
  = Ok (fullText
        ++ String.concat EmptyString
             (map (fun items => Str.join Str.space items ++ twoNewlines) pages))%string.
Proof.
  induction pages as [|items rest IH]; intros fullText; cbn [map FileUtils.pdfPages].
  - cbn. now rewrite V1Facts.append_nil_r.
  - rewrite IH. f_equal. rewrite append_assoc. f_equal.
    cbn [String.concat map]. destruct rest as [|r rest']; cbn [map].
    + cbn. now rewrite V1Facts.append_nil_r.
    + reflexivity.
Qed.

Lemma pdf_lines pages :
  Forall (Forall oneLine) pages ->
  Str.split Str.newline
    (String.concat EmptyString
       (map (fun items => Str.join Str.space items ++ twoNewlines) pages))%string
  = flat_map (fun items => [Str.join Str.space items; EmptyString]) pages
    ++ [EmptyString].
Proof.
  induction 1 as [|items rest Hi F IH]; [reflexivity|].
  assert (E : String.concat EmptyString
                (map (fun items => Str.join Str.space items ++ twoNewlines)
                   (items :: rest))%string
              = (Str.join Str.space items ++ twoNewlines
                 ++ String.concat EmptyString
                      (map (fun items => Str.join Str.space items ++ twoNewlines)
                         rest))%string).
  { cbn [map String.concat]. destruct rest as [|r rest']; cbn [map].
    - cbn [String.concat]. now rewrite V1Facts.append_nil_r.
    - cbn [append]. now rewrite append_assoc. }
  rewrite E, split_twoNewlines, IH.
  rewrite (StrFacts.split_no_sep_id _ _ (join_oneLine _ Hi)). reflexivity.
Qed.

(** X11.  The text of an imported PDF whose text items hold no line feed:
    one line for each page - its items joined by single spaces - each
    followed by an empty line, and a last empty line. *)
Theorem pdf_one_line_per_page
    (pdf : FileUtils.Pdf) (file : FileUtils.File) (buffer : string)
    (pages : list (list string)) :
  FileUtils.arrayBuffer file = Ok buffer ->
  pdf buffer = Ok (map Ok pages) ->
  Forall (Forall oneLine) pages ->
  exists fullText,
    FileUtils.parsePdf pdf file = Ok fullText
    /\ Str.split Str.newline fullText
       = flat_map (fun items => [Str.join Str.space items; EmptyString]) pages
         ++ [EmptyString].
Proof.
  intros B P F. unfold FileUtils.parsePdf. rewrite B. cbn [bind]. rewrite P.
  cbn [bind]. rewrite pdfPages_text. eexists. split; [reflexivity|].
  cbn [append]. now apply pdf_lines.
Qed.

Lemma pdf_one_line_per_page_witness :
  exists fullText,
    FileUtils.parsePdf (fun _ => Ok (map Ok [["Hello"; "world"]; ["Page"; "2"]]))
      {| FileUtils.name := "a.pdf"; FileUtils.arrayBuffer := Ok "%PDF";
         FileUtils.readAsText := Ok "" |}
    = Ok fullText
    /\ Str.split Str.newline fullText
       = flat_map (fun items => [Str.join Str.space items; EmptyString])
           [["Hello"; "world"]; ["Page"; "2"]]
         ++ [EmptyString].
Proof.
  apply (pdf_one_line_per_page
           (fun _ => Ok (map Ok [["Hello"; "world"]; ["Page"; "2"]]))
           {| FileUtils.name := "a.pdf"; FileUtils.arrayBuffer := Ok "%PDF";
              FileUtils.readAsText := Ok "" |}
           "%PDF" [["Hello"; "world"]; ["Page"; "2"]]).
  - reflexivity.
  - reflexivity.
  - repeat constructor.
Defined.

(** ** The Gemini service *)

Lemma notes_or_message_aux (env : Gemini.Env) (text : string) :
  match Gemini.summarizeToNotes env text with
  | Ok notes => notes <> EmptyString
  | Throw e => exists m, e = Some m /\ m <> EmptyString
  end.
Proof.
  unfold Gemini.summarizeToNotes.
  destruct (bind _ _) as [[[|x r]|]|[[|x m]|]]; cbn [orElse];
    try discriminate; eexists; split; try reflexivity; discriminate.
Qed.

(** X12.  [summarizeToNotes] never answers with empty notes and never
    throws without a message; notes come only with a non-empty API key,
    and without one the message is the one of [getClient]. *)
Theorem notes_or_message (env : Gemini.Env) (text : string) :
  match Gemini.summarizeToNotes env text with
  | Ok notes =>
      notes <> EmptyString
      /\ exists key, Gemini.API_KEY env = Some key /\ key <> EmptyString
  | Throw e =>
      exists m, e = Some m /\ m <> EmptyString
                /\ (m = "API Key not found in environment variables"
                    \/ exists key, Gemini.API_KEY env = Some key
                                   /\ key <> EmptyString)
  end.
Proof.
  unfold Gemini.summarizeToNotes, Gemini.getClient.
  destruct (Gemini.API_KEY env) as [[|c k]|]; cbn [bind].
  - eexists. split; [reflexivity|]. split; [discriminate | now left].
  - destruct (Gemini.generateContent env _ _ _) as [[[|x r]|]|[[|x m]|]];
      cbn [orElse].
    all: try (split; [discriminate | eexists; split; [reflexivity | discriminate]]).
    all: eexists; split; [reflexivity|]; split; [discriminate|]; right;
      eexists; split; [reflexivity | discriminate].
  - eexists. split; [reflexivity|]. split; [discriminate | now left].
Qed.

(** ** Typing at the end of the text *)

Lemma takeTable_all_app T X :
  Forall (fun l => isTableLine l = true) T ->
  takeTable (T ++ X) = T ++ takeTable X /\ dropTable (T ++ X) = dropTable X.
Proof.
  induction 1 as [|l T Hl _ [IHt IHd]]; cbn [app takeTable dropTable].
  - split; reflexivity.
  - rewrite Hl, IHt, IHd. split; reflexivity.
Qed.

Lemma lengthQ_app {A : Type} (l m : list A) :
  lengthQ (l ++ m) == lengthQ l + lengthQ m.
Proof.
  unfold lengthQ. rewrite List.length_app, Nat2Z.inj_add, inject_Z_plus.
  reflexivity.
Qed.

Section Stable.

Variable pxPerLine : Q.
Variable charsPerLine : ExtZ.
Hypothesis pxNonNeg : 0 <= pxPerLine.

Lemma pages_run blocks st :
  exists more,
    pages (runBlocks pxPerLine charsPerLine blocks st) = pages st ++ more.
Proof. apply run_progress. Qed.

Lemma splitRows_app headers A B : forall r st,
  splitRows pxPerLine headers r (A ++ B) st
  = splitRows pxPerLine headers (r + List.length A) B
      (splitRows pxPerLine headers r A st).
Proof.
  induction A as [|a A IH]; intros r st; cbn [app splitRows List.length].
  - now rewrite Nat.add_0_r.
  - rewrite IH. f_equal. lia.
Qed.

(** The rows of a table are placed the same way when more rows follow. *)
Lemma splitRows_headers T T' st :
  splitRows pxPerLine (firstn 2 (T ++ T')) 0 T st
  = splitRows pxPerLine (firstn 2 T) 0 T st.
Proof.
  destruct T as [|t1 [|t2 T2]]; reflexivity.
Qed.

(** A table with more rows seals at least the pages the table seals. *)
Lemma table_extension st T T' :
  exists more,
    pages (processBlock pxPerLine charsPerLine st (mkBlock table (T ++ T')))
    = pages (processBlock pxPerLine charsPerLine st (mkBlock table T)) ++ more.
Proof.
  destruct (Qle_bool (currentHeightUsed st
                      + lengthQ T * getLineHeight pxPerLine false true false)
              AVAILABLE_HEIGHT) eqn:Fit.
  - destruct (pages_processBlock pxPerLine charsPerLine st
                (mkBlock table (T ++ T'))) as [more Hm].
    exists more. rewrite Hm. f_equal.
    unfold processBlock; cbn [type content]. rewrite Fit.
    cbn [addLines pages]. destruct (nonEmpty _); reflexivity.
  - assert (Fit' : Qle_bool (currentHeightUsed st
                             + lengthQ (T ++ T')
                               * getLineHeight pxPerLine false true false)
                     AVAILABLE_HEIGHT = false).
    { apply Qle_bool_false in Fit. apply Qle_bool_false.
      unfold getLineHeight in *. cbn match in *.
      rewrite lengthQ_app.
      assert (One : 0 <= 1) by (vm_compute; discriminate).
      pose proof (Qmult_le_0_compat _ _ (lengthQ_nonneg T')
                    (Qmult_le_0_compat _ _ pxNonNeg One)) as N.
      assert (E : (lengthQ T + lengthQ T') * (pxPerLine * 1)
                  == lengthQ T * (pxPerLine * 1) + lengthQ T' * (pxPerLine * 1))
        by ring.
      rewrite E. lra. }
    unfold processBlock; cbn [type content]. rewrite Fit, Fit'.
    rewrite splitRows_app, splitRows_headers. apply pages_splitRows.
Qed.

Lemma run_prefix A B : forall st,
  exists more,
    pages (runBlocks pxPerLine charsPerLine (segment (A ++ B)) st)
    = pages (runBlocks pxPerLine charsPerLine (segment A) st) ++ more.
Proof.
  induction A as [|line rest Htab IH|line rest Hoth IH] using lines_run_ind;
    intros st.
  - cbn [app segment]. apply pages_run.
  - cbn [app]. rewrite !(segment_table _ _ Htab).
    unfold runBlocks in *. cbn [fold_left].
    pose proof (take_drop_table rest) as TD.
    pose proof (takeTable_all rest) as TA.
    pose proof (dropTable_start rest) as DS.
    destruct (dropTable rest) as [|l ls] eqn:D.
    + rewrite app_nil_r in TD. rewrite TD in TA.
      destruct (takeTable_all_app rest B TA) as [-> ->]. rewrite TD.
      cbn [segment fold_left].
      destruct (pages_run (segment (dropTable B))
                  (processBlock pxPerLine charsPerLine st
                     (mkBlock table (line :: rest ++ takeTable B))))
        as [m1 E1].
      unfold runBlocks in E1. rewrite E1.
      destruct (table_extension st (line :: rest) (takeTable B)) as [m2 E2].
      cbn [app] in E2. rewrite E2, <- app_assoc. eauto.
    + assert (HN : headNonTable ((l :: ls) ++ B)) by exact DS.
      destruct (takeTable_app (takeTable rest) ((l :: ls) ++ B) TA HN)
        as [Et Ed].
      rewrite app_assoc, TD in Et, Ed. rewrite Et, Ed. apply IH.
  - cbn [app]. rewrite !(segment_other _ _ Hoth).
    unfold runBlocks in *. cbn [fold_left]. apply IH.
Qed.

(** All pages but the last of the result are pages of the run. *)
Lemma assemble_sealed blocks :
  exists last,
    pages (runBlocks pxPerLine charsPerLine blocks initState)
    = removelast (assemble pxPerLine charsPerLine blocks) ++ last.
Proof.
  unfold assemble, runBlocks.
  set (st := fold_left _ blocks initState).
  destruct (nonEmpty (currentPageLines st)).
  - rewrite nonEmpty_snoc, removelast_last. exists []. now rewrite app_nil_r.
  - destruct (pages st) as [|p ps] eqn:P; cbn [nonEmpty].
    + exists []. reflexivity.
    + exists [List.last (p :: ps) EmptyString].
      apply app_removelast_last. discriminate.
Qed.

Lemma assemble_pages blocks :
  exists tail,
    assemble pxPerLine charsPerLine blocks
    = pages (runBlocks pxPerLine charsPerLine blocks initState) ++ tail.
Proof.
  unfold assemble, runBlocks.
  set (st := fold_left _ blocks initState).
  destruct (nonEmpty (currentPageLines st)).
  - rewrite nonEmpty_snoc. eauto.
  - destruct (pages st) as [|p ps] eqn:P; cbn [nonEmpty].
    + exists [EmptyString]. reflexivity.
    + exists []. now rewrite app_nil_r.
Qed.

End Stable.

(** X13.  Typing further lines at the end of the text leaves every page
    but the last as it was: for a line height that is not negative, the
    pages of the longer text start with the pages of the text less its
    last page. *)
Theorem earlier_pages_unchanged
    (currentText more : string) (fontSize lineHeight : Q) :
  0 <= fontSize * lineHeight ->
  exists tail,
    paginateText (currentText ++ String Str.newline more) fontSize lineHeight
    = removelast (paginateText currentText fontSize lineHeight) ++ tail.
Proof.
  intros Px.
  destruct currentText as [|c t]; [cbn [paginateText removelast app]; eauto|].
  unfold paginateText. cbn [append].
  change (String c (t ++ String Str.newline more))%string
    with (String c t ++ String Str.newline more)%string.
  rewrite StrFacts.split_app.
  set (A := Str.split Str.newline (String c t)).
  set (B := Str.split Str.newline more).
  set (px := pxPerLineOf fontSize lineHeight).
  set (cpl := charsPerLineOf fontSize).
  destruct (assemble_pages px cpl (segment (A ++ B))) as [t1 E1].
  destruct (run_prefix px cpl Px A B initState) as [t2 E2].
  destruct (assemble_sealed px cpl (segment A)) as [t3 E3].
  rewrite E1, E2, E3, <- !app_assoc. eauto.
Qed.

Lemma earlier_pages_unchanged_witness :
  exists tail,
    paginateText ("|a|" ++ String Str.newline "|b|") 22 (16 # 10)
    = removelast (paginateText "|a|" 22 (16 # 10)) ++ tail.
Proof.
  apply (earlier_pages_unchanged "|a|" "|b|" 22 (16 # 10)).
  vm_compute. discriminate.
Defined.

(** ** How many lines a page takes *)

Module Capacity.
Import PrimFloat F64 F64V2.
#[local] Set Warnings "-inexact-float".

Lemma wrapText_whole max v :
  F64V2.fitsOrSingle max v -> F64V2.wrapText v max = [v].
Proof.
  intros [H|H]; unfold F64V2.wrapText.
  - now rewrite H.
  - destruct (leb _ max); [reflexivity|].
    now rewrite (StrFacts.split_no_sep_id _ _ H).
Qed.

Section Count.

Variable pxPerLine : float.
Variable charsPerLine : float.
Variable k : nat.
Hypothesis atLeastOne : (1 <= k)%nat.
Hypothesis fits : forall j, (j < k)%nat ->
  gtb (heightOfLines j pxPerLine + pxPerLine) F64V2.AVAILABLE_HEIGHT = false.
Hypothesis full :
  gtb (heightOfLines k pxPerLine + pxPerLine) F64V2.AVAILABLE_HEIGHT = true.

(** Paragraph lines that need no wrapping are placed one by one. *)
Lemma run_whole vls : forall st,
  Forall (fun v => isPlainLine v = true) vls ->
  Forall (F64V2.fitsOrSingle charsPerLine) vls ->
  fold_left (F64V2.processBlock pxPerLine charsPerLine)
    (map (fun v => mkBlock text [v]) vls) st
  = F64V2.placeVisual pxPerLine vls st.
Proof.
  induction vls as [|v vls IH]; intros st P F; [reflexivity|].
  inversion P as [|? ? Pv Pvs]; inversion F as [|? ? Fv Fvs]; subst.
  cbn [map fold_left]. rewrite (IH _ Pvs Fvs).
  cbn [F64V2.placeVisual]. f_equal.
  unfold F64V2.processBlock; cbn [type content hd].
  apply isPlainLine_inv in Pv as [_ [_ Hh]]. rewrite Hh.
  now rewrite (wrapText_whole _ _ Fv).
Qed.

(** Lines placed one by one: [k] to the page. *)
Lemma placeVisual_count vls : forall st,
  F64V2.currentHeightUsed st
  = heightOfLines (List.length (F64V2.currentPageLines st)) pxPerLine ->
  (List.length (F64V2.currentPageLines st) <= k)%nat ->
  let st' := F64V2.placeVisual pxPerLine vls st in
  (List.length (F64V2.pages st) * k + List.length (F64V2.currentPageLines st)
   + List.length vls
   = List.length (F64V2.pages st') * k
     + List.length (F64V2.currentPageLines st'))%nat
  /\ (List.length (F64V2.currentPageLines st') <= k)%nat
  /\ (vls <> [] -> 1 <= List.length (F64V2.currentPageLines st'))%nat.
Proof.
  induction vls as [|v rest IH]; intros st U J; cbn zeta.
  - cbn [F64V2.placeVisual List.length].
    split; [lia | split; [exact J | congruence]].
  - cbn [F64V2.placeVisual]. rewrite U.
    destruct (Nat.eq_dec (List.length (F64V2.currentPageLines st)) k) as [E|N].
    + rewrite E, full.
      match goal with
      | |- context [F64V2.placeVisual _ rest ?s] => set (st1 := s)
      end.
      assert (U1 : F64V2.currentHeightUsed st1
                   = heightOfLines (List.length (F64V2.currentPageLines st1))
                       pxPerLine) by reflexivity.
      assert (J1 : (List.length (F64V2.currentPageLines st1) <= k)%nat)
        by (cbn; lia).
      destruct (IH st1 U1 J1) as [C [J' _]]. cbn zeta in C, J'.
      assert (L1 : List.length (F64V2.pages st1)
                   = S (List.length (F64V2.pages st))).
      { unfold st1, F64V2.addLines, F64V2.pushPage. cbn [F64V2.pages].
        destruct (nonEmpty _); rewrite List.length_app; cbn [List.length]; lia. }
      rewrite L1 in C.
      change (List.length (F64V2.currentPageLines st1)) with 1%nat in C.
      cbn [List.length].
      split; [lia|]. split; [exact J'|]. intros _.
      destruct rest as [|r rest']; [cbn; lia|].
      destruct (IH st1 U1 J1) as [_ [_ P']]. apply P'. discriminate.
    + rewrite (fits (List.length (F64V2.currentPageLines st))) by lia.
      match goal with
      | |- context [F64V2.placeVisual _ rest ?s] => set (st1 := s)
      end.
      assert (Len : List.length (F64V2.currentPageLines st1)
                    = S (List.length (F64V2.currentPageLines st))).
      { unfold st1, F64V2.addLines. cbn [F64V2.currentPageLines].
        rewrite List.length_app. cbn [List.length]. lia. }
      assert (U1 : F64V2.currentHeightUsed st1
                   = heightOfLines (List.length (F64V2.currentPageLines st1))
                       pxPerLine).
      { rewrite Len. unfold st1, F64V2.addLines.
        cbn [F64V2.currentHeightUsed heightOfLines]. now rewrite U. }
      assert (J1 : (List.length (F64V2.currentPageLines st1) <= k)%nat)
        by (rewrite Len; lia).
      destruct (IH st1 U1 J1) as [C [J' _]]. cbn zeta in C, J'.
      change (List.length (F64V2.pages st1))
        with (List.length (F64V2.pages st)) in C.
      rewrite Len in C. cbn [List.length].
      split; [lia|]. split; [exact J'|]. intros _.
      destruct rest as [|r rest']; [cbn [F64V2.placeVisual]; lia|].
      destruct (IH st1 U1 J1) as [_ [_ P']]. apply P'. discriminate.
Qed.

End Count.

(** X14.  Page capacity, in binary64.  When the running height of up to
    [k >= 1] lines - [0 + pxPerLine + ... + pxPerLine], every sum
    rounded - never exceeds [AVAILABLE_HEIGHT] and that of [k + 1] lines
    does, a text of [n] paragraph lines that need no wrapping (within
    [charsPerLine], or without a space) gives [n / k] pages, rounded
    up. *)
Theorem plain_lines_page_count
    (currentText : string) (fontSize lineHeight : float) (k : nat) :
  (1 <= k)%nat ->
  (forall j, (j < k)%nat ->
     gtb (heightOfLines j (pxPerLineOf fontSize lineHeight)
          + pxPerLineOf fontSize lineHeight) F64V2.AVAILABLE_HEIGHT = false) ->
  gtb (heightOfLines k (pxPerLineOf fontSize lineHeight)
       + pxPerLineOf fontSize lineHeight) F64V2.AVAILABLE_HEIGHT = true ->
  Forall (fun line => isPlainLine line = true)
    (Str.split Str.newline currentText) ->
  Forall (F64V2.fitsOrSingle (charsPerLineOf fontSize))
    (Str.split Str.newline currentText) ->
  List.length (F64V2.paginateText currentText fontSize lineHeight)
  = ((List.length (Str.split Str.newline currentText) + k - 1) / k)%nat.
Proof.
  intros K Lo Hi P F.
  destruct currentText as [|c t].
  { cbn [F64V2.paginateText Str.split List.length].
    replace (1 + k - 1)%nat with k by lia.
    symmetry. apply Nat.div_same. lia. }
  unfold F64V2.paginateText.
  set (ls := Str.split Str.newline (String c t)) in *.
  assert (N : ls <> []) by apply StrFacts.split_nonempty.
  rewrite <- (app_nil_r ls) at 1. rewrite (segment_plain _ [] P).
  cbn [segment]. rewrite app_nil_r.
  unfold F64V2.assemble.
  rewrite (run_whole _ _ ls F64V2.initState P F).
  destruct (placeVisual_count (pxPerLineOf fontSize lineHeight) k K Lo Hi ls
              F64V2.initState)
    as [C [J P1]]; [reflexivity | cbn; lia |].
  cbn zeta in *. specialize (P1 N).
  set (st := F64V2.placeVisual _ ls F64V2.initState) in *.
  destruct (F64V2.currentPageLines st) as [|l1 cur] eqn:Cur; [cbn in P1; lia|].
  cbn [nonEmpty]. rewrite nonEmpty_snoc, List.length_app. cbn [List.length] in *.
  change (List.length (F64V2.pages F64V2.initState)) with 0%nat in C.
  change (List.length (F64V2.currentPageLines F64V2.initState)) with 0%nat in C.
  apply (Nat.div_unique _ _ _ (List.length cur)); lia.
Qed.

Lemma plain_lines_page_count_witness :
  List.length (F64V2.paginateText (doc ["alpha"; ""; "beta gamma"]) 22 1.6)
  = ((List.length (Str.split Str.newline (doc ["alpha"; ""; "beta gamma"]))
      + 29 - 1) / 29)%nat.
Proof.
  apply (plain_lines_page_count (doc ["alpha"; ""; "beta gamma"]) 22 1.6 29).
  - lia.
  - intros j Hj.
    do 29 (destruct j as [|j]; [vm_compute; reflexivity|]). lia.
  - vm_compute. reflexivity.
  - repeat constructor.
  - repeat constructor; left; vm_compute; reflexivity.
Defined.

End Capacity.

(** ** Tables are taken whole *)

(** X15.  The segmentation never cuts a run of table lines in two: a
    table block is not directly followed by another table block. *)
Theorem tables_are_maximal (rawLines : list string) :
  tablesApart (segment rawLines).
Proof.
  induction rawLines as [|line rest Htab IH|line rest Hoth IH]
    using lines_run_ind.
  - exact I.
  - rewrite (segment_table _ _ Htab). cbn [tablesApart]. split; [|exact IH].
    pose proof (dropTable_start rest) as S.
    destruct (dropTable rest) as [|l ls]; [exact I|].
    rewrite (segment_other _ _ S). cbn [type].
    intros _. destruct (isHrLine l); discriminate.
  - rewrite (segment_other _ _ Hoth). cbn [tablesApart]. split; [|exact IH].
    destruct (segment rest); [exact I|].
    cbn [type]. intros E. destruct (isHrLine line); discriminate E.
Qed.

(** ** AI Format *)

(** X16.  [handleGenerate] either leaves the text as it is - doing
    nothing at all, or setting an error message that is not empty - or
    it replaces a text that is not blank by notes that are not empty and
    clears the error. *)
Theorem generate_outcome (env : Gemini.Env) (currentText : string)
    (error : option string) :
  let after := App.handleGenerate env currentText error in
  (fst after = currentText
   /\ (snd after = error
       \/ exists m, snd after = Some m /\ m <> EmptyString
                    /\ hasInk currentText = true))
  \/ (fst after <> EmptyString /\ snd after = None
      /\ hasInk currentText = true).
Proof.
  cbn zeta. unfold App.handleGenerate.
  destruct (Str.trim currentText) as [|c t] eqn:T.
  { left. split; [reflexivity | now left]. }
  assert (Ink : hasInk currentText = true).
  { destruct (hasInk currentText) eqn:H; [reflexivity|].
    apply V1Facts.trim_empty in H. congruence. }
  pose proof (notes_or_message_aux env currentText) as R.
  destruct (Gemini.summarizeToNotes env currentText) as [notes|e]; cbn [fst snd].
  - right. split; [exact R | split; [reflexivity | exact Ink]].
  - left. split; [reflexivity|]. right.
    destruct R as [m [-> Hm]]. cbn [orElse].
    destruct m as [|x m]; [congruence|]. eexists.
    split; [reflexivity | split; [discriminate | exact Ink]].
Qed.

(** ** Importing a PDF, end to end *)

(** X17.  A file whose extension is [pdf] and whose pages all give
    their text: the import shows no alert; it sets the editor to the
    text of the PDF when the PDF has a page, and leaves the editor as it
    was when the PDF has none. *)
Theorem pdf_import_sets_text
    (w : FileUtils.Window) (pdf : FileUtils.Pdf) (file : FileUtils.File)
    (buffer currentText : string) (pages : list (list string)) :
  FileUtils.extensionOf (FileUtils.name file) = "pdf" ->
  FileUtils.arrayBuffer file = Ok buffer ->
  pdf buffer = Ok (map Ok pages) ->
  exists fullText,
    FileUtils.parsePdf pdf file = Ok fullText
    /\ App.handleFileChange w pdf (Some file) currentText
       = (if nonEmpty pages then fullText else currentText, false).
Proof.
  intros E B P. unfold App.handleFileChange, FileUtils.parseFile. cbn zeta.
  rewrite E. cbn [String.eqb Ascii.eqb Bool.eqb].
  unfold FileUtils.parsePdf. rewrite B. cbn [bind]. rewrite P. cbn [bind].
  rewrite pdfPages_text. cbn [append FileUtils.failedToParse].
  eexists. split; [reflexivity|].
  destruct pages as [|items rest]; [reflexivity|].
  cbn [nonEmpty].
  set (fullText := String.concat EmptyString _).
  assert (N : fullText <> EmptyString).
  { unfold fullText. cbn [map String.concat].
    destruct rest; cbn [map];
      destruct (Str.join Str.space items); discriminate. }
  destruct fullText; [congruence | reflexivity].
Qed.

Lemma pdf_import_sets_text_witness :
  exists fullText,
    FileUtils.parsePdf (fun _ => Ok (map Ok [["Hello"; "world"]]))
      {| FileUtils.name := "Paper.PDF"; FileUtils.arrayBuffer := Ok "%PDF";
         FileUtils.readAsText := Ok "" |}
    = Ok fullText
    /\ App.handleFileChange
         {| FileUtils.mammoth := None; FileUtils.TurndownService := None;
            FileUtils.turndownPluginGfm := false |}
         (fun _ => Ok (map Ok [["Hello"; "world"]]))
         (Some {| FileUtils.name := "Paper.PDF";
                  FileUtils.arrayBuffer := Ok "%PDF";
                  FileUtils.readAsText := Ok "" |})
         "old text"
       = (if nonEmpty [["Hello"; "world"]] then fullText else "old text", false).
Proof.
  apply (pdf_import_sets_text
           {| FileUtils.mammoth := None; FileUtils.TurndownService := None;
              FileUtils.turndownPluginGfm := false |}
           (fun _ => Ok (map Ok [["Hello"; "world"]]))
           {| FileUtils.name := "Paper.PDF"; FileUtils.arrayBuffer := Ok "%PDF";
              FileUtils.readAsText := Ok "" |}
           "%PDF" "old text" [["Hello"; "world"]]).
  - reflexivity.
  - reflexivity.
  - reflexivity.
Defined.

End AppFacts.
